(** * Trace data model of the collector: status compatibility, counting,
      wire conversion, cloning and synthetic load generation.

    The development follows the Go sources
      - consumer/pdata/trace.go              (module [pdata])
      - receiver/otlpreceiver/trace/otlp.go  (module [trace])
      - testbed/testbed/data_providers.go    (module [testbed])
    Go structs are records, [int32] enums are [Z], slices are optional
    lists (a nil slice is [None], an empty non-nil one is [Some []]),
    in-place updates through pointers are functions returning the updated
    value, and a panic is [None]. Where sharing matters (cloning), trees
    live in a store of cells with explicit addresses (module [store]);
    concurrent calls are interleavings of indivisible steps (module
    [testbed]). The generated protobuf and view code these files call is
    modelled from the specification (modules [otlptrace], [otlpmetrics],
    [wire], and the views of [pdata]). *)

From Stdlib Require Import ZArith Lia List DecimalString.
From Stdlib.Strings Require Import Byte.
From stdpp Require Import base option list gmap strings.

Local Open Scope Z_scope.

(** ** Go slices *)

(** A Go slice value: [None] is the nil slice, [Some l] a non-nil slice
    holding [l]. *)
Definition slice (A : Type) : Type := option (list A).

(** The elements visited by [for _, x := range s]; [len(s)] is its length. *)
Definition elems {A} (s : slice A) : list A := default [] s.

(** Updating every element in place through its pointer keeps the slice
    header: nil stays nil and empty stays empty. *)
Definition slice_map {A} (f : A → A) (s : slice A) : slice A :=
  match s with
  | Some l => Some (f <$> l)
  | None => None
  end.

(** ** The generated protobuf messages (package otlptrace) *)

Module otlptrace.

(** Modelled from the spec: the enum constants and messages of the
    generated package protogen/trace/v1, which is outside the files listed
    above ([status: { code: enum{UNSET,OK,ERROR}, deprecatedCode:
    enum{OK,UNKNOWN_ERROR,...} }]). Both enums are [int32] in Go, so a
    field may hold any integer. Of a span, the name, the kind and the
    status are kept. *)
Definition Status_STATUS_CODE_UNSET : Z := 0.
Definition Status_STATUS_CODE_OK : Z := 1.
Definition Status_STATUS_CODE_ERROR : Z := 2.
Definition Status_DEPRECATED_STATUS_CODE_OK : Z := 0.
Definition Status_DEPRECATED_STATUS_CODE_UNKNOWN_ERROR : Z := 2.

Record Status := mkStatus {
    DeprecatedCode : Z;
    Message : string;
    Code : Z
  }.

Record Span := mkSpan {
    Name : string;
    Kind : Z;
    Status_ : Status
  }.

Record InstrumentationLibrarySpans := mkILS {
    Spans : slice Span
  }.

Record ResourceSpans := mkRS {
    InstrumentationLibrarySpans_ : slice InstrumentationLibrarySpans
  }.

End otlptrace.

Module otlpcollectortrace.

Record ExportTraceServiceRequest := mkRequest {
    ResourceSpans_ : slice otlptrace.ResourceSpans
  }.

(** The response message has no fields. *)
Record ExportTraceServiceResponse := mkResponse { }.

End otlpcollectortrace.

(** ** The generated protobuf messages (package otlpmetrics) *)

Module otlpmetrics.

(** Modelled from the spec: the metric messages of the generated package
    protogen/metrics/v1, which is outside the files listed above, following
    the schema of the generator: a [Metric] with a oneof payload over
    IntGauge, DoubleGauge, IntSum, DoubleSum, IntHistogram, DoubleHistogram
    and Summary, each with its own data points. Label sets are maps from
    strings to strings; the floating-point payloads and the exemplars of the
    data points are left out. *)
Record IntDataPoint := mkIntDataPoint {
  Labels : gmap string string;
  StartTimeUnixNano : Z;
  TimeUnixNano : Z;
  Value : Z
}.

(** The data point of the double-valued, histogram and summary variants. *)
Record OtherDataPoint := mkOtherDataPoint {
  OtherLabels : gmap string string;
  OtherStartTimeUnixNano : Z;
  OtherTimeUnixNano : Z
}.

Inductive Metric_Data : Type :=
| Metric_None
| Metric_IntGauge (DataPoints : slice IntDataPoint)
| Metric_DoubleGauge (DataPoints : slice OtherDataPoint)
| Metric_IntSum (DataPoints : slice IntDataPoint)
| Metric_DoubleSum (DataPoints : slice OtherDataPoint)
| Metric_IntHistogram (DataPoints : slice OtherDataPoint)
| Metric_DoubleHistogram (DataPoints : slice OtherDataPoint)
| Metric_DoubleSummary (DataPoints : slice OtherDataPoint).

Record Metric := mkMetric {
  Name : string;
  Description : string;
  Unit : string;
  Data : Metric_Data
}.

Record InstrumentationLibraryMetrics := mkILM {
  Metrics : slice Metric
}.

Record Resource := mkResource {
  Attributes : gmap string string
}.

Record ResourceMetrics := mkRM {
  Resource_ : Resource;
  InstrumentationLibraryMetrics_ : slice InstrumentationLibraryMetrics
}.

Record ExportMetricsServiceRequest := mkMetricsRequest {
  ResourceMetrics_ : slice ResourceMetrics
}.

End otlpmetrics.

#[global] Instance Status_eq_dec : EqDecision otlptrace.Status.
Proof. solve_decision. Defined.
#[global] Instance Span_eq_dec : EqDecision otlptrace.Span.
Proof. solve_decision. Defined.
#[global] Instance ILS_eq_dec : EqDecision otlptrace.InstrumentationLibrarySpans.
Proof. solve_decision. Defined.
#[global] Instance RS_eq_dec : EqDecision otlptrace.ResourceSpans.
Proof. solve_decision. Defined.
#[global] Instance Request_eq_dec :
  EqDecision otlpcollectortrace.ExportTraceServiceRequest.
Proof. solve_decision. Defined.

(** Go's [error] interface: [None] is the nil error. *)
Definition error : Type := option string.

(** Go's [int] and [int32]/[uint64] arithmetic: results wrap around. *)
Definition wrap_int (x : Z) : Z := (x + 2^63) mod 2^64 - 2^63.
Definition wrap_uint64 (x : Z) : Z := x mod 2^64.

(** [for i := 0; i < n; i++ { body }] where the body may panic: [loop n 0]
    runs the body at 0, 1, ..., n-1, threading the local state. *)
Fixpoint loop {St : Type} (n : nat) (i : nat) (body : nat → St → option St)
  (s : St) : option St :=
  match n with
  | O => Some s
  | S n' => s' ← body i s; loop n' (S i) body s'
  end.

(** ** consumer/pdata/trace.go *)

Module pdata.
Import otlptrace otlpcollectortrace.

(** [Traces] wraps a pointer to the request; the zero value [Traces{}]
    holds a nil pointer. *)
Record Traces := mkTraces { orig : option ExportTraceServiceRequest }.

Definition NewTraces : Traces := mkTraces (Some (mkRequest None)).

(** [TracesFromInternalRep(internal.TracesFromOtlp(req))] wraps the pointer
    it is given. *)
Definition TracesFromInternalRep (req : ExportTraceServiceRequest) : Traces :=
  mkTraces (Some req).

(** Modelled from the spec: the generated slice views ([Len], [At]) of
    pdata, which are outside the files listed above. [Len()] of an empty
    or unset sequence is 0; [At(i)] out of range is a contract violation
    (a panic). *)
Definition Len {A} (s : slice A) : nat := length (elems s).
Definition At {A} (s : slice A) (i : nat) : option A := elems s !! i.

(** [td.ResourceSpans()] dereferences [td.orig]: it panics on [Traces{}]. *)
Definition ResourceSpans (td : Traces) : option (slice otlptrace.ResourceSpans) :=
  ResourceSpans_ <$> orig td.

Definition SpanCount (td : Traces) : option Z :=
  rss ← ResourceSpans td;
  loop (Len rss) 0 (λ i spanCount,
    rs ← At rss i;
    let ilss := InstrumentationLibrarySpans_ rs in
    loop (Len ilss) 0 (λ j spanCount,
      ils ← At ilss j;
      Some (wrap_int (spanCount + Z.of_nat (Len (Spans ils)))))
      spanCount)
    0.

Definition StatusCodeUnset : Z := Status_STATUS_CODE_UNSET.
Definition StatusCodeOk : Z := Status_STATUS_CODE_OK.
Definition StatusCodeError : Z := Status_STATUS_CODE_ERROR.

(** [SetCode] on a [SpanStatus] view over the status [ms]; the result is
    the status the view points to afterwards. *)
Definition SetCode (ms : Status) (v : Z) : Status :=
  let ms := mkStatus (DeprecatedCode ms) (Message ms) v in
  if decide (v = StatusCodeUnset ∨ v = StatusCodeOk) then
    mkStatus Status_DEPRECATED_STATUS_CODE_OK (Message ms) (Code ms)
  else if decide (v = StatusCodeError) then
    mkStatus Status_DEPRECATED_STATUS_CODE_UNKNOWN_ERROR (Message ms) (Code ms)
  else ms.

(** [Clone] copies through pointers: it is modelled on a store of cells,
    see [store.Clone] below. *)

Section Wire.
(** The generated [Unmarshal] and [Marshal] methods of the request.
    [Unmarshal data] gives the state of the receiver after the call
    (possibly partly filled when it fails) and the error. [Marshal] takes
    the receiver pointer. *)
Variable Unmarshal : list byte → ExportTraceServiceRequest * error.
Variable Marshal : option ExportTraceServiceRequest → option (list byte * error).

Definition TracesFromOtlpProtoBytes (data : list byte) : Traces * error :=
  let '(req, err) := Unmarshal data in
  match err with
  | Some e => (mkTraces None, Some e)
  | None => (mkTraces (Some req), None)
  end.

Definition ToOtlpProtoBytes (td : Traces) : option (list byte * error) :=
  Marshal (orig td).
End Wire.

(** *** Metrics *)

(** Modelled from the spec: the metrics tree and the generated views of
    pdata used by the load generator ([NewMetrics], [Resize], [SetDataType],
    the [IntGauge] accessor, [MetricAndDataPointCount]), which are outside
    the files listed above. [Resize(n)] keeps the elements below
    min(old, new), fills growth with the zero value and discards shrinkage;
    a negative length is a slice bound out of range (a panic). The setter
    of a oneof variant discards the previous payload and installs an empty
    one; reading a variant that is not active is a contract violation. The
    counts are computed by a full traversal of the nested sequences. *)
Record Metrics := mkMetrics {
  metrics_orig : option otlpmetrics.ExportMetricsServiceRequest
}.

Definition NewMetrics : Metrics :=
  mkMetrics (Some (otlpmetrics.mkMetricsRequest None)).

(** [md.ResourceMetrics()] dereferences [md.orig]. *)
Definition ResourceMetrics (md : Metrics)
  : option (slice otlpmetrics.ResourceMetrics) :=
  otlpmetrics.ResourceMetrics_ <$> metrics_orig md.

(** Modelled from the spec: [Resize(n)] of a generated slice view. *)
Definition Resize {A} (zero : A) (newLen : Z) (s : slice A) : option (slice A) :=
  if newLen <? 0 then None
  else if newLen <=? Z.of_nat (Len s) then
    Some (take (Z.to_nat newLen) <$> s)
  else
    Some (Some (elems s ++ replicate (Z.to_nat newLen - Len s) zero)).

(** Writing through the view [At(i)]: the element at [i] is replaced by
    what the update makes of it. *)
Definition updateAt {A St} (s : slice A) (i : nat)
  (f : A → St → option (A * St)) (st : St) : option (slice A * St) :=
  x ← At s i;
  '(x', st') ← f x st;
  Some (Some (<[i := x']> (elems s)), st').

Inductive MetricDataType : Type :=
| MetricDataTypeNone
| MetricDataTypeIntGauge
| MetricDataTypeDoubleGauge
| MetricDataTypeIntSum
| MetricDataTypeDoubleSum
| MetricDataTypeIntHistogram
| MetricDataTypeDoubleHistogram
| MetricDataTypeSummary.

(** Modelled from the spec: the setter of the oneof variant. *)
Definition SetDataType (ty : MetricDataType) (ms : otlpmetrics.Metric)
  : otlpmetrics.Metric :=
  let data :=
    match ty with
    | MetricDataTypeNone => otlpmetrics.Data ms
    | MetricDataTypeIntGauge => otlpmetrics.Metric_IntGauge None
    | MetricDataTypeDoubleGauge => otlpmetrics.Metric_DoubleGauge None
    | MetricDataTypeIntSum => otlpmetrics.Metric_IntSum None
    | MetricDataTypeDoubleSum => otlpmetrics.Metric_DoubleSum None
    | MetricDataTypeIntHistogram => otlpmetrics.Metric_IntHistogram None
    | MetricDataTypeDoubleHistogram => otlpmetrics.Metric_DoubleHistogram None
    | MetricDataTypeSummary => otlpmetrics.Metric_DoubleSummary None
    end in
  otlpmetrics.mkMetric (otlpmetrics.Name ms) (otlpmetrics.Description ms)
    (otlpmetrics.Unit ms) data.

(** Modelled from the spec: [ms.IntGauge().DataPoints()], which panics
    when IntGauge is not the active variant. *)
Definition IntGaugeDataPoints (ms : otlpmetrics.Metric)
  : option (slice otlpmetrics.IntDataPoint) :=
  match otlpmetrics.Data ms with
  | otlpmetrics.Metric_IntGauge dps => Some dps
  | _ => None
  end.

(** The number of data points of a metric, whatever its variant. *)
Definition dataPoints (ms : otlpmetrics.Metric) : nat :=
  match otlpmetrics.Data ms with
  | otlpmetrics.Metric_None => 0
  | otlpmetrics.Metric_IntGauge dps => Len dps
  | otlpmetrics.Metric_DoubleGauge dps => Len dps
  | otlpmetrics.Metric_IntSum dps => Len dps
  | otlpmetrics.Metric_DoubleSum dps => Len dps
  | otlpmetrics.Metric_IntHistogram dps => Len dps
  | otlpmetrics.Metric_DoubleHistogram dps => Len dps
  | otlpmetrics.Metric_DoubleSummary dps => Len dps
  end.

(** Modelled from the spec: the (metric, data-point) pair count, by full
    traversal. *)
Definition MetricAndDataPointCount (md : Metrics) : option (nat * nat) :=
  rms ← ResourceMetrics md;
  let ilms := elems rms ≫=
                (λ rm, elems (otlpmetrics.InstrumentationLibraryMetrics_ rm)) in
  Some (sum_list_with (λ ilm, Len (otlpmetrics.Metrics ilm)) ilms,
        sum_list_with (λ ilm,
          sum_list_with dataPoints (elems (otlpmetrics.Metrics ilm))) ilms).

End pdata.

(** ** receiver/otlpreceiver/trace/otlp.go *)

Module trace.
Import otlptrace otlpcollectortrace.

(** The backward compatibility conversion applied to one span status. *)
Definition convertStatus (st : Status) : Status :=
  if decide (Code st = Status_STATUS_CODE_UNSET) then
    if decide (DeprecatedCode st ≠ Status_DEPRECATED_STATUS_CODE_OK) then
      mkStatus (DeprecatedCode st) (Message st) Status_STATUS_CODE_ERROR
    else st
  else if decide (Code st = Status_STATUS_CODE_OK) then
    mkStatus Status_DEPRECATED_STATUS_CODE_OK (Message st) (Code st)
  else if decide (Code st = Status_STATUS_CODE_ERROR) then
    mkStatus Status_DEPRECATED_STATUS_CODE_UNKNOWN_ERROR (Message st) (Code st)
  else st.

Definition convertSpan (span : Span) : Span :=
  mkSpan (Name span) (Kind span) (convertStatus (Status_ span)).

(** The three nested [range] loops of [Export]; every span is updated in
    place through its pointer. *)
Definition convertRequest (req : ExportTraceServiceRequest)
  : ExportTraceServiceRequest :=
  mkRequest (slice_map (λ rss,
    mkRS (slice_map (λ ils,
      mkILS (slice_map convertSpan (Spans ils)))
      (InstrumentationLibrarySpans_ rss)))
    (ResourceSpans_ req)).

(** What a call leaves behind: the value returned, and the trees handed to
    [nextConsumer.ConsumeTraces], in call order. *)
Record outcome (R : Type) := mkOutcome {
  returned : R;
  consumed : list pdata.Traces
}.
Arguments mkOutcome {R} _ _.
Arguments returned {R} _.
Arguments consumed {R} _.

Section Receiver.
(** The next consumer of the receiver: the error its [ConsumeTraces]
    returns for a tree. *)
Variable ConsumeTraces : pdata.Traces → error.

(** The receiver name put in the context and the receive-side counters of
    obsreport do not bear on what is consumed or returned; they are left
    out. *)
Definition sendToNextConsumer (td : pdata.Traces) : option (outcome error) :=
  numSpans ← pdata.SpanCount td;
  if decide (numSpans = 0) then Some (mkOutcome None [])
  else
    let err := ConsumeTraces td in
    Some (mkOutcome err [td]).

(** [Export] returns the response pointer and the error. *)
Definition Export (req : ExportTraceServiceRequest)
  : option (outcome (option ExportTraceServiceResponse * error)) :=
  let req := convertRequest req in
  let td := pdata.TracesFromInternalRep req in
  out ← sendToNextConsumer td;
  match returned out with
  | Some e => Some (mkOutcome (None, Some e) (consumed out))
  | None => Some (mkOutcome (Some mkResponse, None) (consumed out))
  end.
End Receiver.

End trace.

(** ** testbed/testbed/data_providers.go *)

Module testbed.
Import otlpmetrics.

(** Modelled from the spec: [LoadOptions], declared in the load generator,
    which is outside the files listed above; the provider reads its
    [ItemsPerBatch] (an [int]) and its [Attributes] (a map, possibly nil). *)
Record LoadOptions := mkLoadOptions {
  ItemsPerBatch : Z;
  Attributes : option (gmap string string)
}.

(** The provider holds pointers to two [atomic.Uint64] counters; they are
    nil until [SetLoadGeneratorCounters] is called, and may be shared with
    other providers. *)
Record PerfTestDataProvider := mkPerfTestDataProvider {
  options : LoadOptions;
  batchesGenerated : option nat;
  dataItemsGenerated : option nat
}.

(** What the provider shares with the rest of the program: the counters by
    address, and the number of calls of [time.Now] so far. *)
Record world := mkWorld {
  counters : gmap nat Z;
  ticks : nat
}.

Definition NewPerfTestDataProvider (options : LoadOptions) : PerfTestDataProvider :=
  mkPerfTestDataProvider options None None.

Definition SetLoadGeneratorCounters (dp : PerfTestDataProvider)
  (batchesGenerated dataItemsGenerated : option nat) : PerfTestDataProvider :=
  mkPerfTestDataProvider (options dp) batchesGenerated dataItemsGenerated.

(** [c.Inc()] of [atomic.Uint64]: one indivisible step that adds one and
    returns the new value; a nil pointer is dereferenced (a panic). *)
Definition Inc (c : option nat) (w : world) : option (Z * world) :=
  l ← c;
  v ← counters w !! l;
  let v' := wrap_uint64 (v + 1) in
  Some (v', mkWorld (<[l := v']> (counters w)) (ticks w)).

(** [strconv.Itoa]. *)
Definition Itoa (i : Z) : string := NilZero.string_of_int (Z.to_int i).

Definition dataPointsPerMetric : Z := 7.

Definition zeroIntDataPoint : IntDataPoint := mkIntDataPoint ∅ 0 0 0.
Definition zeroMetric : Metric := mkMetric "" "" "" Metric_None.
Definition zeroILM : InstrumentationLibraryMetrics := mkILM None.
Definition zeroRM : ResourceMetrics := mkRM (mkResource ∅) None.

Section Clock.
(** [now k] is the Unix time in nanoseconds that the call number [k] of
    [time.Now] reads. *)
Variable now : nat → Z.

Definition timeNow (w : world) : Z * world :=
  (now (ticks w), mkWorld (counters w) (S (ticks w))).

Definition TimestampFromTime (t : Z) : Z := wrap_uint64 t.

(** The body of the loop over the data points of one metric. *)
Definition generateDataPoint (dp : PerfTestDataProvider) (batchIndex : Z)
  (j : nat) (dataPoint : IntDataPoint) (w : world)
  : option (IntDataPoint * world) :=
  let '(t, w) := timeNow w in
  let dataPoint := mkIntDataPoint (Labels dataPoint) (TimestampFromTime t)
                     (TimeUnixNano dataPoint) (Value dataPoint) in
  '(value, w) ← Inc (dataItemsGenerated dp) w;
  let dataPoint := mkIntDataPoint (Labels dataPoint) (StartTimeUnixNano dataPoint)
                     (TimeUnixNano dataPoint) (wrap_int value) in
  let dataPoint := mkIntDataPoint
    {[ "item_index" := "item_" +:+ Itoa (Z.of_nat j);
       "batch_index" := "batch_" +:+ Itoa (wrap_int batchIndex) ]}
    (StartTimeUnixNano dataPoint) (TimeUnixNano dataPoint) (Value dataPoint) in
  Some (dataPoint, w).

(** The body of the loop over the metrics of the batch. *)
Definition generateMetric (dp : PerfTestDataProvider) (i : nat)
  (metric : Metric) (w : world) : option (Metric * world) :=
  let metric := mkMetric ("load_generator_" +:+ Itoa (Z.of_nat i))
                  (Description metric) (Unit metric) (Data metric) in
  let metric := mkMetric (Name metric)
                  ("Load Generator Counter #" +:+ Itoa (Z.of_nat i))
                  (Unit metric) (Data metric) in
  let metric := mkMetric (Name metric) (Description metric) "1" (Data metric) in
  let metric := pdata.SetDataType pdata.MetricDataTypeIntGauge metric in
  '(batchIndex, w) ← Inc (batchesGenerated dp) w;
  dps ← pdata.IntGaugeDataPoints metric;
  dps ← pdata.Resize zeroIntDataPoint dataPointsPerMetric dps;
  '(dps, w) ← loop (Z.to_nat dataPointsPerMetric) 0
    (λ j '(dps, w), pdata.updateAt dps j (generateDataPoint dp batchIndex j) w)
    (dps, w);
  Some (mkMetric (Name metric) (Description metric) (Unit metric)
          (Metric_IntGauge dps), w).

Definition GenerateMetrics (dp : PerfTestDataProvider) (w : world)
  : option (pdata.Metrics * bool * world) :=
  let md := pdata.NewMetrics in
  rms ← pdata.ResourceMetrics md;
  rms ← pdata.Resize zeroRM 1 rms;
  '(rms, w) ← pdata.updateAt rms 0 (λ rm w,
    ilms ← pdata.Resize zeroILM 1 (InstrumentationLibraryMetrics_ rm);
    Some (mkRM (Resource_ rm) ilms, w)) w;
  '(rms, w) ←
    match Attributes (options dp) with
    | Some attributes =>
        pdata.updateAt rms 0 (λ rm w,
          let attrs := map_fold (λ k v attrs, <[k := v]> attrs) ∅ attributes in
          Some (mkRM (mkResource attrs) (InstrumentationLibraryMetrics_ rm), w)) w
    | None => Some (rms, w)
    end;
  '(rms, w) ← pdata.updateAt rms 0 (λ rm w,
    '(ilms, w) ← pdata.updateAt (InstrumentationLibraryMetrics_ rm) 0 (λ ilm w,
      metrics ← pdata.Resize zeroMetric (ItemsPerBatch (options dp)) (Metrics ilm);
      '(metrics, w) ← loop (Z.to_nat (ItemsPerBatch (options dp))) 0
        (λ i '(metrics, w), pdata.updateAt metrics i (generateMetric dp i) w)
        (metrics, w);
      Some (mkILM metrics, w)) w;
    Some (mkRM (Resource_ rm) ilms, w)) w;
  Some (pdata.mkMetrics (Some (mkMetricsRequest rms)), false, w).
End Clock.

(** *** Concurrent producers *)

(** The counter operations of a call of a generator, in program order.
    Everything else a call does is local to it. *)
Inductive counterOp : Type :=
| IncBatches
| IncDataItems.

Definition counterOf (dp : PerfTestDataProvider) (op : counterOp) : option nat :=
  match op with
  | IncBatches => batchesGenerated dp
  | IncDataItems => dataItemsGenerated dp
  end.

(** [GenerateTraces]: one batch number, then one item number per span. *)
Definition GenerateTraces_ops (dp : PerfTestDataProvider) : list counterOp :=
  IncBatches :: replicate (Z.to_nat (ItemsPerBatch (options dp))) IncDataItems.

(** [GenerateMetrics]: per metric, one batch number, then one item number
    per data point. *)
Definition GenerateMetrics_ops (dp : PerfTestDataProvider) : list counterOp :=
  concat (replicate (Z.to_nat (ItemsPerBatch (options dp)))
            (IncBatches :: replicate (Z.to_nat dataPointsPerMetric) IncDataItems)).

(** [GenerateLogs]: one batch number, then one item number per record. *)
Definition GenerateLogs_ops (dp : PerfTestDataProvider) : list counterOp :=
  IncBatches :: replicate (Z.to_nat (ItemsPerBatch (options dp))) IncDataItems.

(** The operations of a call done in one go, with no other call in
    between. *)
Fixpoint applyOps (dp : PerfTestDataProvider) (ops : list counterOp) (w : world)
  : option world :=
  match ops with
  | [] => Some w
  | op :: ops => '(_, w) ← Inc (counterOf dp op) w; applyOps dp ops w
  end.

(** A call in progress, the counter operations it has yet to do. *)
Record call := mkCall {
  caller : PerfTestDataProvider;
  pending : list counterOp
}.

(** An increment that happened: the call that did it, the counter, and the
    value [Inc] returned. *)
Record event := mkEvent {
  ev_call : nat;
  ev_counter : option nat;
  ev_value : Z
}.

(** Calls running concurrently on shared counters. *)
Record system := mkSystem {
  calls : list call;
  shared : world;
  history : list event
}.

(** The call [tid] performs its next counter operation, as one indivisible
    step. *)
Definition schedule1 (tid : nat) (s : system) : option system :=
  c ← calls s !! tid;
  match pending c with
  | [] => None
  | op :: ops =>
      '(v, w) ← Inc (counterOf (caller c) op) (shared s);
      Some (mkSystem (<[tid := mkCall (caller c) ops]> (calls s)) w
              (history s ++ [mkEvent tid (counterOf (caller c) op) v]))
  end.

(** An interleaving: the calls take their steps in the order of the
    schedule. *)
Fixpoint run (sched : list nat) (s : system) : option system :=
  match sched with
  | [] => Some s
  | tid :: sched => s' ← schedule1 tid s; run sched s'
  end.

(** The values the increments of the counter at [l] returned, in the order
    they happened. *)
Definition observed (l : nat) (hist : list event) : list Z :=
  ev_value <$> filter (λ e, ev_counter e = Some l) hist.

(** The counters of the provider are set and allocated. *)
Definition live (dp : PerfTestDataProvider) (w : world) : Prop :=
  ∃ lb li, batchesGenerated dp = Some lb ∧ dataItemsGenerated dp = Some li ∧
    is_Some (counters w !! lb) ∧ is_Some (counters w !! li).

(** A metric set to the IntGauge variant with seven data points. *)
Definition gaugeOfSeven (m : Metric) : Prop :=
  ∃ dps, Data m = Metric_IntGauge dps ∧ pdata.Len dps = 7%nat.

(** Sample data: a provider producing batches of one metric, its counters
    at the addresses 0 and 1, and a world with both counters at zero. *)
Definition sampleProvider : PerfTestDataProvider :=
  SetLoadGeneratorCounters (NewPerfTestDataProvider (mkLoadOptions 1 None))
    (Some 0%nat) (Some 1%nat).
Definition sampleWorld : world := mkWorld {[ 0%nat := 0; 1%nat := 0 ]} 0.

(** Two calls on the same counters, one of [GenerateTraces] and one of
    [GenerateMetrics], and an interleaving of their seven plus two steps. *)
Definition sampleSystem : system :=
  mkSystem [mkCall sampleProvider (GenerateTraces_ops sampleProvider);
            mkCall sampleProvider (GenerateMetrics_ops sampleProvider)]
    sampleWorld [].
Definition sampleSchedule : list nat :=
  [1; 0; 1; 1; 0; 1; 1; 1; 1; 1]%nat.

End testbed.

(** ** The protobuf wire format of the trace request *)

Module wire.
Import otlptrace otlpcollectortrace.

(** Modelled from the spec: the generated [Marshal] and [Unmarshal] methods
    of the request and of the messages below it (package protogen), which
    are outside the files listed above. This is the canonical binary
    encoding of the envelope [ExportTraceRequest{ resourceSpans:
    seq<ResourceSpans> }] for the fields the tree above carries: a message
    is the concatenation of its fields in field order, a field is a tag
    (field number and wire type) followed by a base-128 varint or by a
    length and a payload, absent fields (zero numbers, empty strings,
    sequences without elements) are not written and decode to the wire
    default, and an embedded status is always written. Decoding fails on
    truncated bytes, invalid tags and wrong wire types; groups, which the
    schema does not use, are refused. On failure the receiver stays partly
    filled with the fields decoded so far. *)
Definition Z_of_byte (b : byte) : Z := Z.of_N (Byte.to_N b).

(** The conversion [uint8(z)]. *)
Definition byte_of_Z (z : Z) : byte :=
  default x00 (Byte.of_N (Z.to_N (z mod 256))).

Definition wrap_int32 (x : Z) : Z := (x + 2^31) mod 2^32 - 2^31.

Inductive result (A : Type) : Type :=
| Ok (a : A)
| Err (e : string).
Arguments Ok {A} _.
Arguments Err {A} _.

Definition ErrUnexpectedEOF : string := "unexpected EOF".
Definition ErrIntOverflow : string := "proto: integer overflow".
Definition ErrInvalidLength : string :=
  "proto: negative length found during unmarshaling".
Definition ErrWrongWireType : string := "proto: wrong wireType".
Definition ErrIllegalTag : string := "proto: illegal tag".
Definition ErrEndGroup : string := "proto: wiretype end group for non-group".
Definition ErrIllegalWireType : string := "proto: illegal wireType".

(** The varint of a [uint64]: seven bits a byte, low bits first, the high
    bit of a byte set when more bytes follow; at most ten bytes. *)
Fixpoint encodeVarint_loop (n : nat) (v : Z) : list byte :=
  match n with
  | O => [byte_of_Z v]
  | S n' =>
      if 128 <=? v
      then byte_of_Z (Z.lor (Z.land v 127) 128)
             :: encodeVarint_loop n' (Z.shiftr v 7)
      else [byte_of_Z v]
  end.

Definition encodeVarint (v : Z) : list byte := encodeVarint_loop 9 v.

(** Reading a varint into a [uint64]: the loop stops with an overflow
    error when the shift reaches 64, that is after ten bytes. *)
Fixpoint decodeVarint_loop (n : nat) (shift : Z) (v : Z) (data : list byte)
  : result (Z * list byte) :=
  match n with
  | O => Err ErrIntOverflow
  | S n' =>
      match data with
      | [] => Err ErrUnexpectedEOF
      | b :: rest =>
          let v := Z.lor v
            (wrap_uint64 (Z.shiftl (Z.land (Z_of_byte b) 127) shift)) in
          if Z_of_byte b <? 128 then Ok (v, rest)
          else decodeVarint_loop n' (shift + 7) v rest
      end
  end.

Definition decodeVarint (data : list byte) : result (Z * list byte) :=
  decodeVarint_loop 10 0 0 data.

(** A length-delimited value: the length as a varint, then the payload. *)
Definition encodeBytes (payload : list byte) : list byte :=
  encodeVarint (wrap_uint64 (Z.of_nat (length payload))) ++ payload.

Definition readBytes (data : list byte) : result (list byte * list byte) :=
  match decodeVarint data with
  | Err e => Err e
  | Ok (len, rest) =>
      if wrap_int len <? 0 then Err ErrInvalidLength
      else if Z.of_nat (length rest) <? len then Err ErrUnexpectedEOF
      else Ok (take (Z.to_nat len) rest, drop (Z.to_nat len) rest)
  end.

(** Skipping the value of a field the message does not know. *)
Definition skipField (wireType : Z) (data : list byte) : result (list byte) :=
  if wireType =? 0 then
    match decodeVarint data with
    | Err e => Err e
    | Ok (_, rest) => Ok rest
    end
  else if wireType =? 1 then
    if (length data <? 8)%nat then Err ErrUnexpectedEOF else Ok (drop 8 data)
  else if wireType =? 2 then
    match readBytes data with
    | Err e => Err e
    | Ok (_, rest) => Ok rest
    end
  else if wireType =? 5 then
    if (length data <? 4)%nat then Err ErrUnexpectedEOF else Ok (drop 4 data)
  else Err ErrIllegalWireType.

Definition toResult {A} (err : error) (a : A) : result A :=
  match err with
  | Some e => Err e
  | None => Ok a
  end.

Section Message.
Context {M : Type}.
(** [field fieldNum wireType data m] decodes the value of one field at the
    head of [data] into the message [m]: it gives the message afterwards
    and the bytes left, or the error. *)
Variable field : Z → Z → list byte → M → M * result (list byte).

(** The loop of a generated [Unmarshal]: read a tag, dispatch on the field
    number, until the input is used up. Every round consumes a byte at
    least, so [length data] rounds are enough; [None] stands for running
    out of rounds. *)
Fixpoint unmarshalLoop (fuel : nat) (data : list byte) (m : M)
  : option (M * error) :=
  match data with
  | [] => Some (m, None)
  | _ :: _ =>
      match fuel with
      | O => None
      | S fuel' =>
          match decodeVarint data with
          | Err e => Some (m, Some e)
          | Ok (wire, rest) =>
              let fieldNum := wrap_int32 (Z.shiftr wire 3) in
              let wireType := Z.land wire 7 in
              if wireType =? 4 then Some (m, Some ErrEndGroup)
              else if fieldNum <=? 0 then Some (m, Some ErrIllegalTag)
              else
                match field fieldNum wireType rest m with
                | (m', Err e) => Some (m', Some e)
                | (m', Ok rest') => unmarshalLoop fuel' rest' m'
                end
          end
      end
  end.

Definition unmarshal (data : list byte) (m : M) : M * error :=
  default (m, Some ErrUnexpectedEOF) (unmarshalLoop (length data) data m).

(** [decodes data m r]: the loop started on [data] with the message [m]
    ends with [r] within [length data] rounds. *)
Definition decodes (data : list byte) (m : M) (r : M * error) : Prop :=
  ∃ f, (f ≤ length data)%nat ∧ unmarshalLoop f data m = Some r.
End Message.

(** Go slices and the [int] lengths of the decoder hold fewer than 2^63
    bytes. *)
Definition fits (data : list byte) : Prop := Z.of_nat (length data) < 2 ^ 63.

(** An enum field: a varint narrowed to [int32]. *)
Definition readEnum (wireType : Z) (data : list byte) : result (Z * list byte) :=
  if wireType =? 0 then
    match decodeVarint data with
    | Err e => Err e
    | Ok (v, rest) => Ok (wrap_int32 v, rest)
    end
  else Err ErrWrongWireType.

(** A string or embedded message field: its payload. *)
Definition readPayload (wireType : Z) (data : list byte)
  : result (list byte * list byte) :=
  if wireType =? 2 then readBytes data else Err ErrWrongWireType.

Definition fieldUnknown {M} (wireType : Z) (data : list byte) (m : M)
  : M * result (list byte) :=
  (m, skipField wireType data).

(** [Status]: deprecated_code = 1, message = 2, code = 3. *)
Definition marshalStatus (m : Status) : list byte :=
  (if DeprecatedCode m =? 0 then []
   else x08 :: encodeVarint (wrap_uint64 (DeprecatedCode m)))
  ++ (if decide (Message m = "") then []
      else x12 :: encodeBytes (String.list_byte_of_string (Message m)))
  ++ (if Code m =? 0 then []
      else x18 :: encodeVarint (wrap_uint64 (Code m))).

Definition fieldStatus (fieldNum wireType : Z) (data : list byte) (m : Status)
  : Status * result (list byte) :=
  if fieldNum =? 1 then
    match readEnum wireType data with
    | Err e => (m, Err e)
    | Ok (v, rest) => (mkStatus v (Message m) (Code m), Ok rest)
    end
  else if fieldNum =? 2 then
    match readPayload wireType data with
    | Err e => (m, Err e)
    | Ok (payload, rest) =>
        (mkStatus (DeprecatedCode m) (String.string_of_list_byte payload) (Code m),
         Ok rest)
    end
  else if fieldNum =? 3 then
    match readEnum wireType data with
    | Err e => (m, Err e)
    | Ok (v, rest) => (mkStatus (DeprecatedCode m) (Message m) v, Ok rest)
    end
  else fieldUnknown wireType data m.

Definition unmarshalStatus (data : list byte) (m : Status) : Status * error :=
  unmarshal fieldStatus data m.

(** [Span]: name = 5, kind = 6, status = 15 (not nullable: always written,
    and decoded into the status the span already holds). *)
Definition marshalSpan (m : Span) : list byte :=
  (if decide (Name m = "") then []
   else x2a :: encodeBytes (String.list_byte_of_string (Name m)))
  ++ (if Kind m =? 0 then []
      else x30 :: encodeVarint (wrap_uint64 (Kind m)))
  ++ x7a :: encodeBytes (marshalStatus (Status_ m)).

Definition fieldSpan (fieldNum wireType : Z) (data : list byte) (m : Span)
  : Span * result (list byte) :=
  if fieldNum =? 5 then
    match readPayload wireType data with
    | Err e => (m, Err e)
    | Ok (payload, rest) =>
        (mkSpan (String.string_of_list_byte payload) (Kind m) (Status_ m), Ok rest)
    end
  else if fieldNum =? 6 then
    match readEnum wireType data with
    | Err e => (m, Err e)
    | Ok (v, rest) => (mkSpan (Name m) v (Status_ m), Ok rest)
    end
  else if fieldNum =? 15 then
    match readPayload wireType data with
    | Err e => (m, Err e)
    | Ok (payload, rest) =>
        let '(st, err) := unmarshalStatus payload (Status_ m) in
        (mkSpan (Name m) (Kind m) st, toResult err rest)
    end
  else fieldUnknown wireType data m.

Definition unmarshalSpan (data : list byte) (m : Span) : Span * error :=
  unmarshal fieldSpan data m.

(** [append(s, x)]: appending to a nil slice allocates. *)
Definition append {A} (s : slice A) (x : A) : slice A := Some (elems s ++ [x]).

(** A repeated message field: every element is written as one
    length-delimited field, a sequence without elements writes nothing. *)
Definition marshalRepeated {A} (tag : byte) (marshal : A → list byte)
  (s : slice A) : list byte :=
  concat ((λ x, tag :: encodeBytes (marshal x)) <$> elems s).

(** The decoder appends a fresh element, then decodes the payload into it. *)
Definition readRepeated {A} (unmarshalElem : list byte → A * error)
  (wireType : Z) (data : list byte) (s : slice A)
  : slice A * result (list byte) :=
  match readPayload wireType data with
  | Err e => (s, Err e)
  | Ok (payload, rest) =>
      let '(x, err) := unmarshalElem payload in
      (append s x, toResult err rest)
  end.

Definition zeroStatus : Status := mkStatus 0 "" 0.
Definition zeroSpan : Span := mkSpan "" 0 zeroStatus.

(** [InstrumentationLibrarySpans]: spans = 2. *)
Definition marshalILS (m : InstrumentationLibrarySpans) : list byte :=
  marshalRepeated x12 marshalSpan (Spans m).

Definition fieldILS (fieldNum wireType : Z) (data : list byte)
  (m : InstrumentationLibrarySpans)
  : InstrumentationLibrarySpans * result (list byte) :=
  if fieldNum =? 2 then
    let '(s, r) := readRepeated (λ payload, unmarshalSpan payload zeroSpan)
                     wireType data (Spans m) in
    (mkILS s, r)
  else fieldUnknown wireType data m.

Definition unmarshalILS (data : list byte) (m : InstrumentationLibrarySpans)
  : InstrumentationLibrarySpans * error :=
  unmarshal fieldILS data m.

(** [ResourceSpans]: instrumentation_library_spans = 2. *)
Definition marshalRS (m : ResourceSpans) : list byte :=
  marshalRepeated x12 marshalILS (InstrumentationLibrarySpans_ m).

Definition fieldRS (fieldNum wireType : Z) (data : list byte) (m : ResourceSpans)
  : ResourceSpans * result (list byte) :=
  if fieldNum =? 2 then
    let '(s, r) := readRepeated (λ payload, unmarshalILS payload (mkILS None))
                     wireType data (InstrumentationLibrarySpans_ m) in
    (mkRS s, r)
  else fieldUnknown wireType data m.

Definition unmarshalRS (data : list byte) (m : ResourceSpans)
  : ResourceSpans * error :=
  unmarshal fieldRS data m.

(** [ExportTraceServiceRequest]: resource_spans = 1. *)
Definition marshalRequest (m : ExportTraceServiceRequest) : list byte :=
  marshalRepeated x0a marshalRS (ResourceSpans_ m).

Definition fieldRequest (fieldNum wireType : Z) (data : list byte)
  (m : ExportTraceServiceRequest)
  : ExportTraceServiceRequest * result (list byte) :=
  if fieldNum =? 1 then
    let '(s, r) := readRepeated (λ payload, unmarshalRS payload (mkRS None))
                     wireType data (ResourceSpans_ m) in
    (mkRequest s, r)
  else fieldUnknown wireType data m.

(** Modelled from the spec: [req.Unmarshal(data)] on a fresh request,
    the generated decoder of the request. *)
Definition Unmarshal (data : list byte) : ExportTraceServiceRequest * error :=
  unmarshal fieldRequest data (mkRequest None).

(** Modelled from the spec: [m.Marshal()], the generated encoder of the
    request. A nil receiver is dereferenced (a panic); otherwise the bytes
    and a nil error: encoding always succeeds. *)
Definition Marshal (m : option ExportTraceServiceRequest)
  : option (list byte * error) :=
  match m with
  | None => None
  | Some req => Some (marshalRequest req, None)
  end.

(** A tree as a decoder builds it: a sequence without elements is absent. *)
Definition absentIfEmpty {A} (s : slice A) : slice A :=
  match s with
  | Some [] => None
  | _ => s
  end.

Definition normalizeILS (m : InstrumentationLibrarySpans)
  : InstrumentationLibrarySpans :=
  mkILS (absentIfEmpty (Spans m)).

Definition normalizeRS (m : ResourceSpans) : ResourceSpans :=
  mkRS (absentIfEmpty (slice_map normalizeILS (InstrumentationLibrarySpans_ m))).

Definition normalize (m : ExportTraceServiceRequest) : ExportTraceServiceRequest :=
  mkRequest (absentIfEmpty (slice_map normalizeRS (ResourceSpans_ m))).

(** No sequence of the tree is empty but present. *)
Definition noEmptySequence (m : ExportTraceServiceRequest) : Prop :=
  ResourceSpans_ m ≠ Some [] ∧
  Forall (λ rs,
    InstrumentationLibrarySpans_ rs ≠ Some [] ∧
    Forall (λ ils, Spans ils ≠ Some [])
      (elems (InstrumentationLibrarySpans_ rs)))
    (elems (ResourceSpans_ m)).

(** The fields of a tree are in the range of their Go types. *)
Definition int32 (x : Z) : Prop := - 2^31 ≤ x < 2^31.

Definition wfStatus (m : Status) : Prop :=
  int32 (DeprecatedCode m) ∧ int32 (Code m).

Definition wfSpan (m : Span) : Prop := int32 (Kind m) ∧ wfStatus (Status_ m).

Definition wfILS (m : InstrumentationLibrarySpans) : Prop :=
  Forall wfSpan (elems (Spans m)).

Definition wfRS (m : ResourceSpans) : Prop :=
  Forall wfILS (elems (InstrumentationLibrarySpans_ m)).

Definition wfRequest (m : ExportTraceServiceRequest) : Prop :=
  Forall wfRS (elems (ResourceSpans_ m)).

End wire.

(** ** Trees in memory: pointers, sharing and cloning *)

Module store.
Import otlptrace otlpcollectortrace.

(** The objects a tree is made of. A slice of pointers holds the addresses
    of its elements; two slices, or two trees, alias when they hold the
    same address. *)
Inductive cell : Type :=
| CRequest (ResourceSpans : slice nat)
| CResourceSpans (InstrumentationLibrarySpans : slice nat)
| CInstrumentationLibrarySpans (Spans : slice nat)
| CSpan (span : Span).

#[local] Abbreviation heap := (gmap nat cell).

(** Allocation gives an address that is not in use. *)
Definition alloc (h : heap) (c : cell) : nat * heap :=
  let l := fresh (dom h) in (l, <[l := c]> h).

Definition unRequest (c : cell) : option (slice nat) :=
  match c with CRequest s => Some s | _ => None end.
Definition unResourceSpans (c : cell) : option (slice nat) :=
  match c with CResourceSpans s => Some s | _ => None end.
Definition unInstrumentationLibrarySpans (c : cell) : option (slice nat) :=
  match c with CInstrumentationLibrarySpans s => Some s | _ => None end.

(** *** What is observable through a pointer *)

Fixpoint readList {A} (read : nat → option A) (ls : list nat) : option (list A) :=
  match ls with
  | [] => Some []
  | l :: ls => x ← read l; xs ← readList read ls; Some (x :: xs)
  end.

Definition readSlice {A} (read : nat → option A) (s : slice nat)
  : option (slice A) :=
  match s with
  | None => Some None
  | Some ls => xs ← readList read ls; Some (Some xs)
  end.

(** A message whose only pointers are the elements of one sequence. *)
Definition readNode {A B} (un : cell → option (slice nat)) (mk : slice A → B)
  (read : heap → nat → option A) (h : heap) (l : nat) : option B :=
  c ← h !! l; s ← un c; xs ← readSlice (read h) s; Some (mk xs).

Definition readSpan (h : heap) (l : nat) : option Span :=
  match h !! l with
  | Some (CSpan span) => Some span
  | _ => None
  end.

Definition readILS : heap → nat → option InstrumentationLibrarySpans :=
  readNode unInstrumentationLibrarySpans mkILS readSpan.

Definition readRS : heap → nat → option ResourceSpans :=
  readNode unResourceSpans mkRS readILS.

(** The tree observable through a [Traces] whose [orig] is the address
    [l]. *)
Definition readRequest : heap → nat → option ExportTraceServiceRequest :=
  readNode unRequest mkRequest readRS.

(** *** What is reachable through a pointer *)

Definition reachNode (un : cell → option (slice nat))
  (reach : heap → nat → gset nat) (h : heap) (l : nat) : gset nat :=
  {[ l ]} ∪
  match h !! l ≫= un with
  | Some s => ⋃ (reach h <$> elems s)
  | None => ∅
  end.

Definition reachSpan (h : heap) (l : nat) : gset nat := {[ l ]}.

Definition reachILS : heap → nat → gset nat :=
  reachNode unInstrumentationLibrarySpans reachSpan.

Definition reachRS : heap → nat → gset nat :=
  reachNode unResourceSpans reachILS.

Definition reachRequest : heap → nat → gset nat :=
  reachNode unRequest reachRS.

(** *** Copying *)

(** Modelled from the spec: the generated [CopyTo] methods of pdata, which
    are outside the files listed above: [CopyTo(dst)] is a deep,
    never-aliasing, element-wise copy. Every element of the source and
    everything below it is copied into newly allocated storage; a
    destination that is nil stays nil when the source has no elements. *)
Fixpoint copyList (copy : heap → nat → option (nat * heap)) (h : heap)
  (ls : list nat) : option (list nat * heap) :=
  match ls with
  | [] => Some ([], h)
  | l :: ls =>
      '(l', h) ← copy h l;
      '(ls', h) ← copyList copy h ls;
      Some (l' :: ls', h)
  end.

(** Modelled from the spec: [src.CopyTo(dst)] on slices, for a
    destination that is nil: what the destination holds afterwards. *)
Definition CopyTo (copy : heap → nat → option (nat * heap)) (h : heap)
  (src : slice nat) : option (slice nat * heap) :=
  match elems src with
  | [] => Some (None, h)
  | ls => '(ls', h) ← copyList copy h ls; Some (Some ls', h)
  end.

Definition copyNode (un : cell → option (slice nat)) (wrap : slice nat → cell)
  (copy : heap → nat → option (nat * heap)) (h : heap) (l : nat)
  : option (nat * heap) :=
  c ← h !! l; s ← un c;
  '(s', h) ← CopyTo copy h s;
  Some (alloc h (wrap s')).

Definition copySpan (h : heap) (l : nat) : option (nat * heap) :=
  span ← readSpan h l; Some (alloc h (CSpan span)).

Definition copyILS : heap → nat → option (nat * heap) :=
  copyNode unInstrumentationLibrarySpans CInstrumentationLibrarySpans copySpan.

Definition copyRS : heap → nat → option (nat * heap) :=
  copyNode unResourceSpans CResourceSpans copyILS.

(** [NewTraces()]: a fresh, empty request. *)
Definition NewTraces (h : heap) : nat * heap := alloc h (CRequest None).

(** [td.Clone()], for a [Traces] whose [orig] is the address [td]: the
    address of the clone and the memory afterwards. *)
Definition Clone (h : heap) (td : nat) : option (nat * heap) :=
  let '(cloneTd, h) := NewTraces h in
  c ← h !! td; src ← unRequest c;
  '(dst, h) ← CopyTo copyRS h src;
  Some (cloneTd, <[cloneTd := CRequest dst]> h).

(** What the proofs below need of a kind of message: reading it depends
    on the cells reachable from it only, these cells are allocated, and a
    copy is a readable, normalised duplicate in fresh storage. *)
Definition stable {A} (read : heap → nat → option A)
  (reach : heap → nat → gset nat) : Prop :=
  ∀ h h' l v, read h l = Some v →
    (∀ x, x ∈ reach h l → h' !! x = h !! x) →
    read h' l = Some v ∧ reach h' l = reach h l.

Definition allocated {A} (read : heap → nat → option A)
  (reach : heap → nat → gset nat) : Prop :=
  ∀ h l v, read h l = Some v → reach h l ⊆ dom h.

Definition copies {A} (read : heap → nat → option A)
  (reach : heap → nat → gset nat)
  (copy : heap → nat → option (nat * heap)) (norm : A → A) : Prop :=
  ∀ h l v, read h l = Some v →
    ∃ l' h', copy h l = Some (l', h') ∧ h ⊆ h' ∧
      read h' l' = Some (norm v) ∧ reach h' l' ## dom h.

(** Sample data: a tree of one span, with the request at address 3. *)
Definition sampleHeap : heap :=
  {[ 0%nat := CSpan (mkSpan "s" 1 (mkStatus 0 "" 0));
     1%nat := CInstrumentationLibrarySpans (Some [0%nat]);
     2%nat := CResourceSpans (Some [1%nat]);
     3%nat := CRequest (Some [2%nat]) ]}.

End store.

(** ** Reading a tree *)

Module tree.
Import otlptrace otlpcollectortrace.

(** The span at position [k] of group [j] of resource [i]. *)
Definition spanAt (req : ExportTraceServiceRequest) (i j k : nat) : option Span :=
  rs ← elems (ResourceSpans_ req) !! i;
  ils ← elems (InstrumentationLibrarySpans_ rs) !! j;
  elems (Spans ils) !! k.

(** The span count in the words of the specification: the sum, over every
    ResourceSpans element and every InstrumentationLibrarySpans element
    within it, of the length of its Spans sequence. *)
Definition spanTotal (req : ExportTraceServiceRequest) : nat :=
  sum_list_with (λ rs,
    sum_list_with (λ ils, length (elems (Spans ils)))
      (elems (InstrumentationLibrarySpans_ rs)))
    (elems (ResourceSpans_ req)).

(** Sample data: a status, a span carrying it, and a request with one
    resource holding one group of the given spans. *)
Definition sampleStatus (dep code : Z) : Status := mkStatus dep "" code.
Definition sampleSpan (dep code : Z) : Span := mkSpan "s" 1 (sampleStatus dep code).
Definition sampleRequest (spans : list Span) : ExportTraceServiceRequest :=
  mkRequest (Some [mkRS (Some [mkILS (Some spans)])]).

(** Two spans with the current code UNSET, the first with the deprecated
    code UNKNOWN_ERROR, the second with the deprecated code OK. *)
Definition sampleUnset : ExportTraceServiceRequest :=
  sampleRequest [sampleSpan 2 0; sampleSpan 0 0].

(** Two resources, each with one group of three spans. *)
Definition sampleTwoByThree : ExportTraceServiceRequest :=
  mkRequest (Some [
    mkRS (Some [mkILS (Some (replicate 3 (sampleSpan 0 0)))]);
    mkRS (Some [mkILS (Some (replicate 3 (sampleSpan 0 1)))])]).

(** A request whose top-level sequence is empty but present. *)
Definition sampleEmptyPresent : ExportTraceServiceRequest := mkRequest (Some []).

(** A request with two resources and no empty sequence. *)
Definition sampleWire : ExportTraceServiceRequest :=
  mkRequest (Some [
    mkRS (Some [mkILS (Some [mkSpan "ab" 3 (mkStatus 2 "boom" (-1));
                             mkSpan "" 0 (mkStatus 0 "" 0)])]);
    mkRS None]).

(** One complete, empty ResourceSpans field followed by a field whose
    announced length of five bytes runs past the end of the input. *)
Definition sampleTruncated : list byte := [x0a; x00; x0a; x05].

End tree.

(** ** testbed/testbed/data_providers.go: identifiers *)

Module ids.

(** [binary.PutUvarint(buf, x)] of the Go standard library, for [x] a
    [uint64]: the base-128 varint of [x] is written over the first bytes of
    [buf], one byte a round, the byte [byte(x) | 0x80] while [x >= 0x80]
    and [byte(x)] at the end. Writing past the end of [buf] is an index out
    of range (a panic). The result is the buffer afterwards. *)
Fixpoint PutUvarint (buf : list byte) (x : Z) : option (list byte) :=
  match buf with
  | [] => None
  | _ :: rest =>
      if 128 <=? x then
        rest' ← PutUvarint rest (Z.shiftr x 7);
        Some (wire.byte_of_Z (Z.lor (Z.land x 255) 128) :: rest')
      else Some (wire.byte_of_Z x :: rest)
  end.

(** A [pdata.TraceID] holds 16 bytes, a [pdata.SpanID] 8; [var traceID
    [16]byte] starts as zeros. *)
Definition GenerateSequentialTraceID (id : Z) : option (list byte) :=
  PutUvarint (replicate 16 x00) id.

Definition GenerateSequentialSpanID (id : Z) : option (list byte) :=
  PutUvarint (replicate 8 x00) id.

End ids.

(** ** testbed/testbed/data_providers.go: the golden data provider *)

Module golden.
Import otlptrace otlpcollectortrace.

(** [c.Add(delta)] of [atomic.Uint64]: one indivisible step that adds
    [delta] and returns the new value; a nil pointer is dereferenced. *)
Definition Add (c : option nat) (delta : Z) (w : testbed.world)
  : option (Z * testbed.world) :=
  l ← c;
  v ← testbed.counters w !! l;
  let v' := wrap_uint64 (v + delta) in
  Some (v', testbed.mkWorld (<[l := v']> (testbed.counters w)) (testbed.ticks w)).

(** [s[i]] for an [int] index: out of range is a panic. *)
Definition index {A} (s : slice A) (i : Z) : option A :=
  if i <? 0 then None else elems s !! Z.to_nat i.

Record GoldenDataProvider := mkGoldenDataProvider {
  tracePairsFile : string;
  spanPairsFile : string;
  batchesGenerated : option nat;
  dataItemsGenerated : option nat;
  tracesGenerated : slice pdata.Traces;
  tracesIndex : Z;
  spansMap : option (gmap string Span);
  metricPairsFile : string;
  metricsGenerated : slice pdata.Metrics;
  metricsIndex : Z
}.

Definition NewGoldenDataProvider (tracePairsFile spanPairsFile metricPairsFile : string)
  : GoldenDataProvider :=
  mkGoldenDataProvider tracePairsFile spanPairsFile None None None 0 None
    metricPairsFile None 0.

Definition SetLoadGeneratorCounters (dp : GoldenDataProvider)
  (batchesGenerated dataItemsGenerated : option nat) : GoldenDataProvider :=
  mkGoldenDataProvider (tracePairsFile dp) (spanPairsFile dp)
    batchesGenerated dataItemsGenerated (tracesGenerated dp) (tracesIndex dp)
    (spansMap dp) (metricPairsFile dp) (metricsGenerated dp) (metricsIndex dp).

(** Assignments to one field of [dp]. *)
Definition withTraces (dp : GoldenDataProvider) (traces : slice pdata.Traces)
  (i : Z) : GoldenDataProvider :=
  mkGoldenDataProvider (tracePairsFile dp) (spanPairsFile dp)
    (batchesGenerated dp) (dataItemsGenerated dp) traces i
    (spansMap dp) (metricPairsFile dp) (metricsGenerated dp) (metricsIndex dp).

Definition withMetrics (dp : GoldenDataProvider) (metrics : slice pdata.Metrics)
  (i : Z) : GoldenDataProvider :=
  mkGoldenDataProvider (tracePairsFile dp) (spanPairsFile dp)
    (batchesGenerated dp) (dataItemsGenerated dp) (tracesGenerated dp)
    (tracesIndex dp) (spansMap dp) (metricPairsFile dp) metrics i.

Definition withSpansMap (dp : GoldenDataProvider) (m : option (gmap string Span))
  : GoldenDataProvider :=
  mkGoldenDataProvider (tracePairsFile dp) (spanPairsFile dp)
    (batchesGenerated dp) (dataItemsGenerated dp) (tracesGenerated dp)
    (tracesIndex dp) m (metricPairsFile dp) (metricsGenerated dp)
    (metricsIndex dp).

Section Dataset.
(** The generators of package goldendataset, which read the pairs files:
    what they return for the given file names. *)
Variable goldenTraces : string → string → slice pdata.Traces * error.
Variable goldenMetrics : string → slice pdata.Metrics * error.
(** The key [traceIDAndSpanIDToString] builds from the identifiers of a
    stored span; the span record above does not carry the identifiers. *)
Variable spanKey : Span → string.

(** The result is the tree, the flag [done], and the provider and the
    counters afterwards. The message logged when the dataset cannot be
    generated is left out. *)
Definition GenerateTraces (dp : GoldenDataProvider) (w : testbed.world)
  : option (pdata.Traces * bool * GoldenDataProvider * testbed.world) :=
  let dp :=
    match tracesGenerated dp with
    | None =>
        let '(traces, err) := goldenTraces (tracePairsFile dp) (spanPairsFile dp) in
        match err with
        | Some _ => withTraces dp None (tracesIndex dp)
        | None => withTraces dp traces (tracesIndex dp)
        end
    | Some _ => dp
    end in
  '(_, w) ← testbed.Inc (batchesGenerated dp) w;
  if Z.of_nat (pdata.Len (tracesGenerated dp)) <=? tracesIndex dp then
    Some (pdata.NewTraces, true, dp, w)
  else
    td ← index (tracesGenerated dp) (tracesIndex dp);
    let dp := withTraces dp (tracesGenerated dp) (wrap_int (tracesIndex dp + 1)) in
    n ← pdata.SpanCount td;
    '(_, w) ← Add (dataItemsGenerated dp) (wrap_uint64 n) w;
    Some (td, false, dp, w).

Definition GenerateMetrics (dp : GoldenDataProvider) (w : testbed.world)
  : option (pdata.Metrics * bool * GoldenDataProvider * testbed.world) :=
  let dp :=
    match metricsGenerated dp with
    | None =>
        let '(metrics, _) := goldenMetrics (metricPairsFile dp) in
        withMetrics dp metrics (metricsIndex dp)
    | Some _ => dp
    end in
  '(_, w) ← testbed.Inc (batchesGenerated dp) w;
  if metricsIndex dp =? Z.of_nat (pdata.Len (metricsGenerated dp)) then
    Some (pdata.mkMetrics None, true, dp, w)
  else
    pdm ← index (metricsGenerated dp) (metricsIndex dp);
    let dp := withMetrics dp (metricsGenerated dp) (wrap_int (metricsIndex dp + 1)) in
    '(_, dpCount) ← pdata.MetricAndDataPointCount pdm;
    '(_, w) ← Add (dataItemsGenerated dp) (wrap_uint64 (Z.of_nat dpCount)) w;
    Some (pdm, false, dp, w).

(** The three nested [range] loops of [populateSpansMap]. *)
Definition populateSpansMap (resourceSpansList : list ResourceSpans)
  : gmap string Span :=
  foldl (λ spansMap resourceSpans,
    foldl (λ spansMap libSpans,
      foldl (λ spansMap span, <[spanKey span := span]> spansMap)
        spansMap (elems (Spans libSpans)))
      spansMap (elems (InstrumentationLibrarySpans_ resourceSpans)))
    ∅ resourceSpansList.

(** [GetGeneratedSpan], given the key of the identifiers asked for: the
    span found (nil when there is none) and the provider afterwards. *)
Definition GetGeneratedSpan (dp : GoldenDataProvider) (key : string)
  : option (option Span * GoldenDataProvider) :=
  dp ←
    match spansMap dp with
    | None =>
        resourceSpansList ←
          foldl (λ acc td,
            resourceSpansList ← acc;
            req ← pdata.orig td;
            Some (resourceSpansList ++ elems (ResourceSpans_ req)))
            (Some []) (elems (tracesGenerated dp));
        Some (withSpansMap dp (Some (populateSpansMap resourceSpansList)))
    | Some _ => Some dp
    end;
  spansMap ← spansMap dp;
  Some (spansMap !! key, dp).

(** A caller asking for [n] batches of traces, one after the other: what it
    gets, and the provider and the counters afterwards. *)
Fixpoint GenerateTracesN (n : nat) (dp : GoldenDataProvider) (w : testbed.world)
  : option (list (pdata.Traces * bool) * GoldenDataProvider * testbed.world) :=
  match n with
  | O => Some ([], dp, w)
  | S n =>
      '(td, done, dp, w) ← GenerateTraces dp w;
      '(outs, dp, w) ← GenerateTracesN n dp w;
      Some ((td, done) :: outs, dp, w)
  end.
End Dataset.

(** The spans of a list of resources, in the order the loops visit them. *)
Definition allSpans (resourceSpansList : list ResourceSpans) : list Span :=
  resourceSpansList ≫= (λ resourceSpans,
    elems (InstrumentationLibrarySpans_ resourceSpans) ≫= (λ libSpans,
      elems (Spans libSpans))).

(** Sample data: a dataset of two trees, with two spans and no span. *)
Definition sampleDataset : list pdata.Traces :=
  [pdata.mkTraces (Some tree.sampleUnset);
   pdata.mkTraces (Some (tree.sampleRequest []))].
Definition sampleProvider : GoldenDataProvider :=
  SetLoadGeneratorCounters (NewGoldenDataProvider "t" "s" "m")
    (Some 0%nat) (Some 1%nat).

(** One gauge with two data points. *)
Definition sampleMetrics : pdata.Metrics :=
  pdata.mkMetrics (Some (otlpmetrics.mkMetricsRequest (Some [
    otlpmetrics.mkRM (otlpmetrics.mkResource ∅) (Some [
      otlpmetrics.mkILM (Some [
        otlpmetrics.mkMetric "m" "" "1" (otlpmetrics.Metric_IntGauge (Some [
          otlpmetrics.mkIntDataPoint ∅ 0 0 5;
          otlpmetrics.mkIntDataPoint ∅ 0 0 6]))])])]))).

End golden.

(** * Properties *)

Import otlptrace otlpcollectortrace.

Lemma elems_slice_map {A} (f : A → A) (s : slice A) :
  elems (slice_map f s) = f <$> elems s.
Proof. by destruct s. Qed.

(** ** Status compatibility at the ingress boundary *)

Lemma spanAt_convertRequest req i j k :
  tree.spanAt (trace.convertRequest req) i j k
  = trace.convertSpan <$> tree.spanAt req i j k.
Proof.
  unfold tree.spanAt, trace.convertRequest; simpl.
  rewrite elems_slice_map, list_lookup_fmap.
  destruct (elems (ResourceSpans_ req) !! i) as [rs|]; simpl; [|done].
  rewrite elems_slice_map, list_lookup_fmap.
  destruct (elems (InstrumentationLibrarySpans_ rs) !! j) as [ils|]; simpl; [|done].
  by rewrite elems_slice_map, list_lookup_fmap.
Qed.

Lemma wrap_int_add_l a b : wrap_int (wrap_int a + b) = wrap_int (a + b).
Proof.
  unfold wrap_int.
  replace ((a + 2 ^ 63) mod 2 ^ 64 - 2 ^ 63 + b + 2 ^ 63)
    with ((a + 2 ^ 63) mod 2 ^ 64 + b) by lia.
  rewrite Zplus_mod_idemp_l. f_equal. f_equal. lia.
Qed.

Lemma wrap_int_small a : - 2 ^ 63 ≤ a < 2 ^ 63 → wrap_int a = a.
Proof. intros H. unfold wrap_int. rewrite Z.mod_small; lia. Qed.

(** The inner loop of [SpanCount] adds the lengths of the groups from
    index [j] on. *)
Lemma inner_loop_sum (ilss done_ : list InstrumentationLibrarySpans) acc :
  loop (length ilss) (length done_) (λ j spanCount,
      ils ← (done_ ++ ilss) !! j;
      Some (wrap_int (spanCount + Z.of_nat (pdata.Len (Spans ils)))))
    (wrap_int acc)
  = Some (wrap_int (acc + Z.of_nat
      (sum_list_with (λ ils, length (elems (Spans ils))) ilss))).
Proof.
  revert done_ acc. induction ilss as [|ils ilss IH]; intros done_ acc; simpl.
  - do 2 f_equal. lia.
  - rewrite lookup_app_r, Nat.sub_diag by lia. simpl.
    rewrite wrap_int_add_l.
    specialize (IH (done_ ++ [ils]) (acc + Z.of_nat (pdata.Len (Spans ils)))).
    rewrite length_app, Nat.add_1_r, <- app_assoc in IH. simpl in IH.
    rewrite IH. do 2 f_equal. unfold pdata.Len. lia.
Qed.

Lemma outer_loop_sum (rss : list ResourceSpans) (done_ : list ResourceSpans) acc :
  loop (length rss) (length done_) (λ i spanCount,
      rs ← (done_ ++ rss) !! i;
      let ilss := InstrumentationLibrarySpans_ rs in
      loop (pdata.Len ilss) 0 (λ j spanCount,
        ils ← pdata.At ilss j;
        Some (wrap_int (spanCount + Z.of_nat (pdata.Len (Spans ils)))))
        spanCount)
    (wrap_int acc)
  = Some (wrap_int (acc + Z.of_nat
      (sum_list_with (λ rs,
         sum_list_with (λ ils, length (elems (Spans ils)))
           (elems (InstrumentationLibrarySpans_ rs))) rss))).
Proof.
  revert done_ acc. induction rss as [|rs rss IH]; intros done_ acc; simpl.
  - do 2 f_equal. lia.
  - rewrite lookup_app_r, Nat.sub_diag by lia. simpl.
    pose proof (inner_loop_sum (elems (InstrumentationLibrarySpans_ rs)) [] acc) as Hin.
    simpl in Hin. unfold pdata.Len, pdata.At in *. cbv zeta. rewrite Hin. simpl.
    specialize (IH (done_ ++ [rs]) (acc + Z.of_nat
      (sum_list_with (λ ils, length (elems (Spans ils)))
         (elems (InstrumentationLibrarySpans_ rs))))).
    rewrite length_app, Nat.add_1_r, <- app_assoc in IH. simpl in IH.
    unfold pdata.Len, pdata.At in IH. rewrite IH. do 2 f_equal. lia.
Qed.

(** [SpanCount] never panics on a tree with a request, and returns the
    total of the specification reduced to Go's [int]. *)
Lemma SpanCount_wrap req :
  pdata.SpanCount (pdata.mkTraces (Some req))
  = Some (wrap_int (Z.of_nat (tree.spanTotal req))).
Proof.
  unfold pdata.SpanCount, pdata.ResourceSpans; simpl.
  pose proof (outer_loop_sum (elems (ResourceSpans_ req)) [] 0) as H.
  simpl in H. unfold pdata.Len at 1, pdata.At at 1.
  change 0 with (wrap_int 0) at 1. exact H.
Qed.

Lemma sum_list_with_fmap {A B} (g : A → B) (f : B → nat) (l : list A) :
  sum_list_with f (g <$> l) = sum_list_with (f ∘ g) l.
Proof. induction l as [|x l IH]; csimpl; [done|]. by rewrite IH. Qed.

Lemma sum_list_with_ext' {A} (f g : A → nat) (l : list A) :
  (∀ x, f x = g x) → sum_list_with f l = sum_list_with g l.
Proof. intros H. induction l as [|x l IH]; simpl; [done|]. by rewrite H, IH. Qed.

(** The conversion rewrites statuses only: no span is added or removed. *)
Lemma spanTotal_convertRequest req :
  tree.spanTotal (trace.convertRequest req) = tree.spanTotal req.
Proof.
  unfold tree.spanTotal, trace.convertRequest; cbn [ResourceSpans_].
  rewrite elems_slice_map, sum_list_with_fmap.
  apply sum_list_with_ext'. intros rs; cbn [compose InstrumentationLibrarySpans_].
  rewrite elems_slice_map, sum_list_with_fmap.
  apply sum_list_with_ext'. intros ils; cbn [compose Spans].
  by rewrite elems_slice_map, length_fmap.
Qed.

(** [Export] always returns: it hands the converted request to the next
    consumer unless the count of spans is zero. *)
Lemma Export_unfold ConsumeTraces req :
  trace.Export ConsumeTraces req =
    let td := pdata.TracesFromInternalRep (trace.convertRequest req) in
    if decide (wrap_int (Z.of_nat (tree.spanTotal req)) = 0) then
      Some (trace.mkOutcome (Some mkResponse, None) [])
    else
      match ConsumeTraces td with
      | Some e => Some (trace.mkOutcome (None, Some e) [td])
      | None => Some (trace.mkOutcome (Some mkResponse, None) [td])
      end.
Proof.
  unfold trace.Export, trace.sendToNextConsumer, pdata.TracesFromInternalRep.
  rewrite SpanCount_wrap, spanTotal_convertRequest. simpl.
  destruct (decide _); [done|]. simpl.
  by destruct (ConsumeTraces _).
Qed.

Lemma Export_consumed ConsumeTraces req out td :
  trace.Export ConsumeTraces req = Some out →
  td ∈ trace.consumed out →
  td = pdata.TracesFromInternalRep (trace.convertRequest req).
Proof.
  rewrite Export_unfold. cbv zeta.
  destruct (decide _).
  - intros [= <-]; simpl. by intros ?%elem_of_nil.
  - destruct (ConsumeTraces _); intros [= <-]; simpl;
      by intros ->%list_elem_of_singleton.
Qed.

(** C2: at the ingress boundary ([Export]), a span of the request whose
    current status code is UNSET keeps its deprecated code and gets the
    current code ERROR when the deprecated code is anything other than OK,
    and stays UNSET when the deprecated code is OK (the wire default, so
    also when it is unset). The request so rewritten is the tree every
    call of the next consumer receives, and [Export] returns. *)
Theorem ingress_recovers_unset_code ConsumeTraces req i j k span :
  tree.spanAt req i j k = Some span →
  Code (Status_ span) = Status_STATUS_CODE_UNSET →
  ∃ out span',
    trace.Export ConsumeTraces req = Some out ∧
    (∀ td, td ∈ trace.consumed out →
       pdata.orig td = Some (trace.convertRequest req)) ∧
    tree.spanAt (trace.convertRequest req) i j k = Some span' ∧
    DeprecatedCode (Status_ span') = DeprecatedCode (Status_ span) ∧
    Code (Status_ span') =
      (if decide (DeprecatedCode (Status_ span) = Status_DEPRECATED_STATUS_CODE_OK)
       then Status_STATUS_CODE_UNSET else Status_STATUS_CODE_ERROR).
Proof.
  intros Hat Hcode.
  assert (∃ out, trace.Export ConsumeTraces req = Some out) as [out Hout].
  { rewrite Export_unfold. cbv zeta. destruct (decide _); [eauto|].
    destruct (ConsumeTraces _); eauto. }
  exists out, (trace.convertSpan span). split; [done|]. split.
  { intros td Htd. by rewrite (Export_consumed _ _ _ _ Hout Htd). }
  rewrite spanAt_convertRequest, Hat. split; [done|].
  unfold trace.convertSpan, trace.convertStatus; simpl.
  rewrite Hcode. rewrite decide_True by done.
  destruct (decide (DeprecatedCode (Status_ span) = _)) as [Heq|Hne].
  - rewrite decide_False by (intros H; by apply H). done.
  - rewrite decide_True by done. done.
Qed.

Lemma ingress_recovers_unset_code_witness :
  ∃ out span',
    trace.Export (λ _, None) tree.sampleUnset = Some out ∧
    (∀ td, td ∈ trace.consumed out →
       pdata.orig td = Some (trace.convertRequest tree.sampleUnset)) ∧
    tree.spanAt (trace.convertRequest tree.sampleUnset) 0 0 0 = Some span' ∧
    DeprecatedCode (Status_ span') = 2 ∧
    Code (Status_ span') = Status_STATUS_CODE_ERROR.
Proof.
  exact (ingress_recovers_unset_code (λ _, None)
           tree.sampleUnset 0 0 0 (tree.sampleSpan 2 0)
           eq_refl eq_refl).
Defined.

(** ** Setting the status code *)

Lemma SetCode_fields ms v :
  Code (pdata.SetCode ms v) = v ∧
  Message (pdata.SetCode ms v) = Message ms ∧
  DeprecatedCode (pdata.SetCode ms v) =
    (if decide (v = pdata.StatusCodeUnset ∨ v = pdata.StatusCodeOk)
     then Status_DEPRECATED_STATUS_CODE_OK
     else if decide (v = pdata.StatusCodeError)
     then Status_DEPRECATED_STATUS_CODE_UNKNOWN_ERROR
     else DeprecatedCode ms).
Proof.
  unfold pdata.SetCode. cbv zeta.
  destruct (decide (v = pdata.StatusCodeUnset ∨ v = pdata.StatusCodeOk));
    [done|].
  by destruct (decide (v = pdata.StatusCodeError)).
Qed.

(** C3: whenever the current status code is explicitly set, the deprecated
    code is overwritten consistently. After [SetCode v] the current code is
    [v], and the deprecated code is OK when [v] is Unset or Ok and
    UNKNOWN_ERROR when [v] is Error. At ingress, a span of the request
    whose current code is OK leaves the conversion with deprecated code OK,
    and one whose current code is ERROR with UNKNOWN_ERROR; the current
    code is kept. *)
Theorem explicit_code_overwrites_deprecated ms v req i j k span :
  tree.spanAt req i j k = Some span →
  (Code (pdata.SetCode ms v) = v ∧
   (v = pdata.StatusCodeUnset ∨ v = pdata.StatusCodeOk →
      DeprecatedCode (pdata.SetCode ms v) = Status_DEPRECATED_STATUS_CODE_OK) ∧
   (v = pdata.StatusCodeError →
      DeprecatedCode (pdata.SetCode ms v)
      = Status_DEPRECATED_STATUS_CODE_UNKNOWN_ERROR)) ∧
  ∃ span',
    tree.spanAt (trace.convertRequest req) i j k = Some span' ∧
    (Code (Status_ span) = Status_STATUS_CODE_OK →
       Code (Status_ span') = Status_STATUS_CODE_OK ∧
       DeprecatedCode (Status_ span') = Status_DEPRECATED_STATUS_CODE_OK) ∧
    (Code (Status_ span) = Status_STATUS_CODE_ERROR →
       Code (Status_ span') = Status_STATUS_CODE_ERROR ∧
       DeprecatedCode (Status_ span')
       = Status_DEPRECATED_STATUS_CODE_UNKNOWN_ERROR).
Proof.
  intros Hat. split.
  - destruct (SetCode_fields ms v) as (Hc & _ & Hd). split; [done|]. split.
    + intros Hv. by rewrite Hd, decide_True.
    + intros ->. rewrite Hd. by rewrite decide_False, decide_True
        by (try done; intros [|]; discriminate).
  - exists (trace.convertSpan span). rewrite spanAt_convertRequest, Hat.
    split; [done|].
    unfold trace.convertSpan, trace.convertStatus; simpl. split; intros Hc.
    + rewrite Hc. rewrite decide_False by discriminate.
      by rewrite decide_True.
    + rewrite Hc. do 2 rewrite decide_False by discriminate.
      by rewrite decide_True.
Qed.

Lemma explicit_code_overwrites_deprecated_witness :
  (Code (pdata.SetCode (tree.sampleStatus 0 0) 2) = 2 ∧
   (2 = pdata.StatusCodeUnset ∨ 2 = pdata.StatusCodeOk →
      DeprecatedCode (pdata.SetCode (tree.sampleStatus 0 0) 2)
      = Status_DEPRECATED_STATUS_CODE_OK) ∧
   (2 = pdata.StatusCodeError →
      DeprecatedCode (pdata.SetCode (tree.sampleStatus 0 0) 2)
      = Status_DEPRECATED_STATUS_CODE_UNKNOWN_ERROR)) ∧
  ∃ span',
    tree.spanAt (trace.convertRequest
      (tree.sampleRequest [tree.sampleSpan 5 1; tree.sampleSpan 0 2])) 0 0 1
    = Some span' ∧
    (Code (Status_ (tree.sampleSpan 0 2)) = Status_STATUS_CODE_OK →
       Code (Status_ span') = Status_STATUS_CODE_OK ∧
       DeprecatedCode (Status_ span') = Status_DEPRECATED_STATUS_CODE_OK) ∧
    (Code (Status_ (tree.sampleSpan 0 2)) = Status_STATUS_CODE_ERROR →
       Code (Status_ span') = Status_STATUS_CODE_ERROR ∧
       DeprecatedCode (Status_ span')
       = Status_DEPRECATED_STATUS_CODE_UNKNOWN_ERROR).
Proof.
  exact (explicit_code_overwrites_deprecated (tree.sampleStatus 0 0) 2
           (tree.sampleRequest [tree.sampleSpan 5 1; tree.sampleSpan 0 2])
           0 0 1 (tree.sampleSpan 0 2) eq_refl).
Defined.

(** C4, as stated, fails: [SetCode] rewrites the deprecated code. On a
    status with current code UNSET and deprecated code OK, [SetCode(Error)]
    leaves the deprecated code UNKNOWN_ERROR. *)
Lemma SetCode_rewrites_deprecated_code :
  DeprecatedCode (pdata.SetCode (mkStatus Status_DEPRECATED_STATUS_CODE_OK ""
                                   Status_STATUS_CODE_UNSET)
                    pdata.StatusCodeError)
  ≠ DeprecatedCode (mkStatus Status_DEPRECATED_STATUS_CODE_OK ""
                      Status_STATUS_CODE_UNSET).
Proof. vm_compute. discriminate. Qed.

(** C4, amended: the deprecated code is rewritten at the ingress boundary
    and again by every [SetCode] with one of the three defined codes. For
    every status and every code [v], [SetCode v] changes the current code
    and the deprecated code only (the message is kept); the deprecated code
    becomes OK for Unset and Ok, UNKNOWN_ERROR for Error, and is left as it
    was for any other [v]. *)
Theorem SetCode_frame ms v :
  Message (pdata.SetCode ms v) = Message ms ∧
  Code (pdata.SetCode ms v) = v ∧
  DeprecatedCode (pdata.SetCode ms v) =
    (if decide (v = pdata.StatusCodeUnset ∨ v = pdata.StatusCodeOk)
     then Status_DEPRECATED_STATUS_CODE_OK
     else if decide (v = pdata.StatusCodeError)
     then Status_DEPRECATED_STATUS_CODE_UNKNOWN_ERROR
     else DeprecatedCode ms).
Proof. destruct (SetCode_fields ms v) as (? & ? & ?). done. Qed.

(** ** Counting spans *)

(** C6: [SpanCount] of a tree equals the sum, over every ResourceSpans
    element and every InstrumentationLibrarySpans element within it, of
    the length of its Spans sequence, for every tree whose total fits Go's
    [int]. The count is a function of the tree alone ([Traces] has no field
    to cache it in): it is recomputed by the two nested loops on each
    call. In particular a tree with 2 ResourceSpans, each containing 1
    instrumentation-library group of 3 spans, has span count 6. *)
Theorem SpanCount_is_sum req :
  (Z.of_nat (tree.spanTotal req) < 2 ^ 63 →
   pdata.SpanCount (pdata.mkTraces (Some req))
   = Some (Z.of_nat (tree.spanTotal req))) ∧
  (∀ rs1 rs2 ils1 ils2,
     elems (ResourceSpans_ req) = [rs1; rs2] →
     elems (InstrumentationLibrarySpans_ rs1) = [ils1] →
     elems (InstrumentationLibrarySpans_ rs2) = [ils2] →
     length (elems (Spans ils1)) = 3%nat →
     length (elems (Spans ils2)) = 3%nat →
     pdata.SpanCount (pdata.mkTraces (Some req)) = Some 6).
Proof.
  split.
  - intros H. rewrite SpanCount_wrap, wrap_int_small; [done|lia].
  - intros rs1 rs2 ils1 ils2 Hrs H1 H2 Hl1 Hl2.
    rewrite SpanCount_wrap. unfold tree.spanTotal.
    rewrite Hrs; simpl. rewrite H1, H2; simpl. rewrite Hl1, Hl2. done.
Qed.

Lemma SpanCount_is_sum_witness :
  pdata.SpanCount (pdata.mkTraces (Some tree.sampleTwoByThree))
  = Some (Z.of_nat (tree.spanTotal tree.sampleTwoByThree)) ∧
  pdata.SpanCount (pdata.mkTraces (Some tree.sampleTwoByThree)) = Some 6.
Proof.
  split.
  - apply (proj1 (SpanCount_is_sum tree.sampleTwoByThree)). vm_compute. done.
  - apply (proj2 (SpanCount_is_sum tree.sampleTwoByThree)
             (mkRS (Some [mkILS (Some (replicate 3 (tree.sampleSpan 0 0)))]))
             (mkRS (Some [mkILS (Some (replicate 3 (tree.sampleSpan 0 1)))]))
             (mkILS (Some (replicate 3 (tree.sampleSpan 0 0))))
             (mkILS (Some (replicate 3 (tree.sampleSpan 0 1)))));
      reflexivity.
Defined.

(** ** Empty batches *)

(** C9: for a request whose total span count is zero, [Export] does not
    call the next consumer's [ConsumeTraces] and returns a non-nil empty
    response with a nil error. *)
Theorem Export_empty_batch ConsumeTraces req :
  tree.spanTotal req = 0%nat →
  trace.Export ConsumeTraces req
  = Some (trace.mkOutcome (Some mkResponse, None) []).
Proof.
  intros H. rewrite Export_unfold. cbv zeta. rewrite H.
  by rewrite decide_True.
Qed.

Lemma Export_empty_batch_witness :
  trace.Export (λ _, Some "refused"%string) (tree.sampleRequest [])
  = Some (trace.mkOutcome (Some mkResponse, None) []).
Proof.
  apply (Export_empty_batch (λ _, Some "refused"%string) (tree.sampleRequest [])).
  reflexivity.
Defined.

(** ** The wire format: bytes and varints *)

Lemma Z_of_byte_range b : 0 ≤ wire.Z_of_byte b < 256.
Proof.
  unfold wire.Z_of_byte. pose proof (Byte.to_N_bounded b). lia.
Qed.

Lemma Z_of_byte_of_Z z : 0 ≤ z < 256 → wire.Z_of_byte (wire.byte_of_Z z) = z.
Proof.
  intros Hz. unfold wire.Z_of_byte, wire.byte_of_Z.
  rewrite Z.mod_small by done.
  destruct (Byte.of_N (Z.to_N z)) as [b|] eqn:Hb; simpl.
  - apply Byte.to_of_N in Hb. rewrite Hb. lia.
  - apply Byte.of_N_None_iff in Hb. lia.
Qed.

Lemma land_disjoint_shift a c s :
  0 ≤ s → 0 ≤ a < 2 ^ s → Z.land a (c * 2 ^ s) = 0.
Proof.
  intros Hs Ha. apply Z.bits_inj'. intros i Hi.
  rewrite Z.land_spec, Z.bits_0.
  destruct (Z.lt_ge_cases i s) as [Hlt|Hge].
  - rewrite Z.mul_pow2_bits_low by done. apply andb_false_r.
  - rewrite <- (Z.mod_small a (2 ^ s)) by done.
    rewrite Z.mod_pow2_bits_high by lia. done.
Qed.

Lemma lor_disjoint_shift a c s :
  0 ≤ s → 0 ≤ a < 2 ^ s → Z.lor a (c * 2 ^ s) = a + c * 2 ^ s.
Proof.
  intros Hs Ha. rewrite <- Z.add_lor_land.
  rewrite land_disjoint_shift by done. lia.
Qed.

Lemma land_127 x : Z.land x 127 = x mod 128.
Proof. change 127 with (Z.ones 7). by rewrite Z.land_ones. Qed.

Lemma continuation_byte v :
  Z.lor (Z.land v 127) 128 = v mod 128 + 128.
Proof.
  rewrite land_127.
  apply (lor_disjoint_shift (v mod 128) 1 7); [lia|].
  apply Z.mod_pos_bound. lia.
Qed.

Lemma decode_encode_loop n : ∀ v s acc rest m,
  0 ≤ s → 0 ≤ acc < 2 ^ s → 0 ≤ v < 2 ^ (7 * (Z.of_nat n + 1)) →
  acc + v * 2 ^ s < 2 ^ 64 → (n < m)%nat →
  wire.decodeVarint_loop m s acc (wire.encodeVarint_loop n v ++ rest)
  = wire.Ok (acc + v * 2 ^ s, rest).
Proof.
  assert (Hlast : ∀ v s acc rest m,
    0 ≤ s → 0 ≤ acc < 2 ^ s → 0 ≤ v < 128 → acc + v * 2 ^ s < 2 ^ 64 →
    wire.decodeVarint_loop (S m) s acc (wire.byte_of_Z v :: rest)
    = wire.Ok (acc + v * 2 ^ s, rest)).
  { intros v s acc rest m Hs Hacc Hv Hsum. simpl.
    rewrite Z_of_byte_of_Z by lia.
    rewrite land_127, Z.mod_small by lia.
    rewrite Z.shiftl_mul_pow2 by lia.
    unfold wrap_uint64. rewrite Z.mod_small by nia.
    rewrite lor_disjoint_shift by lia.
    destruct (Z.ltb_spec v 128); [done|lia]. }
  induction n as [|n IH]; intros v s acc rest m Hs Hacc Hv Hsum Hm.
  - destruct m as [|m]; [lia|]. simpl wire.encodeVarint_loop.
    apply Hlast; first [done | simpl in Hv; lia].
  - destruct m as [|m]; [lia|]. simpl wire.encodeVarint_loop.
    destruct (Z.leb_spec 128 v) as [Hge|Hlt]; [|by apply Hlast; try done; lia].
    rewrite continuation_byte.
    pose proof (Z.mod_pos_bound v 128 ltac:(lia)) as Hmod.
    pose proof (Z.div_mod v 128 ltac:(lia)) as Hdiv.
    assert (0 < 2 ^ s) by (apply Z.pow_pos_nonneg; lia).
    assert (Hchunk : 0 ≤ v mod 128 * 2 ^ s ≤ v * 2 ^ s).
    { split; [nia|]. apply Z.mul_le_mono_nonneg_r; lia. }
    assert (Hpow : 2 ^ (s + 7) = 2 ^ s * 128).
    { rewrite Z.pow_add_r by lia. done. }
    assert (Hn : 2 ^ (7 * (Z.of_nat (S n) + 1)) = 128 * 2 ^ (7 * (Z.of_nat n + 1))).
    { replace (7 * (Z.of_nat (S n) + 1)) with (7 + 7 * (Z.of_nat n + 1)) by lia.
      rewrite Z.pow_add_r by lia. done. }
    cbn [wire.decodeVarint_loop app]. rewrite Z_of_byte_of_Z by lia.
    rewrite land_127.
    replace ((v mod 128 + 128) mod 128) with (v mod 128)
      by (rewrite <- Zplus_mod_idemp_r; rewrite Z.mod_same, Z.add_0_r by lia;
          by rewrite Z.mod_mod by lia).
    rewrite Z.shiftl_mul_pow2 by lia.
    unfold wrap_uint64. rewrite (Z.mod_small (v mod 128 * 2 ^ s)) by lia.
    rewrite lor_disjoint_shift by lia.
    destruct (Z.ltb_spec (v mod 128 + 128) 128); [lia|].
    rewrite Z.shiftr_div_pow2 by lia. change (2 ^ 7) with 128.
    assert (Hq : 0 ≤ v / 128 < 2 ^ (7 * (Z.of_nat n + 1))).
    { split; [apply Z.div_pos; lia|]. apply Z.div_lt_upper_bound; lia. }
    rewrite IH; try lia.
    + do 2 f_equal. rewrite Hpow. nia.
    + rewrite Hpow. nia.
Qed.

(** Reading back a varint gives the number and the bytes after it. *)
Lemma decodeVarint_encodeVarint v rest :
  0 ≤ v < 2 ^ 64 →
  wire.decodeVarint (wire.encodeVarint v ++ rest) = wire.Ok (v, rest).
Proof.
  intros Hv. unfold wire.decodeVarint, wire.encodeVarint.
  rewrite (decode_encode_loop 9 v 0 0 rest 10); try (simpl; lia).
  do 2 f_equal. lia.
Qed.

Lemma wrap_int32_uint64 v : wire.int32 v → wire.wrap_int32 (wrap_uint64 v) = v.
Proof.
  unfold wire.int32, wire.wrap_int32, wrap_uint64. intros Hv.
  replace (v mod 2 ^ 64 + 2 ^ 31) with (v + 2 ^ 31 + (- (v / 2 ^ 64)) * 2 ^ 64)
    by (pose proof (Z.div_mod v (2 ^ 64) ltac:(lia)); lia).
  replace (2 ^ 64) with (2 ^ 32 * 2 ^ 32) at 2 by done.
  rewrite Z.mul_assoc, Z_mod_plus_full, Z.mod_small; lia.
Qed.

Lemma wrap_uint64_range v : 0 ≤ wrap_uint64 v < 2 ^ 64.
Proof. unfold wrap_uint64. apply Z.mod_pos_bound. lia. Qed.

Lemma readEnum_encodeVarint v rest :
  wire.int32 v →
  wire.readEnum 0 (wire.encodeVarint (wrap_uint64 v) ++ rest) = wire.Ok (v, rest).
Proof.
  intros Hv. unfold wire.readEnum. simpl.
  rewrite decodeVarint_encodeVarint by apply wrap_uint64_range.
  by rewrite wrap_int32_uint64.
Qed.

(** A payload shorter than 2^63 bytes is read back whole. *)
Lemma readBytes_encodeBytes payload rest :
  wire.fits payload →
  wire.readBytes (wire.encodeBytes payload ++ rest) = wire.Ok (payload, rest).
Proof.
  unfold wire.fits, wire.readBytes, wire.encodeBytes. intros Hlen.
  rewrite <- app_assoc.
  unfold wrap_uint64 at 1. rewrite Z.mod_small by lia.
  rewrite decodeVarint_encodeVarint by lia.
  rewrite wrap_int_small by lia.
  destruct (Z.ltb_spec (Z.of_nat (length payload)) 0); [lia|].
  rewrite length_app.
  destruct (Z.ltb_spec (Z.of_nat (length payload + length rest))
              (Z.of_nat (length payload))); [lia|].
  rewrite Nat2Z.id. by rewrite take_app_length, drop_app_length.
Qed.

Lemma readPayload_encodeBytes payload rest :
  wire.fits payload →
  wire.readPayload 2 (wire.encodeBytes payload ++ rest)
  = wire.Ok (payload, rest).
Proof. intros H. unfold wire.readPayload. simpl. by apply readBytes_encodeBytes. Qed.

Lemma length_encodeBytes payload :
  (length payload ≤ length (wire.encodeBytes payload))%nat.
Proof. unfold wire.encodeBytes. rewrite length_app. lia. Qed.

(** ** The decoding loop *)

Section Loop.
Context {M : Type} (field : Z → Z → list byte → M → M * wire.result (list byte)).

Lemma unmarshalLoop_mono f : ∀ data m r f',
  wire.unmarshalLoop field f data m = Some r → (f ≤ f')%nat →
  wire.unmarshalLoop field f' data m = Some r.
Proof.
  induction f as [|f IH]; intros data m r f' Hrun Hle.
  - destruct data; [|done]. by destruct f'.
  - destruct f' as [|f']; [lia|]. destruct data as [|b data]; [done|].
    cbn [wire.unmarshalLoop] in *.
    destruct (wire.decodeVarint (b :: data)) as [[wire_ rest]|e]; [|done].
    destruct (Z.land wire_ 7 =? 4); [done|].
    destruct (wire.wrap_int32 (wire_ ≫ 3) <=? 0); [done|].
    destruct (field _ _ rest m) as [m' [rest'|e]]; [|done].
    apply IH; [done|lia].
Qed.

#[local] Abbreviation decodes := (wire.decodes field).

Lemma decodes_nil m : decodes [] m (m, None).
Proof. exists 0%nat. by split. Qed.

Lemma decodes_unmarshal data m r :
  decodes data m r → wire.unmarshal field data m = r.
Proof.
  intros (f & Hle & Hrun). unfold wire.unmarshal.
  by rewrite (unmarshalLoop_mono _ _ _ _ _ Hrun Hle).
Qed.

(** One round: a one-byte tag, then the value of the field. *)
Lemma decodes_field tag data m m' rest r :
  wire.Z_of_byte tag < 128 →
  Z.land (wire.Z_of_byte tag) 7 ≠ 4 →
  0 < wire.wrap_int32 (wire.Z_of_byte tag ≫ 3) →
  field (wire.wrap_int32 (wire.Z_of_byte tag ≫ 3))
        (Z.land (wire.Z_of_byte tag) 7) data m = (m', wire.Ok rest) →
  (length rest ≤ length data)%nat →
  decodes rest m' r →
  decodes (tag :: data) m r.
Proof.
  intros Hlt Hwt Hfn Hfield Hlen (f & Hle & Hrun).
  exists (S f). split; [simpl; lia|].
  cbn [wire.unmarshalLoop].
  assert (wire.decodeVarint (tag :: data) = wire.Ok (wire.Z_of_byte tag, data))
    as ->.
  { unfold wire.decodeVarint. cbn [wire.decodeVarint_loop].
    pose proof (Z_of_byte_range tag).
    rewrite land_127, Z.mod_small, Z.shiftl_0_r by lia.
    unfold wrap_uint64. rewrite Z.mod_small by lia. simpl.
    destruct (Z.ltb_spec (wire.Z_of_byte tag) 128); [done|lia]. }
  cbv zeta.
  destruct (Z.eqb_spec (Z.land (wire.Z_of_byte tag) 7) 4); [done|].
  destruct (Z.leb_spec (wire.wrap_int32 (wire.Z_of_byte tag ≫ 3)) 0); [lia|].
  by rewrite Hfield.
Qed.
End Loop.

(** ** Round trip of the messages *)

#[local] Arguments wire.encodeVarint : simpl never.
#[local] Arguments wire.decodeVarint : simpl never.
#[local] Arguments wire.encodeBytes : simpl never.
#[local] Arguments wire.readBytes : simpl never.
#[local] Arguments wrap_uint64 : simpl never.
#[local] Arguments wire.wrap_int32 : simpl never.

Lemma list_byte_of_string_empty s :
  String.list_byte_of_string s = [] → s = "".
Proof.
  intros H. rewrite <- (String.string_of_list_byte_of_string s). by rewrite H.
Qed.

(** The three fields of a status, each written or left out. *)
Lemma decodes_status_deprecated v m rest r :
  wire.int32 v →
  DeprecatedCode m = 0 →
  wire.decodes wire.fieldStatus rest (mkStatus v (Message m) (Code m)) r →
  wire.decodes wire.fieldStatus
    ((if v =? 0 then [] else x08 :: wire.encodeVarint (wrap_uint64 v)) ++ rest)
    m r.
Proof.
  intros Hv Hm Hrest. destruct (Z.eqb_spec v 0) as [->|Hne].
  - destruct m; simpl in *. by subst.
  - cbn [app].
    apply (decodes_field _ x08 _ m _ rest r) with (6 := Hrest); try done.
    + change (wire.wrap_int32 (wire.Z_of_byte x08 ≫ 3)) with 1.
      change (Z.land (wire.Z_of_byte x08) 7) with 0.
      unfold wire.fieldStatus. cbn [Z.eqb Pos.eqb].
      by rewrite readEnum_encodeVarint.
    + rewrite length_app. lia.
Qed.

Lemma decodes_status_message msg m rest r :
  wire.fits (String.list_byte_of_string msg) →
  Message m = "" →
  wire.decodes wire.fieldStatus rest (mkStatus (DeprecatedCode m) msg (Code m)) r →
  wire.decodes wire.fieldStatus
    ((if decide (msg = "") then []
      else x12 :: wire.encodeBytes (String.list_byte_of_string msg)) ++ rest)
    m r.
Proof.
  intros Hfit Hm Hrest. destruct (decide (msg = "")) as [->|Hne].
  - destruct m; simpl in *. by subst.
  - cbn [app].
    apply (decodes_field _ x12 _ m _ rest r) with (6 := Hrest); try done.
    + change (wire.wrap_int32 (wire.Z_of_byte x12 ≫ 3)) with 2.
      change (Z.land (wire.Z_of_byte x12) 7) with 2.
      unfold wire.fieldStatus. cbn [Z.eqb Pos.eqb].
      rewrite readPayload_encodeBytes by done.
      by rewrite String.string_of_list_byte_of_string.
    + pose proof (length_encodeBytes (String.list_byte_of_string msg)).
      rewrite length_app. lia.
Qed.

Lemma decodes_status_code v m rest r :
  wire.int32 v →
  Code m = 0 →
  wire.decodes wire.fieldStatus rest (mkStatus (DeprecatedCode m) (Message m) v) r →
  wire.decodes wire.fieldStatus
    ((if v =? 0 then [] else x18 :: wire.encodeVarint (wrap_uint64 v)) ++ rest)
    m r.
Proof.
  intros Hv Hm Hrest. destruct (Z.eqb_spec v 0) as [->|Hne].
  - destruct m; simpl in *. by subst.
  - cbn [app].
    apply (decodes_field _ x18 _ m _ rest r) with (6 := Hrest); try done.
    + change (wire.wrap_int32 (wire.Z_of_byte x18 ≫ 3)) with 3.
      change (Z.land (wire.Z_of_byte x18) 7) with 0.
      unfold wire.fieldStatus. cbn [Z.eqb Pos.eqb].
      by rewrite readEnum_encodeVarint.
    + rewrite length_app. lia.
Qed.

Lemma fits_app_l a b : wire.fits (a ++ b) → wire.fits a.
Proof. unfold wire.fits. rewrite length_app. lia. Qed.

Lemma fits_app_r a b : wire.fits (a ++ b) → wire.fits b.
Proof. unfold wire.fits. rewrite length_app. lia. Qed.

Lemma fits_cons a b : wire.fits (a :: b) → wire.fits b.
Proof. unfold wire.fits. simpl. lia. Qed.

Lemma fits_encodeBytes p : wire.fits (wire.encodeBytes p) → wire.fits p.
Proof. unfold wire.encodeBytes. apply fits_app_r. Qed.

Lemma fits_tagged (c : bool) tag p :
  wire.fits (if c then [] else tag :: wire.encodeBytes p) → c = false →
  wire.fits p.
Proof. intros H ->. by apply fits_cons, fits_encodeBytes in H. Qed.

Lemma unmarshalStatus_marshalStatus st :
  wire.wfStatus st → wire.fits (wire.marshalStatus st) →
  wire.unmarshalStatus (wire.marshalStatus st) wire.zeroStatus = (st, None).
Proof.
  intros [Hd Hc] Hfit. apply decodes_unmarshal. unfold wire.marshalStatus in *.
  apply decodes_status_deprecated; [done..|]. simpl.
  apply fits_app_r in Hfit.
  apply decodes_status_message; [|done|].
  { apply fits_app_l in Hfit. destruct (decide (Message st = "")) as [->|Hne].
    - unfold wire.fits. simpl. lia.
    - by apply fits_cons, fits_encodeBytes in Hfit. }
  simpl. rewrite <- (app_nil_r (if Code st =? 0 then _ else _)).
  apply decodes_status_code; [done..|]. simpl.
  destruct st. apply decodes_nil.
Qed.

(** The fields of a span. *)
Lemma decodes_span_name name m rest r :
  wire.fits (String.list_byte_of_string name) →
  Name m = "" →
  wire.decodes wire.fieldSpan rest (mkSpan name (Kind m) (Status_ m)) r →
  wire.decodes wire.fieldSpan
    ((if decide (name = "") then []
      else x2a :: wire.encodeBytes (String.list_byte_of_string name)) ++ rest)
    m r.
Proof.
  intros Hfit Hm Hrest. destruct (decide (name = "")) as [->|Hne].
  - destruct m; simpl in *. by subst.
  - cbn [app].
    apply (decodes_field _ x2a _ m _ rest r) with (6 := Hrest); try done.
    + change (wire.wrap_int32 (wire.Z_of_byte x2a ≫ 3)) with 5.
      change (Z.land (wire.Z_of_byte x2a) 7) with 2.
      unfold wire.fieldSpan. cbn [Z.eqb Pos.eqb].
      rewrite readPayload_encodeBytes by done.
      by rewrite String.string_of_list_byte_of_string.
    + pose proof (length_encodeBytes (String.list_byte_of_string name)).
      rewrite length_app. lia.
Qed.

Lemma decodes_span_kind v m rest r :
  wire.int32 v →
  Kind m = 0 →
  wire.decodes wire.fieldSpan rest (mkSpan (Name m) v (Status_ m)) r →
  wire.decodes wire.fieldSpan
    ((if v =? 0 then [] else x30 :: wire.encodeVarint (wrap_uint64 v)) ++ rest)
    m r.
Proof.
  intros Hv Hm Hrest. destruct (Z.eqb_spec v 0) as [->|Hne].
  - destruct m; simpl in *. by subst.
  - cbn [app].
    apply (decodes_field _ x30 _ m _ rest r) with (6 := Hrest); try done.
    + change (wire.wrap_int32 (wire.Z_of_byte x30 ≫ 3)) with 6.
      change (Z.land (wire.Z_of_byte x30) 7) with 0.
      unfold wire.fieldSpan. cbn [Z.eqb Pos.eqb].
      by rewrite readEnum_encodeVarint.
    + rewrite length_app. lia.
Qed.

Lemma decodes_span_status st m rest r :
  wire.wfStatus st → wire.fits (wire.marshalStatus st) →
  Status_ m = wire.zeroStatus →
  wire.decodes wire.fieldSpan rest (mkSpan (Name m) (Kind m) st) r →
  wire.decodes wire.fieldSpan
    (x7a :: wire.encodeBytes (wire.marshalStatus st) ++ rest) m r.
Proof.
  intros Hwf Hfit Hm Hrest.
  apply (decodes_field _ x7a _ m _ rest r) with (6 := Hrest); try done.
  - change (wire.wrap_int32 (wire.Z_of_byte x7a ≫ 3)) with 15.
    change (Z.land (wire.Z_of_byte x7a) 7) with 2.
    unfold wire.fieldSpan. cbn [Z.eqb Pos.eqb].
    rewrite readPayload_encodeBytes by done.
    by rewrite Hm, unmarshalStatus_marshalStatus.
  - pose proof (length_encodeBytes (wire.marshalStatus st)).
    rewrite length_app. lia.
Qed.

Lemma fits_nil : wire.fits [].
Proof. unfold wire.fits. simpl. lia. Qed.

Lemma fits_field (c : bool) tag p :
  wire.fits (if c then [] else tag :: wire.encodeBytes p) →
  wire.fits (if c then [] else p).
Proof. destruct c; [done|]. intros H. by apply fits_cons, fits_encodeBytes in H. Qed.

Lemma unmarshalSpan_marshalSpan sp :
  wire.wfSpan sp → wire.fits (wire.marshalSpan sp) →
  wire.unmarshalSpan (wire.marshalSpan sp) wire.zeroSpan = (sp, None).
Proof.
  intros [Hk Hst] Hfit. apply decodes_unmarshal. unfold wire.marshalSpan in *.
  apply decodes_span_name; [|done|].
  { apply fits_app_l in Hfit. destruct (decide (Name sp = "")) as [->|Hne].
    - apply fits_nil.
    - by apply fits_cons, fits_encodeBytes in Hfit. }
  apply fits_app_r in Hfit.
  apply decodes_span_kind; [done..|].
  apply fits_app_r, fits_cons, fits_encodeBytes in Hfit.
  rewrite <- (app_nil_r (wire.encodeBytes _)).
  apply decodes_span_status; [done..|].
  destruct sp. apply decodes_nil.
Qed.

(** Repeated message fields. *)
Lemma foldl_append {A} (l : list A) : ∀ s : slice A,
  foldl wire.append s l = match l with [] => s | _ => Some (elems s ++ l) end.
Proof.
  induction l as [|x l IH]; intros s; [done|].
  cbn [foldl]. rewrite IH. unfold wire.append, elems. simpl.
  destruct l; [done|]. by rewrite <- app_assoc.
Qed.

Lemma foldl_append_absent {A} (norm : A → A) (s : slice A) :
  foldl wire.append None (norm <$> elems s)
  = wire.absentIfEmpty (slice_map norm s).
Proof.
  rewrite foldl_append. destruct s as [[|x l]|]; done.
Qed.

Section Repeated.
Context {M A : Type}.
Variable field : Z → Z → list byte → M → M * wire.result (list byte).
Variable tag : byte.
Variable get : M → slice A.
Variable set : slice A → M.
Variable marshalElem : A → list byte.
Variable unmarshalElem : list byte → A * error.
Variable norm : A → A.
Variable ok : A → Prop.
Hypothesis Htag : wire.Z_of_byte tag < 128.
Hypothesis Hwt : Z.land (wire.Z_of_byte tag) 7 = 2.
Hypothesis Hfn : 0 < wire.wrap_int32 (wire.Z_of_byte tag ≫ 3).
Hypothesis Hfield : ∀ data m,
  field (wire.wrap_int32 (wire.Z_of_byte tag ≫ 3)) 2 data m
  = let '(s, r) := wire.readRepeated unmarshalElem 2 data (get m) in (set s, r).
Hypothesis Hget : ∀ s, get (set s) = s.
Hypothesis Helem : ∀ x, ok x → wire.fits (marshalElem x) →
  unmarshalElem (marshalElem x) = (norm x, None).

Lemma decodes_repeated l : ∀ s rest r,
  Forall ok l →
  wire.fits (concat ((λ x, tag :: wire.encodeBytes (marshalElem x)) <$> l)) →
  wire.decodes field rest (set (foldl wire.append s (norm <$> l))) r →
  wire.decodes field
    (concat ((λ x, tag :: wire.encodeBytes (marshalElem x)) <$> l) ++ rest)
    (set s) r.
Proof.
  induction l as [|x l IH]; intros s rest r Hok Hfit Hrest; [done|].
  rewrite fmap_cons in *. cbn [concat] in *.
  apply Forall_cons in Hok as [Hx Hl].
  assert (wire.fits (marshalElem x)) as Hfx.
  { apply fits_app_l in Hfit. by apply fits_cons, fits_encodeBytes in Hfit. }
  apply fits_app_r in Hfit.
  rewrite <- app_assoc. cbn [app].
  eapply (decodes_field _ tag _ (set s) (set (wire.append s (norm x)))
            (concat _ ++ rest) r); try done.
  - rewrite Hwt. lia.
  - rewrite Hwt, Hfield, Hget. unfold wire.readRepeated.
    rewrite readPayload_encodeBytes by done.
    by rewrite Helem.
  - pose proof (length_encodeBytes (marshalElem x)).
    rewrite (length_app (wire.encodeBytes _)). lia.
  - apply IH; done.
Qed.

Lemma unmarshal_repeated (s : slice A) :
  Forall ok (elems s) →
  wire.fits (wire.marshalRepeated tag marshalElem s) →
  wire.unmarshal field (wire.marshalRepeated tag marshalElem s) (set None)
  = (set (wire.absentIfEmpty (slice_map norm s)), None).
Proof.
  intros Hok Hfit. apply decodes_unmarshal. unfold wire.marshalRepeated in *.
  rewrite <- (app_nil_r (concat _)).
  apply decodes_repeated; [done..|].
  rewrite foldl_append_absent. apply decodes_nil.
Qed.

Lemma fits_repeated_elem (s : slice A) x :
  x ∈ elems s → wire.fits (wire.marshalRepeated tag marshalElem s) →
  wire.fits (marshalElem x).
Proof.
  unfold wire.marshalRepeated. generalize (elems s) as l.
  induction l as [|y l IH]; intros Hin Hfit; [by apply elem_of_nil in Hin|].
  rewrite fmap_cons in Hfit. cbn [concat] in Hfit.
  apply elem_of_cons in Hin as [->|Hin].
  - apply fits_app_l in Hfit. by apply fits_cons, fits_encodeBytes in Hfit.
  - apply IH; [done|]. by apply fits_app_r in Hfit.
Qed.
End Repeated.

Lemma slice_map_id {A} (s : slice A) : slice_map id s = s.
Proof. destruct s as [l|]; [|done]. simpl. by rewrite list_fmap_id. Qed.

Lemma unmarshalILS_marshalILS ils :
  wire.wfILS ils → wire.fits (wire.marshalILS ils) →
  wire.unmarshalILS (wire.marshalILS ils) (mkILS None)
  = (wire.normalizeILS ils, None).
Proof.
  intros Hwf Hfit. unfold wire.unmarshalILS, wire.marshalILS, wire.normalizeILS.
  rewrite <- (slice_map_id (Spans ils)) at 2.
  apply (unmarshal_repeated wire.fieldILS x12 Spans mkILS wire.marshalSpan
           (λ payload, wire.unmarshalSpan payload wire.zeroSpan) id wire.wfSpan);
    try done.
  intros x Hx Hfx. by apply unmarshalSpan_marshalSpan.
Qed.

Lemma unmarshalRS_marshalRS rs :
  wire.wfRS rs → wire.fits (wire.marshalRS rs) →
  wire.unmarshalRS (wire.marshalRS rs) (mkRS None)
  = (wire.normalizeRS rs, None).
Proof.
  intros Hwf Hfit. unfold wire.unmarshalRS, wire.marshalRS, wire.normalizeRS.
  apply (unmarshal_repeated wire.fieldRS x12 InstrumentationLibrarySpans_ mkRS
           wire.marshalILS
           (λ payload, wire.unmarshalILS payload (mkILS None))
           wire.normalizeILS wire.wfILS); try done.
  intros x Hx Hfx. by apply unmarshalILS_marshalILS.
Qed.

(** Decoding the encoding of a request gives the request with every
    sequence without elements absent. *)
Lemma Unmarshal_marshalRequest req :
  wire.wfRequest req → wire.fits (wire.marshalRequest req) →
  wire.Unmarshal (wire.marshalRequest req) = (wire.normalize req, None).
Proof.
  intros Hwf Hfit. unfold wire.Unmarshal, wire.marshalRequest, wire.normalize.
  apply (unmarshal_repeated wire.fieldRequest x0a ResourceSpans_ mkRequest
           wire.marshalRS
           (λ payload, wire.unmarshalRS payload (mkRS None))
           wire.normalizeRS wire.wfRS); try done.
  intros x Hx Hfx. by apply unmarshalRS_marshalRS.
Qed.

Lemma absentIfEmpty_id {A} (s : slice A) :
  s ≠ Some [] → wire.absentIfEmpty s = s.
Proof. by destruct s as [[|x l]|]. Qed.

Lemma slice_map_ext_id {A} (f : A → A) (s : slice A) :
  Forall (λ x, f x = x) (elems s) → slice_map f s = s.
Proof.
  destruct s as [l|]; [|done]. simpl. intros H. f_equal.
  induction H as [|x l Hx Hl IH]; [done|]. by rewrite fmap_cons, Hx, IH.
Qed.

Lemma normalize_id req : wire.noEmptySequence req → wire.normalize req = req.
Proof.
  intros [Hne Hall]. destruct req as [rss]. unfold wire.normalize. simpl in *.
  f_equal. rewrite slice_map_ext_id; [by apply absentIfEmpty_id|].
  eapply Forall_impl; [exact Hall|]. intros [ilss] [Hne' Hall']. simpl in *.
  unfold wire.normalizeRS. simpl. f_equal.
  rewrite slice_map_ext_id; [by apply absentIfEmpty_id|].
  eapply Forall_impl; [exact Hall'|]. intros [spans] Hs. simpl in *.
  unfold wire.normalizeILS. simpl. f_equal. by apply absentIfEmpty_id.
Qed.

(** ** Wire conversion of a tree *)

(** C1, as stated, fails: a tree whose ResourceSpans sequence is empty but
    present is encoded to no bytes at all, and decoding them yields the
    tree with the sequence absent, which is a different tree. *)
Lemma round_trip_loses_empty_sequence :
  pdata.ToOtlpProtoBytes wire.Marshal (pdata.mkTraces (Some tree.sampleEmptyPresent))
  = Some ([], None) ∧
  pdata.TracesFromOtlpProtoBytes wire.Unmarshal []
  = (pdata.mkTraces (Some (mkRequest None)), None) ∧
  pdata.mkTraces (Some (mkRequest None))
  ≠ pdata.mkTraces (Some tree.sampleEmptyPresent).
Proof. split; [reflexivity|]. split; [reflexivity|]. discriminate. Qed.

(** C1, amended: for every well-formed tree (enum fields within [int32],
    an encoding shorter than 2^63 bytes), encoding succeeds, and decoding
    the bytes succeeds and yields the tree with every sequence that is
    empty but present replaced by an absent one. The result is structurally
    equal to the tree when none of its sequences is empty but present. *)
Theorem wire_round_trip req :
  wire.wfRequest req → wire.fits (wire.marshalRequest req) →
  ∃ data,
    pdata.ToOtlpProtoBytes wire.Marshal (pdata.mkTraces (Some req))
    = Some (data, None) ∧
    pdata.TracesFromOtlpProtoBytes wire.Unmarshal data
    = (pdata.mkTraces (Some (wire.normalize req)), None) ∧
    (wire.noEmptySequence req →
     pdata.TracesFromOtlpProtoBytes wire.Unmarshal data
     = (pdata.mkTraces (Some req), None)).
Proof.
  intros Hwf Hfit. exists (wire.marshalRequest req). split; [done|].
  unfold pdata.TracesFromOtlpProtoBytes.
  rewrite Unmarshal_marshalRequest by done. split; [done|].
  intros Hne. by rewrite normalize_id.
Qed.

Lemma sampleWire_wf : wire.wfRequest tree.sampleWire.
Proof.
  unfold wire.wfRequest, wire.wfRS, wire.wfILS, wire.wfSpan, wire.wfStatus,
    wire.int32. simpl. repeat (constructor; simpl); lia.
Qed.

Lemma sampleWire_noEmpty : wire.noEmptySequence tree.sampleWire.
Proof.
  unfold wire.noEmptySequence. simpl. split; [done|].
  repeat (constructor; simpl); done.
Qed.

Lemma wire_round_trip_witness :
  ∃ data,
    pdata.ToOtlpProtoBytes wire.Marshal (pdata.mkTraces (Some tree.sampleWire))
    = Some (data, None) ∧
    pdata.TracesFromOtlpProtoBytes wire.Unmarshal data
    = (pdata.mkTraces (Some (wire.normalize tree.sampleWire)), None) ∧
    (wire.noEmptySequence tree.sampleWire →
     pdata.TracesFromOtlpProtoBytes wire.Unmarshal data
     = (pdata.mkTraces (Some tree.sampleWire), None)).
Proof.
  apply (wire_round_trip tree.sampleWire sampleWire_wf).
  unfold wire.fits. vm_compute. reflexivity.
Defined.

(** C5: on every input on which [Unmarshal] fails,
    [TracesFromOtlpProtoBytes] returns the error of [Unmarshal], which is
    not nil, together with the zero value [Traces{}]: the request, however
    far it was filled before the failure, is dropped, and the result is
    neither a success nor the empty tree of [NewTraces]. *)
Theorem decode_failure_returns_no_tree
  (Unmarshal : list byte → ExportTraceServiceRequest * error) data req e :
  Unmarshal data = (req, Some e) →
  pdata.TracesFromOtlpProtoBytes Unmarshal data = (pdata.mkTraces None, Some e) ∧
  pdata.orig (fst (pdata.TracesFromOtlpProtoBytes Unmarshal data)) = None ∧
  snd (pdata.TracesFromOtlpProtoBytes Unmarshal data) ≠ None ∧
  fst (pdata.TracesFromOtlpProtoBytes Unmarshal data) ≠ pdata.NewTraces.
Proof.
  intros H. unfold pdata.TracesFromOtlpProtoBytes. rewrite H. simpl.
  repeat split; done.
Qed.

Lemma decode_failure_returns_no_tree_witness :
  pdata.TracesFromOtlpProtoBytes wire.Unmarshal tree.sampleTruncated
  = (pdata.mkTraces None, Some wire.ErrUnexpectedEOF) ∧
  pdata.orig (fst (pdata.TracesFromOtlpProtoBytes wire.Unmarshal
                     tree.sampleTruncated)) = None ∧
  snd (pdata.TracesFromOtlpProtoBytes wire.Unmarshal tree.sampleTruncated)
  ≠ None ∧
  fst (pdata.TracesFromOtlpProtoBytes wire.Unmarshal tree.sampleTruncated)
  ≠ pdata.NewTraces.
Proof.
  apply (decode_failure_returns_no_tree wire.Unmarshal tree.sampleTruncated
           (mkRequest (Some [mkRS None]))).
  vm_compute. reflexivity.
Defined.

(** ** The load generator *)

Lemma loop_invariant {St} (P : nat → St → Prop) (body : nat → St → option St) :
  ∀ n i s,
    P i s →
    (∀ k s, (i ≤ k < i + n)%nat → P k s → ∃ s', body k s = Some s' ∧ P (S k) s') →
    ∃ s', loop n i body s = Some s' ∧ P (i + n)%nat s'.
Proof.
  induction n as [|n IH]; intros i s HP Hbody.
  - exists s. rewrite Nat.add_0_r. done.
  - destruct (Hbody i s ltac:(lia) HP) as (s1 & Hs1 & HP1).
    destruct (IH (S i) s1 HP1) as (s2 & Hs2 & HP2).
    { intros k s' Hk. apply Hbody. lia. }
    exists s2. simpl. rewrite Hs1. simpl.
    replace (i + S n)%nat with (S i + n)%nat by lia. done.
Qed.

Lemma Inc_live dp c w :
  testbed.live dp w →
  c = testbed.batchesGenerated dp ∨ c = testbed.dataItemsGenerated dp →
  ∃ v w', testbed.Inc c w = Some (v, w') ∧ testbed.live dp w' ∧
          testbed.ticks w' = testbed.ticks w.
Proof.
  intros (lb & li & Hb & Hi & [vb Hvb] & [vi Hvi]) Hc.
  assert (∃ l v, c = Some l ∧ testbed.counters w !! l = Some v)
    as (l & v & -> & Hv).
  { destruct Hc as [->| ->]; eauto. }
  unfold testbed.Inc. simpl. rewrite Hv. simpl.
  eexists _, _. split; [done|]. split; [|done].
  exists lb, li. simpl. repeat split; try done.
  - destruct (decide (l = lb)) as [->|Hne].
    + rewrite lookup_insert_eq. eauto.
    + rewrite lookup_insert_ne by done. eauto.
  - destruct (decide (l = li)) as [->|Hne].
    + rewrite lookup_insert_eq. eauto.
    + rewrite lookup_insert_ne by done. eauto.
Qed.

Lemma updateAt_Some {A St} (s : slice A) i x
  (f : A → St → option (A * St)) st x' st' :
  elems s !! i = Some x → f x st = Some (x', st') →
  pdata.updateAt s i f st = Some (Some (<[i := x']> (elems s)), st').
Proof.
  intros Hx Hf. unfold pdata.updateAt, pdata.At. rewrite Hx. simpl.
  rewrite Hf. done.
Qed.

Lemma updateAt_singleton {A St} (x : A) (f : A → St → option (A * St)) st :
  pdata.updateAt (Some [x]) 0 f st
  = f x st ≫= λ '(x', st'), Some (Some [x'], st').
Proof.
  unfold pdata.updateAt, pdata.At. simpl. by destruct (f x st) as [[]|].
Qed.

Lemma generateDataPoint_live now dp batchIndex j dataPoint w :
  testbed.live dp w →
  ∃ dataPoint' w',
    testbed.generateDataPoint now dp batchIndex j dataPoint w
    = Some (dataPoint', w') ∧ testbed.live dp w'.
Proof.
  intros Hlive. unfold testbed.generateDataPoint, testbed.timeNow.
  destruct (Inc_live dp (testbed.dataItemsGenerated dp)
              (testbed.mkWorld (testbed.counters w) (S (testbed.ticks w))))
    as (v & w' & Hinc & Hlive' & _); [|by right|].
  { destruct Hlive as (lb & li & ? & ? & ? & ?). by exists lb, li. }
  rewrite Hinc. simpl. eauto.
Qed.

Lemma Resize_length {A} (zero : A) n (s : slice A) :
  0 ≤ n →
  ∃ s', pdata.Resize zero n s = Some s' ∧ length (elems s') = Z.to_nat n.
Proof.
  intros Hn. unfold pdata.Resize, pdata.Len.
  destruct (Z.ltb_spec n 0); [lia|].
  destruct (Z.leb_spec n (Z.of_nat (length (elems s)))).
  - eexists. split; [done|]. destruct s as [l|]; simpl in *.
    + rewrite length_take. lia.
    + lia.
  - eexists. split; [done|]. simpl.
    rewrite length_app, length_replicate. lia.
Qed.

Lemma loop_S {St} n i (body : nat → St → option St) s :
  loop (S n) i body s = body i s ≫= loop n (S i) body.
Proof. done. Qed.

#[local] Arguments pdata.Resize : simpl never.
#[local] Arguments pdata.updateAt : simpl never.
#[local] Arguments testbed.Inc : simpl never.
#[local] Arguments testbed.generateMetric : simpl never.
#[local] Arguments loop : simpl never.

Lemma generateMetric_gauge now dp i metric w :
  testbed.live dp w →
  ∃ metric' w',
    testbed.generateMetric now dp i metric w = Some (metric', w') ∧
    testbed.live dp w' ∧ testbed.gaugeOfSeven metric'.
Proof.
  intros Hlive. unfold testbed.generateMetric. cbv zeta.
  destruct (Inc_live dp (testbed.batchesGenerated dp) w Hlive)
    as (batchIndex & w1 & Hinc & Hlive1 & _); [by left|].
  rewrite Hinc. simpl.
  match goal with
  | |- context [loop ?n 0 ?body ?s0] =>
      destruct (loop_invariant
        (λ _ '(dps, w), length (elems dps) = 7%nat ∧ testbed.live dp w)
        body n 0 s0) as ([dps' w'] & Hloop & Hlen' & Hlive')
  end.
  { done. }
  { intros k [dps0 w0] Hk [Hl0 Hw0].
    destruct (lookup_lt_is_Some_2 (elems dps0) k) as [x Hx].
    { rewrite Hl0. simpl in Hk. change (Z.to_nat testbed.dataPointsPerMetric)
        with 7%nat in Hk. lia. }
    destruct (generateDataPoint_live now dp batchIndex k x w0 Hw0)
      as (x' & w0' & Hgen & Hw0').
    eexists (_, _). split; [by eapply updateAt_Some|].
    simpl. by rewrite length_insert. }
  rewrite Hloop. simpl. eexists _, _. split; [done|]. split; [done|].
  eexists. split; [done|]. done.
Qed.

Lemma generate_metrics_loop now dp w n metrics0 :
  testbed.live dp w → length (elems metrics0) = n →
  ∃ metrics w',
    loop n 0
      (λ i '(metrics, w),
         pdata.updateAt metrics i (testbed.generateMetric now dp i) w)
      (metrics0, w) = Some (metrics, w') ∧
    length (elems metrics) = n ∧
    Forall testbed.gaugeOfSeven (elems metrics).
Proof.
  intros Hlive Hlen.
  destruct (loop_invariant
    (λ k '(metrics, w),
       length (elems metrics) = n ∧ testbed.live dp w ∧
       ∀ i m, (i < k)%nat → elems metrics !! i = Some m → testbed.gaugeOfSeven m)
    (λ i '(metrics, w),
       pdata.updateAt metrics i (testbed.generateMetric now dp i) w)
    n 0 (metrics0, w))
    as ([metrics w'] & Hloop & Hlen' & Hlive' & Hgood).
  { repeat split; [done..|]. intros i m Hi. lia. }
  { intros k [ms w0] Hk (Hl0 & Hw0 & Hg0).
    destruct (lookup_lt_is_Some_2 (elems ms) k) as [x Hx]; [lia|].
    destruct (generateMetric_gauge now dp k x w0 Hw0)
      as (x' & w0' & Hgen & Hw0' & Hx').
    eexists (_, _). split; [by eapply updateAt_Some|].
    cbn [elems default from_option id]. rewrite length_insert.
    repeat split; [done..|].
    intros i m Hi Hm. destruct (decide (i = k)) as [->|Hne].
    - rewrite list_lookup_insert_eq in Hm by lia. by injection Hm as <-.
    - rewrite list_lookup_insert_ne in Hm by done. apply (Hg0 i); [lia|done]. }
  exists metrics, w'. repeat split; [done..|].
  apply Forall_lookup. intros i m Hm. apply (Hgood i); [|done].
  apply lookup_lt_Some in Hm. lia.
Qed.

Lemma sum_gaugeOfSeven (l : list otlpmetrics.Metric) :
  Forall testbed.gaugeOfSeven l →
  sum_list_with pdata.dataPoints l = (7 * length l)%nat.
Proof.
  induction 1 as [|m l (dps & Hd & Hl) _ IH]; [done|].
  simpl. rewrite IH. unfold pdata.dataPoints. rewrite Hd, Hl. lia.
Qed.

Lemma GenerateMetrics_unfold now dp w n ms0 metrics w' :
  testbed.ItemsPerBatch (testbed.options dp) = n →
  pdata.Resize testbed.zeroMetric n None = Some ms0 →
  loop (Z.to_nat n) 0
    (λ i '(metrics, w),
       pdata.updateAt metrics i (testbed.generateMetric now dp i) w)
    (ms0, w) = Some (metrics, w') →
  ∃ res,
    testbed.GenerateMetrics now dp w
    = Some (pdata.mkMetrics (Some (otlpmetrics.mkMetricsRequest
              (Some [otlpmetrics.mkRM res
                       (Some [otlpmetrics.mkILM metrics])]))), false, w').
Proof.
  intros Hn Hms0 Hloop.
  unfold testbed.GenerateMetrics. cbv zeta. rewrite Hn.
    change (pdata.ResourceMetrics pdata.NewMetrics)
      with (Some (@None (list otlpmetrics.ResourceMetrics))).
    cbn [mbind option_bind].
    change (pdata.Resize testbed.zeroRM 1 None)
      with (Some (Some [testbed.zeroRM])).
    cbn [mbind option_bind].
    rewrite updateAt_singleton.
    change (pdata.Resize testbed.zeroILM 1
              (otlpmetrics.InstrumentationLibraryMetrics_ testbed.zeroRM))
      with (Some (Some [testbed.zeroILM])).
    cbn [mbind option_bind].
    destruct (testbed.Attributes (testbed.options dp)) as [attributes|];
      eexists;
      rewrite ?updateAt_singleton;
      cbn [mbind option_bind otlpmetrics.InstrumentationLibraryMetrics_
           otlpmetrics.Resource_];
      rewrite ?updateAt_singleton;
      cbn [mbind option_bind otlpmetrics.InstrumentationLibraryMetrics_
           otlpmetrics.Resource_];
      rewrite ?updateAt_singleton;
      change (otlpmetrics.Metrics testbed.zeroILM)
        with (@None (list otlpmetrics.Metric));
      rewrite Hms0; cbn [mbind option_bind];
      rewrite Hloop; reflexivity.
Qed.

(** The counter operations of [GenerateMetrics] are the ones listed in
    [GenerateMetrics_ops]. *)
Lemma applyOps_app dp ops1 ops2 w :
  testbed.applyOps dp (ops1 ++ ops2) w
  = testbed.applyOps dp ops1 w ≫= testbed.applyOps dp ops2.
Proof.
  revert w. induction ops1 as [|op ops1 IH]; intros w; [done|].
  cbn [app testbed.applyOps].
  destruct (testbed.Inc (testbed.counterOf dp op) w) as [[v w1]|]; [|done].
  cbn [mbind option_bind]. apply IH.
Qed.

Lemma Inc_counters c w w0 v w' :
  testbed.Inc c w = Some (v, w') →
  testbed.counters w0 = testbed.counters w →
  ∃ w0', testbed.Inc c w0 = Some (v, w0') ∧
         testbed.counters w0' = testbed.counters w'.
Proof.
  unfold testbed.Inc. destruct c as [l|]; [|done]. cbn [mbind option_bind].
  intros Hinc Heq.
  destruct (testbed.counters w !! l) as [x|] eqn:Hl; [|done].
  cbn [mbind option_bind] in Hinc. injection Hinc as <- <-.
  eexists. rewrite Heq, Hl. cbn [mbind option_bind]. split; [done|]. done.
Qed.

Lemma updateAt_inv {A St} (s : slice A) i (f : A → St → option (A * St))
  st s' st' :
  pdata.updateAt s i f st = Some (s', st') →
  ∃ x x', pdata.At s i = Some x ∧ f x st = Some (x', st').
Proof.
  unfold pdata.updateAt. destruct (pdata.At s i) as [x|]; [|done].
  cbn [mbind option_bind]. destruct (f x st) as [[x' st1]|] eqn:Hf; [|done].
  cbn [mbind option_bind]. intros [= _ <-]. by exists x, x'.
Qed.

Lemma loop_applyOps {T} dp (body : nat → T * testbed.world → option (T * testbed.world))
  (ops : list testbed.counterOp) :
  (∀ k t w t' w' w0, body k (t, w) = Some (t', w') →
     testbed.counters w0 = testbed.counters w →
     ∃ w0', testbed.applyOps dp ops w0 = Some w0' ∧
            testbed.counters w0' = testbed.counters w') →
  ∀ n i t w t' w' w0, loop n i body (t, w) = Some (t', w') →
    testbed.counters w0 = testbed.counters w →
    ∃ w0', testbed.applyOps dp (concat (replicate n ops)) w0 = Some w0' ∧
           testbed.counters w0' = testbed.counters w'.
Proof.
  intros Hbody. induction n as [|n IH]; intros i t w t' w' w0 Hloop Heq.
  - injection Hloop as <- <-. by exists w0.
  - rewrite loop_S in Hloop.
    destruct (body i (t, w)) as [[t1 w1]|] eqn:Hb; [|done].
    cbn [mbind option_bind] in Hloop.
    destruct (Hbody i t w t1 w1 w0 Hb Heq) as (w01 & Hops1 & Heq1).
    destruct (IH (S i) t1 w1 t' w' w01 Hloop Heq1) as (w0' & Hops' & Heq').
    exists w0'. split; [|done].
    cbn [replicate concat]. rewrite applyOps_app, Hops1. done.
Qed.

Lemma generateDataPoint_ops now dp batchIndex j dataPoint w dataPoint' w' w0 :
  testbed.generateDataPoint now dp batchIndex j dataPoint w
  = Some (dataPoint', w') →
  testbed.counters w0 = testbed.counters w →
  ∃ w0', testbed.applyOps dp [testbed.IncDataItems] w0 = Some w0' ∧
         testbed.counters w0' = testbed.counters w'.
Proof.
  unfold testbed.generateDataPoint, testbed.timeNow. intros Hgen Heq.
  destruct (testbed.Inc (testbed.dataItemsGenerated dp) _) as [[v w1]|] eqn:Hinc;
    [|done].
  cbn [mbind option_bind] in Hgen. injection Hgen as _ <-.
  destruct (Inc_counters _ _ w0 _ _ Hinc Heq) as (w0' & Hinc0 & Heq0).
  exists w0'. cbn [testbed.applyOps testbed.counterOf]. by rewrite Hinc0.
Qed.

Lemma generateMetric_ops now dp i metric w metric' w' w0 :
  testbed.generateMetric now dp i metric w = Some (metric', w') →
  testbed.counters w0 = testbed.counters w →
  ∃ w0',
    testbed.applyOps dp
      (testbed.IncBatches
         :: replicate (Z.to_nat testbed.dataPointsPerMetric) testbed.IncDataItems)
      w0 = Some w0' ∧
    testbed.counters w0' = testbed.counters w'.
Proof.
  unfold testbed.generateMetric. cbv zeta. intros Hgen Heq.
  destruct (testbed.Inc (testbed.batchesGenerated dp) w) as [[batchIndex w1]|]
    eqn:Hinc; [|done].
  cbn [mbind option_bind] in Hgen.
  destruct (pdata.IntGaugeDataPoints _) as [dps0|]; [|done].
  cbn [mbind option_bind] in Hgen.
  destruct (pdata.Resize _ _ dps0) as [dps1|]; [|done].
  cbn [mbind option_bind] in Hgen.
  destruct (loop _ 0 _ (dps1, w1)) as [[dps2 w2]|] eqn:Hloop; [|done].
  cbn [mbind option_bind] in Hgen. injection Hgen as _ <-.
  destruct (Inc_counters _ _ w0 _ _ Hinc Heq) as (w01 & Hinc0 & Heq1).
  destruct (loop_applyOps dp
    (λ j '(dps, w),
       pdata.updateAt dps j (testbed.generateDataPoint now dp batchIndex j) w)
    [testbed.IncDataItems]) with
    (n := Z.to_nat testbed.dataPointsPerMetric) (i := 0%nat) (t := dps1)
    (w := w1) (t' := dps2) (w' := w2) (w0 := w01) as (w02 & Hops & Heq2);
    [|done..|].
  { intros k t w3 t' w3' w4 (x & x' & _ & Hx)%updateAt_inv Heq4.
    by eapply generateDataPoint_ops. }
  exists w02. cbn [testbed.applyOps testbed.counterOf]. rewrite Hinc0.
  cbn [mbind option_bind]. split; [|done]. exact Hops.
Qed.

Lemma GenerateMetrics_counter_ops now dp w n :
  testbed.ItemsPerBatch (testbed.options dp) = n → 0 ≤ n →
  testbed.live dp w →
  ∃ md w' w0,
    testbed.GenerateMetrics now dp w = Some (md, false, w') ∧
    testbed.applyOps dp (testbed.GenerateMetrics_ops dp) w = Some w0 ∧
    testbed.counters w0 = testbed.counters w'.
Proof.
  intros Hn Hpos Hlive.
  destruct (Resize_length testbed.zeroMetric n None Hpos) as (ms0 & Hms0 & Hlen0).
  destruct (generate_metrics_loop now dp w (Z.to_nat n) ms0 Hlive Hlen0)
    as (metrics & w' & Hloop & _).
  destruct (GenerateMetrics_unfold now dp w n ms0 metrics w' Hn Hms0 Hloop)
    as [res Hgen].
  destruct (loop_applyOps dp
    (λ i '(metrics, w),
       pdata.updateAt metrics i (testbed.generateMetric now dp i) w)
    (testbed.IncBatches
       :: replicate (Z.to_nat testbed.dataPointsPerMetric) testbed.IncDataItems))
    with (n := Z.to_nat n) (i := 0%nat) (t := ms0) (w := w) (t' := metrics)
         (w' := w') (w0 := w) as (w0 & Hops & Heq); [|done..|].
  { intros k t w3 t' w3' w4 (x & x' & _ & Hx)%updateAt_inv Heq4.
    by eapply generateMetric_ops. }
  eexists _, w', w0. split; [exact Hgen|]. split; [|done].
  unfold testbed.GenerateMetrics_ops. by rewrite Hn.
Qed.

(** C8: for every [LoadOptions] with [ItemsPerBatch = n] (a count, so not
    negative) and a provider whose counters are set, [GenerateMetrics]
    returns a tree with exactly one ResourceMetrics and one
    InstrumentationLibraryMetrics group containing exactly [n] metrics,
    each set to the IntGauge variant carrying exactly 7 data points; its
    metric count is [n] and its data point count [7 n], hence 1 and 7 for
    [n = 1]. *)
Theorem GenerateMetrics_shape now dp w n :
  testbed.ItemsPerBatch (testbed.options dp) = n → 0 ≤ n →
  testbed.live dp w →
  ∃ md rm ilm w',
    testbed.GenerateMetrics now dp w = Some (md, false, w') ∧
    pdata.ResourceMetrics md = Some (Some [rm]) ∧
    otlpmetrics.InstrumentationLibraryMetrics_ rm = Some [ilm] ∧
    pdata.Len (otlpmetrics.Metrics ilm) = Z.to_nat n ∧
    Forall testbed.gaugeOfSeven (elems (otlpmetrics.Metrics ilm)) ∧
    pdata.MetricAndDataPointCount md = Some (Z.to_nat n, (7 * Z.to_nat n)%nat) ∧
    (n = 1 → pdata.MetricAndDataPointCount md = Some (1%nat, 7%nat)).
Proof.
  intros Hn Hpos Hlive.
  destruct (Resize_length testbed.zeroMetric n None Hpos) as (ms0 & Hms0 & Hlen0).
  destruct (generate_metrics_loop now dp w (Z.to_nat n) ms0 Hlive Hlen0)
    as (metrics & w' & Hloop & Hlen & Hgood).
  destruct (GenerateMetrics_unfold now dp w n ms0 metrics w' Hn Hms0 Hloop)
    as [res Hgen].
  eexists _, _, _, w'. split; [exact Hgen|].
  split; [done|]. split; [done|]. split; [done|]. split; [done|].
  assert (pdata.MetricAndDataPointCount
            (pdata.mkMetrics (Some (otlpmetrics.mkMetricsRequest
              (Some [otlpmetrics.mkRM res (Some [otlpmetrics.mkILM metrics])]))))
          = Some (Z.to_nat n, (7 * Z.to_nat n)%nat)) as Hcount.
  { unfold pdata.MetricAndDataPointCount. simpl.
    rewrite sum_gaugeOfSeven by done. unfold pdata.Len. rewrite Hlen.
    do 2 f_equal; lia. }
  split; [done|]. intros ->. by rewrite Hcount.
Qed.

Lemma sampleWorld_live : testbed.live testbed.sampleProvider testbed.sampleWorld.
Proof.
  exists 0%nat, 1%nat. split; [reflexivity|]. split; [reflexivity|].
  split; [exists 0|exists 0]; reflexivity.
Qed.

Lemma GenerateMetrics_shape_witness :
  ∃ md rm ilm w',
    testbed.GenerateMetrics (λ k, Z.of_nat k) testbed.sampleProvider
      testbed.sampleWorld = Some (md, false, w') ∧
    pdata.ResourceMetrics md = Some (Some [rm]) ∧
    otlpmetrics.InstrumentationLibraryMetrics_ rm = Some [ilm] ∧
    pdata.Len (otlpmetrics.Metrics ilm) = Z.to_nat 1 ∧
    Forall testbed.gaugeOfSeven (elems (otlpmetrics.Metrics ilm)) ∧
    pdata.MetricAndDataPointCount md = Some (Z.to_nat 1, (7 * Z.to_nat 1)%nat) ∧
    (1 = 1 → pdata.MetricAndDataPointCount md = Some (1%nat, 7%nat)).
Proof.
  apply (GenerateMetrics_shape (λ k, Z.of_nat k) testbed.sampleProvider
           testbed.sampleWorld 1); [reflexivity|lia|apply sampleWorld_live].
Defined.

(** ** Cloning *)

Lemma alloc_spec (h : gmap nat store.cell) c l h' :
  store.alloc h c = (l, h') →
  (l ∉ dom h) ∧ h' = (<[l := c]> h) ∧ h ⊆ h'.
Proof.
  unfold store.alloc. intros [= <- <-].
  pose proof (is_fresh (dom h)) as Hfresh.
  split; [done|]. split; [done|].
  apply insert_subseteq. by apply not_elem_of_dom.
Qed.

Lemma agree_weaken (h h' : gmap nat store.cell) (X : gset nat) :
  h ⊆ h' → X ⊆ dom h → ∀ x, x ∈ X → h' !! x = h !! x.
Proof.
  intros Hsub HX x Hx. apply HX, elem_of_dom in Hx as [c Hc].
  rewrite Hc. by eapply lookup_weaken.
Qed.

Section Level.
Context {A : Type}.
Variable read : gmap nat store.cell → nat → option A.
Variable reach : gmap nat store.cell → nat → gset nat.
Variable copy : gmap nat store.cell → nat → option (nat * gmap nat store.cell).
Variable norm : A → A.
Hypothesis Hstable : store.stable read reach.
Hypothesis Halloc : store.allocated read reach.
Hypothesis Hcopies : store.copies read reach copy norm.

Lemma read_mono h h' l v :
  h ⊆ h' → read h l = Some v → read h' l = Some v ∧ reach h' l = reach h l.
Proof using Hstable Halloc. clear Hcopies copy norm.
  intros Hsub Hread. apply (Hstable h h' l v Hread).
  by eapply agree_weaken, Halloc.
Qed.

Lemma readList_inv h ls vs :
  store.readList (read h) ls = Some vs →
  Forall2 (λ l v, read h l = Some v) ls vs.
Proof using Type. clear Hstable Halloc Hcopies copy norm.
  revert vs. induction ls as [|l ls IH]; intros vs; simpl.
  - intros [= <-]. constructor.
  - destruct (read h l) as [v|] eqn:Hl; [|done]. simpl.
    destruct (store.readList (read h) ls) as [vs'|]; [|done]. simpl.
    intros [= <-]. constructor; [done|]. by apply IH.
Qed.

Lemma readList_intro h ls vs :
  Forall2 (λ l v, read h l = Some v) ls vs →
  store.readList (read h) ls = Some vs.
Proof using Type. clear Hstable Halloc Hcopies copy norm.
  induction 1 as [|l v ls vs Hl _ IH]; simpl; [done|].
  by rewrite Hl, IH.
Qed.

Lemma readList_stable h h' ls vs :
  store.readList (read h) ls = Some vs →
  (∀ x, x ∈ ⋃ (reach h <$> ls) → h' !! x = h !! x) →
  store.readList (read h') ls = Some vs ∧
  ⋃ (reach h' <$> ls) = ⋃ (reach h <$> ls).
Proof using Hstable. clear Halloc Hcopies copy norm.
  intros Hread%readList_inv. induction Hread as [|l v ls vs Hl _ IH]; intros Hag.
  - done.
  - rewrite !fmap_cons, !union_list_cons in *.
    destruct (Hstable h h' l v Hl) as [Hl' Hr']; [intros x Hx; apply Hag; set_solver|].
    destruct IH as [IH1 IH2]; [intros x Hx; apply Hag; set_solver|].
    simpl. rewrite Hl', IH1, Hr', IH2. done.
Qed.

Lemma readList_allocated h ls vs :
  store.readList (read h) ls = Some vs → ⋃ (reach h <$> ls) ⊆ dom h.
Proof using Halloc. clear Hstable Hcopies copy norm.
  intros Hread%readList_inv. induction Hread as [|l v ls vs Hl _ IH].
  - set_solver.
  - rewrite fmap_cons, union_list_cons. pose proof (Halloc h l v Hl). set_solver.
Qed.

Lemma copyList_spec ls : ∀ h vs,
  store.readList (read h) ls = Some vs →
  ∃ ls' h', store.copyList copy h ls = Some (ls', h') ∧ h ⊆ h' ∧
    store.readList (read h') ls' = Some (norm <$> vs) ∧
    ⋃ (reach h' <$> ls') ## dom h.
Proof using Hstable Halloc Hcopies.
  induction ls as [|l ls IH]; intros h vs Hread.
  - injection Hread as <-. exists [], h. simpl. repeat split; [done..|set_solver].
  - simpl in Hread.
    destruct (read h l) as [v|] eqn:Hl; [|done]. simpl in Hread.
    destruct (store.readList (read h) ls) as [vs'|] eqn:Hls; [|done].
    injection Hread as <-.
    destruct (Hcopies h l v Hl) as (l' & h1 & Hcopy & Hsub1 & Hl' & Hdisj1).
    destruct (readList_stable h h1 ls vs' Hls) as [Hls1 _].
    { by eapply agree_weaken, readList_allocated. }
    destruct (IH h1 vs' Hls1) as (ls' & h2 & Hcopies2 & Hsub2 & Hls' & Hdisj2).
    destruct (read_mono h1 h2 l' (norm v) Hsub2 Hl') as [Hl2 Hr2].
    exists (l' :: ls'), h2. simpl. rewrite Hcopy. simpl. rewrite Hcopies2. simpl.
    split; [done|]. split; [by etrans|]. split.
    + rewrite Hl2. simpl. by rewrite Hls'.
    + rewrite Hr2. pose proof (subseteq_dom _ _ Hsub1). set_solver.
Qed.

(** Copying a sequence into a nil destination. *)
Lemma CopyTo_spec h s xs :
  store.readSlice (read h) s = Some xs →
  ∃ s' h', store.CopyTo copy h s = Some (s', h') ∧ h ⊆ h' ∧
    store.readSlice (read h') s'
    = Some (wire.absentIfEmpty (slice_map norm xs)) ∧
    ⋃ (reach h' <$> elems s') ## dom h.
Proof using Hstable Halloc Hcopies.
  intros Hread. unfold store.CopyTo, store.readSlice in *.
  destruct s as [[|l ls]|].
  - injection Hread as <-. exists None, h. simpl. repeat split; done.
  - destruct (store.readList (read h) (l :: ls)) as [vs|] eqn:Hls; [|done].
    injection Hread as <-.
    destruct (copyList_spec (l :: ls) h vs Hls)
      as (ls' & h' & Hc & Hsub & Hls' & Hdisj).
    cbn [elems default from_option id]. rewrite Hc.
    exists (Some ls'), h'. cbn [mbind option_bind elems default from_option id].
    rewrite Hls'. split; [done|]. split; [done|]. split; [|done].
    apply readList_inv in Hls. inversion Hls; subst. done.
  - injection Hread as <-. exists None, h. simpl. repeat split; done.
Qed.
End Level.

Lemma span_stable : store.stable store.readSpan store.reachSpan.
Proof.
  intros h h' l v Hread Hag. split; [|done].
  unfold store.readSpan in *. rewrite Hag; [done|].
  unfold store.reachSpan. set_solver.
Qed.

Lemma span_allocated : store.allocated store.readSpan store.reachSpan.
Proof.
  intros h l v Hread. unfold store.readSpan, store.reachSpan in *.
  destruct (h !! l) as [c|] eqn:Hl; [|done].
  apply elem_of_dom_2 in Hl. set_solver.
Qed.

Lemma span_copies :
  store.copies store.readSpan store.reachSpan store.copySpan id.
Proof.
  intros h l v Hread. unfold store.copySpan. rewrite Hread. simpl.
  destruct (store.alloc h (store.CSpan v)) as [l' h'] eqn:Ha.
  apply alloc_spec in Ha as (Hfresh & -> & Hsub).
  exists l', (<[l' := store.CSpan v]> h). split; [done|]. split; [done|]. split.
  - unfold store.readSpan. by rewrite lookup_insert_eq.
  - unfold store.reachSpan. set_solver.
Qed.

Section Node.
Context {A B : Type}.
Variable un : store.cell → option (slice nat).
Variable wrap : slice nat → store.cell.
Variable mk : slice A → B.
Variable read : gmap nat store.cell → nat → option A.
Variable reach : gmap nat store.cell → nat → gset nat.
Variable copy : gmap nat store.cell → nat → option (nat * gmap nat store.cell).
Variable norm : A → A.
Hypothesis Hun : ∀ s, un (wrap s) = Some s.
Hypothesis Hstable : store.stable read reach.
Hypothesis Halloc : store.allocated read reach.
Hypothesis Hcopies : store.copies read reach copy norm.

Lemma readNode_inv h l b :
  store.readNode un mk read h l = Some b →
  ∃ c s xs, h !! l = Some c ∧ un c = Some s ∧
    store.readSlice (read h) s = Some xs ∧ b = mk xs.
Proof using Type. clear Hun Hstable Halloc Hcopies wrap copy norm.
  unfold store.readNode. intros Hread.
  destruct (h !! l) as [c|] eqn:Hl; [|done]. simpl in Hread.
  destruct (un c) as [s|] eqn:Hc; [|done]. simpl in Hread.
  destruct (store.readSlice (read h) s) as [xs|] eqn:Hs; [|done].
  injection Hread as <-. by exists c, s, xs.
Qed.

Lemma readSlice_stable h h' s xs :
  store.readSlice (read h) s = Some xs →
  (∀ x, x ∈ ⋃ (reach h <$> elems s) → h' !! x = h !! x) →
  store.readSlice (read h') s = Some xs ∧
  ⋃ (reach h' <$> elems s) = ⋃ (reach h <$> elems s).
Proof using Hstable. clear Hun Halloc Hcopies wrap copy norm.
  unfold store.readSlice. destruct s as [ls|]; [|done].
  destruct (store.readList (read h) ls) as [vs|] eqn:Hls; [|done].
  intros [= <-] Hag.
  destruct (readList_stable read reach Hstable h h' ls vs Hls Hag) as [H1 H2].
  cbn [elems default from_option id]. by rewrite H1, H2.
Qed.

Lemma readSlice_allocated h s xs :
  store.readSlice (read h) s = Some xs → ⋃ (reach h <$> elems s) ⊆ dom h.
Proof using Halloc. clear Hun Hstable Hcopies wrap copy norm.
  unfold store.readSlice. destruct s as [ls|]; [|set_solver].
  destruct (store.readList (read h) ls) as [vs|] eqn:Hls; [|done].
  intros _. by eapply readList_allocated.
Qed.

Lemma node_stable :
  store.stable (store.readNode un mk read) (store.reachNode un reach).
Proof using Hstable. clear Hun Halloc Hcopies wrap copy norm.
  intros h h' l b (c & s & xs & Hl & Hc & Hs & ->)%readNode_inv Hag.
  unfold store.reachNode in Hag. rewrite Hl in Hag. simpl in Hag.
  rewrite Hc in Hag.
  assert (h' !! l = Some c) as Hl' by (rewrite Hag; [done|set_solver]).
  destruct (readSlice_stable h h' s xs Hs) as [Hs' Hr'].
  { intros x Hx. apply Hag. set_solver. }
  unfold store.readNode, store.reachNode. rewrite Hl, Hl'. simpl.
  rewrite Hc. simpl. rewrite Hs', Hr'. done.
Qed.

Lemma node_allocated :
  store.allocated (store.readNode un mk read) (store.reachNode un reach).
Proof using Halloc. clear Hun Hstable Hcopies wrap copy norm.
  intros h l b (c & s & xs & Hl & Hc & Hs & ->)%readNode_inv.
  unfold store.reachNode. rewrite Hl. simpl. rewrite Hc.
  pose proof (readSlice_allocated h s xs Hs).
  apply elem_of_dom_2 in Hl. set_solver.
Qed.

Lemma node_copies (get : B → slice A) :
  (∀ xs, get (mk xs) = xs) →
  store.copies (store.readNode un mk read) (store.reachNode un reach)
    (store.copyNode un wrap copy)
    (λ b, mk (wire.absentIfEmpty (slice_map norm (get b)))).
Proof using Hun Hstable Halloc Hcopies.
  intros Hget h l b (c & s & xs & Hl & Hc & Hs & ->)%readNode_inv.
  destruct (CopyTo_spec read reach copy norm Hstable Halloc Hcopies h s xs Hs)
    as (s' & h1 & Hcopy & Hsub1 & Hs' & Hdisj).
  unfold store.copyNode. rewrite Hl. simpl. rewrite Hc. simpl.
  rewrite Hcopy. simpl.
  destruct (store.alloc h1 (wrap s')) as [l' h'] eqn:Ha.
  apply alloc_spec in Ha as (Hfresh & -> & Hsub2).
  exists l', (<[l' := wrap s']> h1).
  split; [done|]. split; [by etrans|].
  destruct (readSlice_stable h1 (<[l' := wrap s']> h1) s' _ Hs') as [Hs2 Hr2].
  { eapply agree_weaken; [done|]. by eapply readSlice_allocated. }
  unfold store.readNode, store.reachNode. rewrite lookup_insert_eq. simpl.
  rewrite Hun. simpl. rewrite Hs2, Hr2, Hget. split; [done|].
  pose proof (subseteq_dom _ _ Hsub1). set_solver.
Qed.
End Node.

Lemma ils_stable : store.stable store.readILS store.reachILS.
Proof. apply node_stable, span_stable. Qed.

Lemma ils_allocated : store.allocated store.readILS store.reachILS.
Proof. apply node_allocated, span_allocated. Qed.

Lemma ils_copies :
  store.copies store.readILS store.reachILS store.copyILS wire.normalizeILS.
Proof.
  intros h l v Hread.
  destruct (node_copies store.unInstrumentationLibrarySpans
              store.CInstrumentationLibrarySpans mkILS store.readSpan
              store.reachSpan store.copySpan id (λ s, eq_refl) span_stable
              span_allocated span_copies Spans (λ xs, eq_refl) h l v Hread)
    as (l' & h' & Hc & Hsub & Hr & Hd).
  exists l', h'. rewrite slice_map_id in Hr. done.
Qed.

Lemma rs_stable : store.stable store.readRS store.reachRS.
Proof. apply node_stable, ils_stable. Qed.

Lemma rs_allocated : store.allocated store.readRS store.reachRS.
Proof. apply node_allocated, ils_allocated. Qed.

Lemma rs_copies :
  store.copies store.readRS store.reachRS store.copyRS wire.normalizeRS.
Proof.
  exact (node_copies store.unResourceSpans store.CResourceSpans mkRS
           store.readILS store.reachILS store.copyILS wire.normalizeILS
           (λ s, eq_refl) ils_stable ils_allocated ils_copies
           InstrumentationLibrarySpans_ (λ xs, eq_refl)).
Qed.

Lemma request_stable : store.stable store.readRequest store.reachRequest.
Proof. apply node_stable, rs_stable. Qed.

Lemma request_allocated : store.allocated store.readRequest store.reachRequest.
Proof. apply node_allocated, rs_allocated. Qed.



(** ** Sequence counters under interleaving *)

Lemma wrap_uint64_succ a : wrap_uint64 (wrap_uint64 a + 1) = wrap_uint64 (a + 1).
Proof. unfold wrap_uint64. by rewrite Zplus_mod_idemp_l. Qed.

Lemma observed_app l hist e :
  testbed.observed l (hist ++ [e])
  = testbed.observed l hist
    ++ (if decide (testbed.ev_counter e = Some l) then [testbed.ev_value e] else []).
Proof.
  unfold testbed.observed. rewrite filter_app, fmap_app. f_equal.
  rewrite filter_cons, filter_nil. by destruct (decide _).
Qed.

(** The increments of the counter at [l] seen so far returned
    [v0 + 1, ..., v0 + k], and the counter holds [v0 + k]. *)
Lemma schedule1_counts l v0 tid s s' k :
  testbed.observed l (testbed.history s)
    = (λ i, wrap_uint64 (v0 + Z.of_nat i)) <$> seq 1 k →
  testbed.counters (testbed.shared s) !! l = Some (wrap_uint64 (v0 + Z.of_nat k)) →
  testbed.schedule1 tid s = Some s' →
  ∃ k', (k ≤ k' ≤ S k)%nat ∧
    testbed.observed l (testbed.history s')
      = (λ i, wrap_uint64 (v0 + Z.of_nat i)) <$> seq 1 k' ∧
    testbed.counters (testbed.shared s') !! l
      = Some (wrap_uint64 (v0 + Z.of_nat k')) ∧
    length (testbed.history s') = S (length (testbed.history s)).
Proof.
  intros Hobs Hcnt. unfold testbed.schedule1.
  destruct (testbed.calls s !! tid) as [c|]; [|done]. simpl.
  destruct (testbed.pending c) as [|op ops]; [done|].
  unfold testbed.Inc.
  destruct (testbed.counterOf (testbed.caller c) op) as [l'|] eqn:Hptr; [|done].
  simpl. destruct (testbed.counters (testbed.shared s) !! l') as [v|] eqn:Hv;
    [|done]. simpl. intros [= <-]. simpl.
  rewrite observed_app, length_app. simpl.
  destruct (decide (l' = l)) as [->|Hne].
  - exists (S k). split; [lia|].
    rewrite decide_True by done. rewrite seq_S, fmap_app, Hobs. simpl.
    rewrite Hcnt in Hv. injection Hv as <-.
    rewrite wrap_uint64_succ, lookup_insert_eq.
    replace (v0 + Z.of_nat k + 1) with (v0 + Z.of_nat (S k)) by lia.
    repeat split; [done..|lia].
  - exists k. split; [lia|].
    rewrite decide_False by congruence. rewrite app_nil_r.
    rewrite lookup_insert_ne by done. repeat split; [done..|lia].
Qed.

Lemma run_counts l v0 sched : ∀ s s' k,
  testbed.observed l (testbed.history s)
    = (λ i, wrap_uint64 (v0 + Z.of_nat i)) <$> seq 1 k →
  testbed.counters (testbed.shared s) !! l = Some (wrap_uint64 (v0 + Z.of_nat k)) →
  testbed.run sched s = Some s' →
  ∃ k', (k ≤ k' ≤ k + length sched)%nat ∧
    testbed.observed l (testbed.history s')
      = (λ i, wrap_uint64 (v0 + Z.of_nat i)) <$> seq 1 k' ∧
    testbed.counters (testbed.shared s') !! l
      = Some (wrap_uint64 (v0 + Z.of_nat k')) ∧
    length (testbed.history s')
    = (length (testbed.history s) + length sched)%nat.
Proof.
  induction sched as [|tid sched IH]; intros s s' k Hobs Hcnt Hrun.
  - injection Hrun as <-. exists k. simpl. repeat split; [lia..|done|done|lia].
  - simpl in Hrun.
    destruct (testbed.schedule1 tid s) as [s1|] eqn:Hstep; [|done].
    destruct (schedule1_counts l v0 tid s s1 k Hobs Hcnt Hstep)
      as (k1 & Hk1 & Hobs1 & Hcnt1 & Hlen1).
    destruct (IH s1 s' k1 Hobs1 Hcnt1 Hrun) as (k' & Hk' & Hobs' & Hcnt' & Hlen').
    exists k'. simpl. repeat split; [lia..|done|done|lia].
Qed.



(** ** The decoder always returns *)

(** A field decoder hands back a suffix of its input. *)
Lemma decodeVarint_loop_shorter n : ∀ s acc data v rest,
  wire.decodeVarint_loop n s acc data = wire.Ok (v, rest) →
  (length rest < length data)%nat.
Proof.
  induction n as [|n IH]; intros s acc data v rest; [done|].
  destruct data as [|b data]; [done|]. cbn [wire.decodeVarint_loop].
  destruct (wire.Z_of_byte b <? 128).
  - intros [= <- <-]. simpl. lia.
  - intros H%IH. simpl. lia.
Qed.

Lemma decodeVarint_shorter data v rest :
  wire.decodeVarint data = wire.Ok (v, rest) → (length rest < length data)%nat.
Proof. apply decodeVarint_loop_shorter. Qed.

Lemma readBytes_shorter data payload rest :
  wire.readBytes data = wire.Ok (payload, rest) →
  (length rest ≤ length data)%nat.
Proof.
  unfold wire.readBytes.
  destruct (wire.decodeVarint data) as [[len rest0]|] eqn:Hv; [|done].
  apply decodeVarint_shorter in Hv.
  destruct (wrap_int len <? 0); [done|].
  destruct (Z.of_nat (length rest0) <? len); [done|].
  intros [= <- <-]. rewrite length_drop. lia.
Qed.

Lemma readPayload_shorter wireType data payload rest :
  wire.readPayload wireType data = wire.Ok (payload, rest) →
  (length rest ≤ length data)%nat.
Proof.
  unfold wire.readPayload. destruct (wireType =? 2); [|done].
  apply readBytes_shorter.
Qed.

Lemma readEnum_shorter wireType data v rest :
  wire.readEnum wireType data = wire.Ok (v, rest) →
  (length rest ≤ length data)%nat.
Proof.
  unfold wire.readEnum. destruct (wireType =? 0); [|done].
  destruct (wire.decodeVarint data) as [[v0 rest0]|] eqn:Hv; [|done].
  apply decodeVarint_shorter in Hv. intros [= <- <-]. lia.
Qed.

Lemma skipField_shorter wireType data rest :
  wire.skipField wireType data = wire.Ok rest →
  (length rest ≤ length data)%nat.
Proof.
  unfold wire.skipField.
  destruct (wireType =? 0).
  { destruct (wire.decodeVarint data) as [[v0 rest0]|] eqn:Hv; [|done].
    apply decodeVarint_shorter in Hv. intros [= <-]. lia. }
  destruct (wireType =? 1).
  { destruct (length data <? 8)%nat; [done|]. intros [= <-].
    rewrite length_drop. lia. }
  destruct (wireType =? 2).
  { destruct (wire.readBytes data) as [[p rest0]|] eqn:Hv; [|done].
    apply readBytes_shorter in Hv. intros [= <-]. lia. }
  destruct (wireType =? 5); [|done].
  destruct (length data <? 4)%nat; [done|]. intros [= <-].
  rewrite length_drop. lia.
Qed.

Lemma unmarshalLoop_total {M}
  (field : Z → Z → list byte → M → M * wire.result (list byte)) :
  (∀ fieldNum wireType data m m' rest,
     field fieldNum wireType data m = (m', wire.Ok rest) →
     (length rest ≤ length data)%nat) →
  ∀ fuel data m, (length data ≤ fuel)%nat →
    is_Some (wire.unmarshalLoop field fuel data m).
Proof.
  intros Hfield. induction fuel as [|fuel IH]; intros data m Hlen.
  - destruct data; [by eexists|simpl in Hlen; lia].
  - destruct data as [|b data]; [by eexists|]. cbn [wire.unmarshalLoop].
    destruct (wire.decodeVarint (b :: data)) as [[w rest]|] eqn:Hv;
      [|by eexists].
    apply decodeVarint_shorter in Hv. cbv zeta.
    destruct (Z.land w 7 =? 4); [by eexists|].
    destruct (wire.wrap_int32 (w ≫ 3) <=? 0); [by eexists|].
    destruct (field _ _ rest m) as [m' [rest'|e]] eqn:Hf; [|by eexists].
    apply Hfield in Hf. apply IH. simpl in *. lia.
Qed.

Lemma toResult_Ok {A} err (a b : A) : wire.toResult err a = wire.Ok b → a = b.
Proof. destruct err; [done|]. by intros [= <-]. Qed.

Lemma readRepeated_shorter {A} (unmarshalElem : list byte → A * error)
  wireType data s s' rest :
  wire.readRepeated unmarshalElem wireType data s = (s', wire.Ok rest) →
  (length rest ≤ length data)%nat.
Proof.
  unfold wire.readRepeated.
  destruct (wire.readPayload wireType data) as [[p rest0]|] eqn:Hp; [|done].
  apply readPayload_shorter in Hp.
  destruct (unmarshalElem p) as [x err]. intros [= _ <-%toResult_Ok]. done.
Qed.

(** [Unmarshal] never runs out of rounds: on every input it ends with a
    request and with an error or nil. *)
Lemma Unmarshal_total data :
  ∃ r, wire.unmarshalLoop wire.fieldRequest (length data) data (mkRequest None)
       = Some r ∧ wire.Unmarshal data = r.
Proof.
  destruct (unmarshalLoop_total wire.fieldRequest) with
    (fuel := length data) (data := data) (m := mkRequest None) as [r Hr].
  - intros fieldNum wireType d m m' rest. unfold wire.fieldRequest.
    destruct (fieldNum =? 1).
    + destruct (wire.readRepeated _ wireType d (ResourceSpans_ m))
        as [s r] eqn:Hrr.
      intros [= _ ->]. by eapply readRepeated_shorter.
    + unfold wire.fieldUnknown. intros [= _ H]. by eapply skipField_shorter.
  - done.
  - exists r. split; [done|]. unfold wire.Unmarshal, wire.unmarshal.
    by rewrite Hr.
Qed.

(** A call scheduled alone does its counter operations in one go. *)
Lemma run_alone dp ops : ∀ w w' hist,
  testbed.applyOps dp ops w = Some w' →
  ∃ s', testbed.run (replicate (length ops) 0%nat)
          (testbed.mkSystem [testbed.mkCall dp ops] w hist) = Some s' ∧
        testbed.shared s' = w' ∧
        testbed.calls s' = [testbed.mkCall dp []].
Proof.
  induction ops as [|op ops IH]; intros w w' hist Happly.
  - injection Happly as <-. by eexists.
  - cbn [testbed.applyOps] in Happly.
    destruct (testbed.Inc (testbed.counterOf dp op) w) as [[v w1]|] eqn:Hinc;
      [|done].
    cbn [mbind option_bind] in Happly.
    destruct (IH w1 w' (hist ++ [testbed.mkEvent 0 (testbed.counterOf dp op) v])
                Happly) as (s' & Hrun & Hs').
    exists s'. split; [|done].
    cbn [length replicate testbed.run]. unfold testbed.schedule1.
    cbn [testbed.calls lookup list_lookup mbind option_bind testbed.pending
         testbed.caller testbed.shared testbed.history].
    rewrite Hinc. cbn [mbind option_bind]. exact Hrun.
Qed.

(** * Further properties of the code *)

(** ** The ingress conversion, applied again *)

Lemma convertStatus_Code st :
  Code (trace.convertStatus st)
  = (if decide (Code st = Status_STATUS_CODE_UNSET
                ∧ DeprecatedCode st ≠ Status_DEPRECATED_STATUS_CODE_OK)
     then Status_STATUS_CODE_ERROR else Code st).
Proof.
  destruct st as [dep msg code]. unfold trace.convertStatus. simpl.
  repeat case_decide; simpl; try done; tauto.
Qed.

Lemma convertStatus_twice_Code st :
  Code (trace.convertStatus (trace.convertStatus st))
  = Code (trace.convertStatus st).
Proof.
  destruct st as [dep msg code]. unfold trace.convertStatus. simpl.
  repeat (case_decide; simpl in *); try done; try congruence.
Qed.

(** From the second pass on the conversion changes nothing. *)
Lemma convertStatus_thrice st :
  trace.convertStatus (trace.convertStatus (trace.convertStatus st))
  = trace.convertStatus (trace.convertStatus st).
Proof.
  destruct st as [dep msg code]. unfold trace.convertStatus; simpl.
  repeat (destruct (decide _); simpl in *; try done; try congruence).
Qed.

Lemma slice_map_compose {A} (f g : A → A) (s : slice A) :
  slice_map f (slice_map g s) = slice_map (f ∘ g) s.
Proof. destruct s as [l|]; [|done]. simpl. by rewrite <- list_fmap_compose. Qed.

Lemma slice_map_ext {A} (f g : A → A) (s : slice A) :
  (∀ x, f x = g x) → slice_map f s = slice_map g s.
Proof.
  intros H. destruct s as [l|]; [|done]. simpl. f_equal.
  by apply list_fmap_ext.
Qed.

(** X1: applying the conversion of [Export] again never changes a current
    status code, and from the second pass on it changes nothing at all: a
    request that went through ingress twice goes through a third time
    unchanged. *)
Theorem ingress_conversion_stabilises req st :
  trace.convertRequest (trace.convertRequest (trace.convertRequest req))
  = trace.convertRequest (trace.convertRequest req) ∧
  Code (trace.convertStatus (trace.convertStatus st))
  = Code (trace.convertStatus st).
Proof.
  split; [|apply convertStatus_twice_Code].
  unfold trace.convertRequest. cbn [ResourceSpans_]. f_equal.
  rewrite !slice_map_compose. apply slice_map_ext. intros rs. unfold compose.
  cbn [InstrumentationLibrarySpans_]. f_equal.
  rewrite !slice_map_compose. apply slice_map_ext. intros ils. unfold compose.
  cbn [Spans]. f_equal.
  rewrite !slice_map_compose. apply slice_map_ext. intros span. unfold compose.
  unfold trace.convertSpan. cbn [Name Kind Status_].
  by rewrite convertStatus_thrice.
Qed.

(** X2: the conversion is not idempotent. A status whose current code is
    UNSET and whose deprecated code is not OK keeps its deprecated code in
    the first pass, which sets the current code to ERROR; a second pass
    then overwrites the deprecated code with UNKNOWN_ERROR. *)
Theorem ingress_conversion_second_pass st :
  Code st = Status_STATUS_CODE_UNSET →
  DeprecatedCode st ≠ Status_DEPRECATED_STATUS_CODE_OK →
  trace.convertStatus st
  = mkStatus (DeprecatedCode st) (Message st) Status_STATUS_CODE_ERROR ∧
  trace.convertStatus (trace.convertStatus st)
  = mkStatus Status_DEPRECATED_STATUS_CODE_UNKNOWN_ERROR (Message st)
      Status_STATUS_CODE_ERROR.
Proof.
  destruct st as [dep msg code]. simpl. intros -> Hd.
  unfold trace.convertStatus. simpl.
  repeat (case_decide; simpl in *); try done; try congruence.
Qed.

Lemma ingress_conversion_second_pass_witness :
  trace.convertStatus (tree.sampleStatus 1 0)
  = mkStatus 1 "" Status_STATUS_CODE_ERROR ∧
  trace.convertStatus (trace.convertStatus (tree.sampleStatus 1 0))
  = mkStatus Status_DEPRECATED_STATUS_CODE_UNKNOWN_ERROR ""
      Status_STATUS_CODE_ERROR.
Proof.
  apply (ingress_conversion_second_pass (tree.sampleStatus 1 0));
    [reflexivity|discriminate].
Defined.

(** ** What [Export] hands on *)

(** X3: [Export] changes statuses only. The tree every call of the next
    consumer receives has a span exactly where the request has one, with
    the same name, kind and status message, and so the same span count. *)
Theorem Export_changes_statuses_only ConsumeTraces req out td :
  trace.Export ConsumeTraces req = Some out →
  td ∈ trace.consumed out →
  ∃ req',
    pdata.orig td = Some req' ∧
    tree.spanTotal req' = tree.spanTotal req ∧
    ∀ i j k,
      match tree.spanAt req i j k, tree.spanAt req' i j k with
      | Some span, Some span' =>
          Name span' = Name span ∧ Kind span' = Kind span ∧
          Message (Status_ span') = Message (Status_ span)
      | None, None => True
      | _, _ => False
      end.
Proof.
  intros Hout Htd. rewrite (Export_consumed _ _ _ _ Hout Htd).
  exists (trace.convertRequest req). split; [done|].
  split; [apply spanTotal_convertRequest|].
  intros i j k. rewrite spanAt_convertRequest.
  destruct (tree.spanAt req i j k) as [span|]; [|done]. simpl.
  split; [done|]. split; [done|].
  destruct span as [name kind [dep msg code]]. unfold trace.convertStatus.
  simpl. repeat case_decide; done.
Qed.

Lemma Export_changes_statuses_only_witness :
  ∃ req',
    pdata.orig (pdata.TracesFromInternalRep (trace.convertRequest tree.sampleUnset))
    = Some req' ∧
    tree.spanTotal req' = tree.spanTotal tree.sampleUnset ∧
    ∀ i j k,
      match tree.spanAt tree.sampleUnset i j k, tree.spanAt req' i j k with
      | Some span, Some span' =>
          Name span' = Name span ∧ Kind span' = Kind span ∧
          Message (Status_ span') = Message (Status_ span)
      | None, None => True
      | _, _ => False
      end.
Proof.
  apply (Export_changes_statuses_only (λ _, None) tree.sampleUnset
    (trace.mkOutcome (Some mkResponse, None)
       [pdata.TracesFromInternalRep (trace.convertRequest tree.sampleUnset)])).
  - reflexivity.
  - simpl. apply list_elem_of_singleton. reflexivity.
Defined.

(** X4: for a request with at least one span, [Export] calls
    [ConsumeTraces] exactly once, on the converted request; when the
    consumer fails, [Export] returns a nil response and the consumer's
    error, and otherwise an empty response and a nil error. *)
Theorem Export_consumes_once ConsumeTraces req :
  (0 < tree.spanTotal req)%nat → Z.of_nat (tree.spanTotal req) < 2 ^ 63 →
  trace.Export ConsumeTraces req
  = Some (trace.mkOutcome
      (match ConsumeTraces (pdata.TracesFromInternalRep (trace.convertRequest req)) with
       | Some e => (None, Some e)
       | None => (Some mkResponse, None)
       end)
      [pdata.TracesFromInternalRep (trace.convertRequest req)]).
Proof.
  intros Hpos Hlt. rewrite Export_unfold. cbv zeta.
  rewrite wrap_int_small by lia. rewrite decide_False by lia.
  by destruct (ConsumeTraces _).
Qed.

Lemma Export_consumes_once_witness :
  trace.Export (λ _, Some "refused"%string) tree.sampleUnset
  = Some (trace.mkOutcome (None, Some "refused"%string)
      [pdata.TracesFromInternalRep (trace.convertRequest tree.sampleUnset)]).
Proof.
  apply (Export_consumes_once (λ _, Some "refused"%string) tree.sampleUnset).
  - vm_compute. lia.
  - vm_compute. reflexivity.
Defined.

(** ** Setting the status code, again and before ingress *)

(** X5: a status written by [SetCode] goes through the ingress conversion
    of [Export] unchanged, whatever the code: a tree whose statuses were
    set through the view can be re-exported to this receiver without any
    rewrite. *)
Theorem SetCode_survives_ingress ms v :
  trace.convertStatus (pdata.SetCode ms v) = pdata.SetCode ms v.
Proof.
  destruct ms as [dep msg code].
  unfold trace.convertStatus, pdata.SetCode, pdata.StatusCodeUnset,
    pdata.StatusCodeOk, pdata.StatusCodeError. simpl.
  repeat (case_decide; simpl in *); try done; try congruence;
    unfold Status_STATUS_CODE_UNSET, Status_STATUS_CODE_OK,
      Status_STATUS_CODE_ERROR, Status_DEPRECATED_STATUS_CODE_OK,
      Status_DEPRECATED_STATUS_CODE_UNKNOWN_ERROR in *;
    try (intuition lia); try (f_equal; intuition lia).
Qed.

(** X6: [SetCode] is idempotent, and for the three defined codes the last
    call wins: after [SetCode v1] and then [SetCode v2] with [v2] one of
    Unset, Ok and Error, the status is the one [SetCode v2] alone gives. *)
Theorem SetCode_last_wins ms v1 v2 :
  v2 = pdata.StatusCodeUnset ∨ v2 = pdata.StatusCodeOk
    ∨ v2 = pdata.StatusCodeError →
  pdata.SetCode (pdata.SetCode ms v1) v2 = pdata.SetCode ms v2 ∧
  pdata.SetCode (pdata.SetCode ms v1) v1 = pdata.SetCode ms v1.
Proof.
  intros Hv2. destruct ms as [dep msg code]. unfold pdata.SetCode. simpl.
  repeat (case_decide; simpl in *); try done; try tauto.
Qed.

Lemma SetCode_last_wins_witness :
  pdata.SetCode (pdata.SetCode (tree.sampleStatus 0 0) 7) 2
  = pdata.SetCode (tree.sampleStatus 0 0) 2 ∧
  pdata.SetCode (pdata.SetCode (tree.sampleStatus 0 0) 7) 7
  = pdata.SetCode (tree.sampleStatus 0 0) 7.
Proof.
  apply (SetCode_last_wins (tree.sampleStatus 0 0) 7 2).
  right. right. reflexivity.
Defined.

(** ** Counting on an invalid tree *)

(** X7: [SpanCount] panics on the zero value [Traces{}], whose request
    pointer is nil, and on no other tree: with a request, the two loops
    never index out of range. *)
Theorem SpanCount_panics_iff_nil td :
  pdata.SpanCount td = None ↔ pdata.orig td = None.
Proof.
  destruct td as [[req|]].
  - rewrite SpanCount_wrap. simpl. split; discriminate.
  - done.
Qed.

(** ** Sequential identifiers *)

Lemma low_byte_continuation x :
  Z.lor (Z.land x 255) 128 = x mod 128 + 128.
Proof.
  change 255 with (Z.ones 8). rewrite Z.land_ones by lia. change (2 ^ 8) with 256.
  pose proof (Z.mod_pos_bound x 256 ltac:(lia)) as H256.
  pose proof (Z.mod_pos_bound x 128 ltac:(lia)) as H128.
  assert (x mod 256 = x mod 128 ∨ x mod 256 = x mod 128 + 128) as [->| ->].
  { pose proof (Z.div_mod x 256 ltac:(lia)). pose proof (Z.div_mod x 128 ltac:(lia)).
    lia. }
  - apply (lor_disjoint_shift (x mod 128) 1 7); lia.
  - assert (Z.lor (x mod 128) 128 = x mod 128 + 128) as Hl
      by (apply (lor_disjoint_shift (x mod 128) 1 7); lia).
    rewrite <- Hl. by rewrite <- Z.lor_assoc, Z.lor_diag.
Qed.

Lemma continuation_byte_value x :
  wire.Z_of_byte (wire.byte_of_Z (Z.lor (Z.land x 255) 128)) = x mod 128 + 128.
Proof.
  rewrite low_byte_continuation.
  pose proof (Z.mod_pos_bound x 128 ltac:(lia)). apply Z_of_byte_of_Z. lia.
Qed.

Lemma pow2_7_succ n : 2 ^ (7 * Z.of_nat (S n)) = 128 * 2 ^ (7 * Z.of_nat n).
Proof.
  replace (7 * Z.of_nat (S n)) with (7 + 7 * Z.of_nat n) by lia.
  rewrite Z.pow_add_r by lia. done.
Qed.

(** The buffer is long enough exactly when [x] has no more than seven bits
    a byte. *)
Lemma PutUvarint_Some buf : ∀ x,
  buf ≠ [] → 0 ≤ x < 2 ^ (7 * Z.of_nat (length buf)) →
  ∃ out, ids.PutUvarint buf x = Some out ∧ length out = length buf.
Proof.
  induction buf as [|b rest IH]; intros x Hne Hx; [done|].
  cbn [ids.PutUvarint]. destruct (Z.leb_spec 128 x) as [Hge|Hlt].
  - cbn [length] in Hx. rewrite pow2_7_succ in Hx.
    destruct rest as [|b' rest].
    { simpl in Hx. lia. }
    destruct (IH (x ≫ 7)) as (out & Hout & Hlen); [done| |].
    { rewrite Z.shiftr_div_pow2 by lia. change (2 ^ 7) with 128.
      split; [apply Z.div_pos; lia|]. apply Z.div_lt_upper_bound; lia. }
    rewrite Hout. eexists. split; [done|]. simpl in *. lia.
  - eexists. split; [done|]. done.
Qed.

Lemma PutUvarint_None buf : ∀ x,
  2 ^ (7 * Z.of_nat (length buf)) ≤ x → ids.PutUvarint buf x = None.
Proof.
  induction buf as [|b rest IH]; intros x Hx; [done|].
  cbn [ids.PutUvarint]. cbn [length] in Hx. rewrite pow2_7_succ in Hx.
  assert (0 < 2 ^ (7 * Z.of_nat (length rest))) by (apply Z.pow_pos_nonneg; lia).
  destruct (Z.leb_spec 128 x) as [Hge|Hlt]; [|lia].
  rewrite IH; [done|].
  rewrite Z.shiftr_div_pow2 by lia. change (2 ^ 7) with 128.
  apply Z.div_le_lower_bound; lia.
Qed.

Lemma PutUvarint_inj buf : ∀ x y out,
  0 ≤ x → 0 ≤ y →
  ids.PutUvarint buf x = Some out → ids.PutUvarint buf y = Some out → x = y.
Proof.
  induction buf as [|b rest IH]; intros x y out Hx Hy; [done|].
  cbn [ids.PutUvarint].
  destruct (Z.leb_spec 128 x) as [Hxge|Hxlt];
    destruct (Z.leb_spec 128 y) as [Hyge|Hylt].
  - destruct (ids.PutUvarint rest (x ≫ 7)) as [rx|] eqn:Hrx; [|done].
    destruct (ids.PutUvarint rest (y ≫ 7)) as [ry|] eqn:Hry; [|done].
    simpl. intros [= <-] [= Hb <-].
    assert (x ≫ 7 = y ≫ 7) as Hq.
    { apply (IH _ _ ry); try done; rewrite Z.shiftr_div_pow2 by lia;
        apply Z.div_pos; lia. }
    apply (f_equal wire.Z_of_byte) in Hb.
    rewrite !continuation_byte_value in Hb.
    rewrite !Z.shiftr_div_pow2 in Hq by lia. change (2 ^ 7) with 128 in Hq.
    pose proof (Z.div_mod x 128 ltac:(lia)). pose proof (Z.div_mod y 128 ltac:(lia)).
    lia.
  - destruct (ids.PutUvarint rest (x ≫ 7)) as [rx|]; [|done].
    simpl. intros [= <-] [= Hb _].
    apply (f_equal wire.Z_of_byte) in Hb.
    rewrite continuation_byte_value, Z_of_byte_of_Z in Hb by lia.
    pose proof (Z.mod_pos_bound x 128 ltac:(lia)). lia.
  - destruct (ids.PutUvarint rest (y ≫ 7)) as [ry|]; [|done].
    simpl. intros [= <-] [= Hb _].
    apply (f_equal wire.Z_of_byte) in Hb.
    rewrite continuation_byte_value, Z_of_byte_of_Z in Hb by lia.
    pose proof (Z.mod_pos_bound y 128 ltac:(lia)). lia.
  - intros [= <-] [= Hb].
    apply (f_equal wire.Z_of_byte) in Hb.
    rewrite !Z_of_byte_of_Z in Hb by lia. done.
Qed.

Lemma PutUvarint_zero n x :
  0 ≤ x →
  ids.PutUvarint (replicate (S n) x00) x = Some (replicate (S n) x00) ↔ x = 0.
Proof.
  intros Hx. cbn [replicate ids.PutUvarint]. split.
  - destruct (Z.leb_spec 128 x) as [Hge|Hlt].
    + destruct (ids.PutUvarint _ _) as [r|]; [|done]. simpl. intros [= Hb _].
      apply (f_equal wire.Z_of_byte) in Hb.
      rewrite continuation_byte_value in Hb.
      pose proof (Z.mod_pos_bound x 128 ltac:(lia)).
      change (wire.Z_of_byte x00) with 0 in Hb. lia.
    + intros [= Hb]. apply (f_equal wire.Z_of_byte) in Hb.
      rewrite Z_of_byte_of_Z in Hb by lia. done.
  - intros ->. done.
Qed.

(** X8: [GenerateSequentialTraceID] never fails on a [uint64]: sixteen
    bytes hold every varint. The identifier has 16 bytes, and it is the
    all-zero (invalid) identifier exactly for [id = 0]. *)
Theorem GenerateSequentialTraceID_total id :
  0 ≤ id < 2 ^ 64 →
  ∃ traceID,
    ids.GenerateSequentialTraceID id = Some traceID ∧
    length traceID = 16%nat ∧
    (traceID = replicate 16 x00 ↔ id = 0).
Proof.
  intros Hid. unfold ids.GenerateSequentialTraceID.
  destruct (PutUvarint_Some (replicate 16 x00) id) as (out & Hout & Hlen);
    [done|simpl; lia|].
  exists out. split; [done|]. split; [done|].
  rewrite <- (PutUvarint_zero 15 id) by lia. rewrite Hout.
  split; [by intros ->|by intros [= ->]].
Qed.

Lemma GenerateSequentialTraceID_total_witness :
  ∃ traceID,
    ids.GenerateSequentialTraceID 300 = Some traceID ∧
    length traceID = 16%nat ∧
    (traceID = replicate 16 x00 ↔ 300 = 0).
Proof. apply (GenerateSequentialTraceID_total 300). lia. Defined.

(** X9: [GenerateSequentialTraceID] is injective on [uint64]: two
    different sequence numbers never get the same trace identifier. *)
Theorem GenerateSequentialTraceID_inj id1 id2 :
  0 ≤ id1 < 2 ^ 64 → 0 ≤ id2 < 2 ^ 64 → id1 ≠ id2 →
  ids.GenerateSequentialTraceID id1 ≠ ids.GenerateSequentialTraceID id2.
Proof.
  intros H1 H2 Hne Heq. apply Hne.
  destruct (PutUvarint_Some (replicate 16 x00) id1) as (out & Hout & _);
    [done|simpl; lia|].
  unfold ids.GenerateSequentialTraceID in Heq. rewrite Hout in Heq.
  by apply (PutUvarint_inj (replicate 16 x00) id1 id2 out); try lia.
Qed.

Lemma GenerateSequentialTraceID_inj_witness :
  ids.GenerateSequentialTraceID 5 ≠ ids.GenerateSequentialTraceID 6.
Proof. apply (GenerateSequentialTraceID_inj 5 6); lia. Defined.

(** X10: [GenerateSequentialSpanID] writes into eight bytes, which hold 56
    bits of varint: below 2^56 it gives an identifier of 8 bytes, distinct
    for distinct numbers, and from 2^56 on it panics with an index out of
    range. *)
Theorem GenerateSequentialSpanID_range id1 id2 :
  0 ≤ id1 → 0 ≤ id2 →
  (id1 < 2 ^ 56 →
     ∃ spanID, ids.GenerateSequentialSpanID id1 = Some spanID ∧
               length spanID = 8%nat) ∧
  (2 ^ 56 ≤ id1 → ids.GenerateSequentialSpanID id1 = None) ∧
  (id1 < 2 ^ 56 →
   ids.GenerateSequentialSpanID id1 = ids.GenerateSequentialSpanID id2 →
   id1 = id2).
Proof.
  intros H1 H2. unfold ids.GenerateSequentialSpanID.
  split; [|split].
  - intros Hlt. apply PutUvarint_Some; [done|simpl; lia].
  - intros Hge. apply PutUvarint_None. simpl. lia.
  - intros Hlt Heq.
    destruct (PutUvarint_Some (replicate 8 x00) id1) as (out & Hout & _);
      [done|simpl; lia|].
    rewrite Hout in Heq.
    by apply (PutUvarint_inj (replicate 8 x00) id1 id2 out).
Qed.

Lemma GenerateSequentialSpanID_range_witness :
  (∃ spanID, ids.GenerateSequentialSpanID 300 = Some spanID ∧
             length spanID = 8%nat) ∧
  ids.GenerateSequentialSpanID (2 ^ 56) = None.
Proof.
  split.
  - apply (proj1 (GenerateSequentialSpanID_range 300 0 ltac:(lia) ltac:(lia))). lia.
  - apply (proj1 (proj2 (GenerateSequentialSpanID_range (2 ^ 56) 0
                           ltac:(lia) ltac:(lia)))). lia.
Defined.

#[local] Arguments wrap_int : simpl never.

(** ** The golden data provider *)

Lemma wrap_uint64_wrap_int x : wrap_uint64 (wrap_int x) = wrap_uint64 x.
Proof.
  unfold wrap_uint64, wrap_int. rewrite Zminus_mod_idemp_l. f_equal. lia.
Qed.

Lemma wrap_uint64_idemp a : wrap_uint64 (wrap_uint64 a) = wrap_uint64 a.
Proof. unfold wrap_uint64. by rewrite Zmod_mod. Qed.

Lemma wrap_uint64_add_r a b : wrap_uint64 (a + wrap_uint64 b) = wrap_uint64 (a + b).
Proof. unfold wrap_uint64. by rewrite Zplus_mod_idemp_r. Qed.

Lemma wrap_uint64_add_l a b : wrap_uint64 (wrap_uint64 a + b) = wrap_uint64 (a + b).
Proof. unfold wrap_uint64. by rewrite Zplus_mod_idemp_l. Qed.

Lemma withTraces_same dp :
  golden.withTraces dp (golden.tracesGenerated dp) (golden.tracesIndex dp) = dp.
Proof. by destruct dp. Qed.

Lemma withMetrics_same dp :
  golden.withMetrics dp (golden.metricsGenerated dp) (golden.metricsIndex dp) = dp.
Proof. by destruct dp. Qed.

Lemma foldl_bind {A B C} (f : A → C → A) (g : B → list C) (l : list B) : ∀ a,
  foldl f a (l ≫= g) = foldl (λ a x, foldl f a (g x)) a l.
Proof.
  induction l as [|x l IH]; intros a; [done|].
  cbn [mbind list_bind foldl]. change (mbind g l) with (l ≫= g).
  by rewrite foldl_app, IH.
Qed.

Section Golden.
Variable goldenTraces : string → string → slice pdata.Traces * error.
Variable goldenMetrics : string → slice pdata.Metrics * error.
Variable spanKey : Span → string.

(** A call while trees are left hands out the tree at the index. *)
Lemma golden_GenerateTraces_next dp w ds k req lb li vb vi :
  goldenTraces (golden.tracePairsFile dp) (golden.spanPairsFile dp) = (ds, None) →
  golden.tracesGenerated dp = None ∨ golden.tracesGenerated dp = ds →
  elems ds !! k = Some (pdata.mkTraces (Some req)) →
  golden.tracesIndex dp = Z.of_nat k →
  Z.of_nat (length (elems ds)) < 2 ^ 63 →
  golden.batchesGenerated dp = Some lb →
  golden.dataItemsGenerated dp = Some li → lb ≠ li →
  testbed.counters w !! lb = Some vb →
  testbed.counters w !! li = Some vi →
  ∃ w',
    golden.GenerateTraces goldenTraces dp w
    = Some (pdata.mkTraces (Some req), false,
            golden.withTraces dp ds (Z.of_nat (S k)), w') ∧
    testbed.counters w' !! lb = Some (wrap_uint64 (vb + 1)) ∧
    testbed.counters w' !! li
    = Some (wrap_uint64 (vi + Z.of_nat (tree.spanTotal req))).
Proof.
  intros Hgen Hcache Hk Hidx Hlen Hb Hi Hne Hvb Hvi.
  pose proof (lookup_lt_Some _ _ _ Hk) as Hlt.
  assert (ds ≠ None) as Hds. { intros ->. done. }
  unfold golden.GenerateTraces.
  set (dp1 := match golden.tracesGenerated dp with None => _ | Some _ => dp end).
  assert (dp1 = golden.withTraces dp ds (golden.tracesIndex dp)) as ->.
  { subst dp1. destruct Hcache as [Hc|Hc].
    - rewrite Hc, Hgen. done.
    - destruct (golden.tracesGenerated dp) eqn:Hc'; [|congruence].
      rewrite <- Hc, <- Hc'. by rewrite withTraces_same. }
  cbn [golden.withTraces golden.batchesGenerated golden.tracesGenerated
       golden.tracesIndex golden.dataItemsGenerated].
  rewrite Hb. unfold testbed.Inc. cbn [mbind option_bind]. rewrite Hvb.
  cbn [mbind option_bind]. unfold pdata.Len.
  rewrite (proj2 (Z.leb_gt _ _)) by lia.
  unfold golden.index. rewrite (proj2 (Z.ltb_ge _ _)) by lia.
  rewrite Hidx, Nat2Z.id, Hk. cbn [mbind option_bind].
  rewrite SpanCount_wrap. cbn [mbind option_bind].
  unfold golden.Add. rewrite Hi. cbn [mbind option_bind testbed.counters].
  rewrite lookup_insert_ne, Hvi by done. cbn [mbind option_bind].
  eexists. split.
  - do 3 f_equal. f_equal. unfold golden.withTraces. f_equal.
    rewrite wrap_int_small by lia. lia.
  - cbn [testbed.counters]. rewrite lookup_insert_ne, lookup_insert_eq by done.
    rewrite lookup_insert_eq. split; [done|].
    by rewrite <- wrap_uint64_add_r, !wrap_uint64_idemp, wrap_uint64_wrap_int,
      wrap_uint64_add_r.
Qed.

(** A call when no tree is left hands out an empty tree and says so. *)
Lemma golden_GenerateTraces_done dp w ds lb vb :
  goldenTraces (golden.tracePairsFile dp) (golden.spanPairsFile dp) = (ds, None) →
  golden.tracesGenerated dp = None ∨ golden.tracesGenerated dp = ds →
  Z.of_nat (length (elems ds)) ≤ golden.tracesIndex dp →
  golden.batchesGenerated dp = Some lb →
  testbed.counters w !! lb = Some vb →
  golden.GenerateTraces goldenTraces dp w
  = Some (pdata.NewTraces, true, golden.withTraces dp ds (golden.tracesIndex dp),
          testbed.mkWorld (<[lb := wrap_uint64 (vb + 1)]> (testbed.counters w))
            (testbed.ticks w)).
Proof.
  intros Hgen Hcache Hidx Hb Hvb.
  unfold golden.GenerateTraces.
  set (dp1 := match golden.tracesGenerated dp with None => _ | Some _ => dp end).
  assert (dp1 = golden.withTraces dp ds (golden.tracesIndex dp)) as ->.
  { subst dp1. destruct Hcache as [Hc|Hc].
    - rewrite Hc, Hgen. done.
    - destruct (golden.tracesGenerated dp) eqn:Hc'.
      + rewrite <- Hc, <- Hc'. by rewrite withTraces_same.
      + rewrite Hgen, <- Hc. done. }
  cbn [golden.withTraces golden.batchesGenerated golden.tracesGenerated
       golden.tracesIndex golden.dataItemsGenerated].
  rewrite Hb. unfold testbed.Inc. cbn [mbind option_bind]. rewrite Hvb.
  cbn [mbind option_bind]. unfold pdata.Len.
  rewrite (proj2 (Z.leb_le _ _)) by lia. done.
Qed.

Lemma golden_GenerateTracesN_from ds reqs lb li n : ∀ dp w k vb vi,
  goldenTraces (golden.tracePairsFile dp) (golden.spanPairsFile dp) = (ds, None) →
  golden.tracesGenerated dp = None ∨ golden.tracesGenerated dp = ds →
  elems ds = (λ req, pdata.mkTraces (Some req)) <$> reqs →
  golden.tracesIndex dp = Z.of_nat k → (k ≤ length reqs)%nat →
  Z.of_nat (length reqs) < 2 ^ 63 →
  golden.batchesGenerated dp = Some lb →
  golden.dataItemsGenerated dp = Some li → lb ≠ li →
  testbed.counters w !! lb = Some (wrap_uint64 vb) →
  testbed.counters w !! li = Some (wrap_uint64 vi) →
  ∃ dp' w',
    golden.GenerateTracesN goldenTraces n dp w
    = Some (((λ req, (pdata.mkTraces (Some req), false)) <$> take n (drop k reqs))
              ++ replicate (n - (length reqs - k)) (pdata.NewTraces, true),
            dp', w') ∧
    golden.tracesIndex dp' = Z.of_nat ((k + n) `min` length reqs) ∧
    testbed.counters w' !! lb = Some (wrap_uint64 (vb + Z.of_nat n)) ∧
    testbed.counters w' !! li
    = Some (wrap_uint64
              (vi + Z.of_nat (sum_list_with tree.spanTotal (take n (drop k reqs))))).
Proof.
  induction n as [|n IH];
    intros dp w k vb vi Hgen Hcache Hds Hidx Hk Hlen Hb Hi Hne Hvb Hvi.
  - exists dp, w. cbn [golden.GenerateTracesN]. rewrite take_0. simpl.
    rewrite Hidx, Hvb, Hvi, !Z.add_0_r. repeat split; try done. f_equal. lia.
  - cbn [golden.GenerateTracesN].
    assert (Z.of_nat (length (elems ds)) < 2 ^ 63) as Hlen'.
    { by rewrite Hds, length_fmap. }
    destruct (reqs !! k) as [req|] eqn:Hreq.
    + pose proof (lookup_lt_Some _ _ _ Hreq) as Hlt.
      assert (elems ds !! k = Some (pdata.mkTraces (Some req))) as Hk'.
      { by rewrite Hds, list_lookup_fmap, Hreq. }
      destruct (golden_GenerateTraces_next dp w ds k req lb li _ _
                  Hgen Hcache Hk' Hidx Hlen' Hb Hi Hne Hvb Hvi)
        as (w1 & -> & Hvb1 & Hvi1).
      cbn [mbind option_bind].
      rewrite wrap_uint64_add_l in Hvb1, Hvi1.
      destruct (IH (golden.withTraces dp ds (Z.of_nat (S k))) w1 (S k)
                  (vb + 1) (vi + Z.of_nat (tree.spanTotal req)))
        as (dp' & w' & -> & Hidx' & Hvb' & Hvi'); try done.
      all: try (by right). all: try lia.
      cbn [mbind option_bind]. exists dp', w'.
      rewrite (drop_S _ _ _ Hreq). cbn [take fmap list_fmap app sum_list_with].
      replace (S n - (length reqs - k))%nat with (n - (length reqs - S k))%nat
        by lia.
      split; [done|]. split; [rewrite Hidx'; f_equal; lia|].
      split; [rewrite Hvb'; do 2 f_equal; lia|].
      rewrite Hvi'. do 2 f_equal. lia.
    + apply lookup_ge_None in Hreq. assert (k = length reqs) as -> by lia.
      rewrite (golden_GenerateTraces_done dp w ds lb (wrap_uint64 vb))
        by (try done; rewrite Hds, length_fmap; lia).
      cbn [mbind option_bind].
      destruct (IH (golden.withTraces dp ds (golden.tracesIndex dp))
                  (testbed.mkWorld
                     (<[lb := wrap_uint64 (wrap_uint64 vb + 1)]> (testbed.counters w))
                     (testbed.ticks w)) (length reqs) (vb + 1) vi)
        as (dp' & w' & -> & Hidx' & Hvb' & Hvi'); try done.
      { by right. }
      { cbn [testbed.counters]. by rewrite lookup_insert_eq, wrap_uint64_add_l. }
      { cbn [testbed.counters]. by rewrite lookup_insert_ne. }
      cbn [mbind option_bind]. exists dp', w'.
      rewrite drop_all, take_nil in *. cbn [fmap list_fmap app] in *.
      replace (S n - (length reqs - length reqs))%nat with (S n) by lia.
      replace (n - (length reqs - length reqs))%nat with n by lia.
      split; [done|]. split; [rewrite Hidx'; f_equal; lia|].
      split; [rewrite Hvb'; do 2 f_equal; lia|done].
Qed.

(** X11: a golden provider whose dataset is generated without error hands
    out the trees of the dataset one per call, in their order and not done;
    every call after the last tree gets an empty tree and done. The index
    stops at the size of the dataset. *)
Theorem golden_traces_in_order tf sf mf ds reqs lb li vb vi w n :
  goldenTraces tf sf = (ds, None) →
  elems ds = (λ req, pdata.mkTraces (Some req)) <$> reqs →
  Z.of_nat (length reqs) < 2 ^ 63 →
  lb ≠ li →
  testbed.counters w !! lb = Some vb → 0 ≤ vb < 2 ^ 64 →
  testbed.counters w !! li = Some vi → 0 ≤ vi < 2 ^ 64 →
  ∃ dp' w',
    golden.GenerateTracesN goldenTraces n
      (golden.SetLoadGeneratorCounters (golden.NewGoldenDataProvider tf sf mf)
         (Some lb) (Some li)) w
    = Some (((λ req, (pdata.mkTraces (Some req), false)) <$> take n reqs)
              ++ replicate (n - length reqs) (pdata.NewTraces, true),
            dp', w') ∧
    golden.tracesIndex dp' = Z.of_nat (n `min` length reqs).
Proof.
  intros Hgen Hds Hlen Hne Hvb Hrb Hvi Hri.
  destruct (golden_GenerateTracesN_from ds reqs lb li n
              (golden.SetLoadGeneratorCounters
                 (golden.NewGoldenDataProvider tf sf mf) (Some lb) (Some li))
              w 0%nat vb vi)
    as (dp' & w' & Heq & Hidx & _); try done.
  { by left. }
  { lia. }
  { rewrite Hvb. unfold wrap_uint64. by rewrite Z.mod_small. }
  { rewrite Hvi. unfold wrap_uint64. by rewrite Z.mod_small. }
  exists dp', w'. rewrite drop_0, Nat.sub_0_r in Heq. done.
Qed.

(** X12: after [n] calls on a golden provider whose dataset is generated
    without error, the batch counter has advanced by [n], the calls after
    the last tree included, and the data item counter by the number of
    spans of the trees handed out. *)
Theorem golden_traces_counters tf sf mf ds reqs lb li vb vi w n :
  goldenTraces tf sf = (ds, None) →
  elems ds = (λ req, pdata.mkTraces (Some req)) <$> reqs →
  Z.of_nat (length reqs) < 2 ^ 63 →
  lb ≠ li →
  testbed.counters w !! lb = Some vb → 0 ≤ vb < 2 ^ 64 →
  testbed.counters w !! li = Some vi → 0 ≤ vi < 2 ^ 64 →
  ∃ outs dp' w',
    golden.GenerateTracesN goldenTraces n
      (golden.SetLoadGeneratorCounters (golden.NewGoldenDataProvider tf sf mf)
         (Some lb) (Some li)) w
    = Some (outs, dp', w') ∧
    testbed.counters w' !! lb = Some (wrap_uint64 (vb + Z.of_nat n)) ∧
    testbed.counters w' !! li
    = Some (wrap_uint64
              (vi + Z.of_nat (sum_list_with tree.spanTotal (take n reqs)))).
Proof.
  intros Hgen Hds Hlen Hne Hvb Hrb Hvi Hri.
  destruct (golden_GenerateTracesN_from ds reqs lb li n
              (golden.SetLoadGeneratorCounters
                 (golden.NewGoldenDataProvider tf sf mf) (Some lb) (Some li))
              w 0%nat vb vi)
    as (dp' & w' & Heq & _ & Hb' & Hi'); try done.
  { by left. }
  { lia. }
  { rewrite Hvb. unfold wrap_uint64. by rewrite Z.mod_small. }
  { rewrite Hvi. unfold wrap_uint64. by rewrite Z.mod_small. }
  rewrite drop_0 in Hi'. by eexists _, dp', w'.
Qed.

(** X13: when the dataset of traces cannot be generated, the error is not
    handed on: every call returns an empty tree and done, counts as a batch,
    leaves the other counters alone and leaves the provider as it was, so
    that the next call tries to generate the dataset again. *)
Theorem golden_traces_generation_failure dp ds e lb vb n : ∀ w,
  goldenTraces (golden.tracePairsFile dp) (golden.spanPairsFile dp) = (ds, Some e) →
  golden.tracesGenerated dp = None → 0 ≤ golden.tracesIndex dp →
  golden.batchesGenerated dp = Some lb →
  testbed.counters w !! lb = Some vb → 0 ≤ vb < 2 ^ 64 →
  ∃ w',
    golden.GenerateTracesN goldenTraces n dp w
    = Some (replicate n (pdata.NewTraces, true), dp, w') ∧
    testbed.counters w' !! lb = Some (wrap_uint64 (vb + Z.of_nat n)) ∧
    ∀ l, l ≠ lb → testbed.counters w' !! l = testbed.counters w !! l.
Proof.
  revert vb. induction n as [|n IH]; intros vb w Hgen Hnil Hidx Hb Hvb Hrb.
  - exists w. simpl. rewrite Z.add_0_r. unfold wrap_uint64.
    rewrite Z.mod_small by done. done.
  - cbn [golden.GenerateTracesN]. unfold golden.GenerateTraces.
    set (dp1 := match golden.tracesGenerated dp with None => _ | Some _ => dp end).
    assert (dp1 = dp) as ->.
    { subst dp1. rewrite Hnil, Hgen. rewrite <- Hnil. apply withTraces_same. }
    rewrite Hb, Hnil. unfold testbed.Inc. cbn [mbind option_bind].
    rewrite Hvb. cbn [mbind option_bind].
    rewrite (proj2 (Z.leb_le (Z.of_nat (pdata.Len None)) _))
      by (unfold pdata.Len; simpl; lia).
    cbn [mbind option_bind].
    destruct (IH (wrap_uint64 (vb + 1))
                (testbed.mkWorld (<[lb := wrap_uint64 (vb + 1)]> (testbed.counters w))
                   (testbed.ticks w)))
      as (w' & -> & Hb' & Hframe); try done.
    { cbn [testbed.counters]. by rewrite lookup_insert_eq. }
    { unfold wrap_uint64. apply Z.mod_pos_bound. lia. }
    cbn [mbind option_bind]. exists w'. split; [done|]. split.
    + rewrite Hb', wrap_uint64_add_l. do 2 f_equal. lia.
    + intros l Hl. rewrite Hframe by done. cbn [testbed.counters].
      by rewrite lookup_insert_ne.
Qed.

Lemma golden_metrics_cache dp ds err :
  goldenMetrics (golden.metricPairsFile dp) = (ds, err) →
  golden.metricsGenerated dp = None ∨ golden.metricsGenerated dp = ds →
  match golden.metricsGenerated dp with
  | None =>
      let '(metrics, _) := goldenMetrics (golden.metricPairsFile dp) in
      golden.withMetrics dp metrics (golden.metricsIndex dp)
  | Some _ => dp
  end = golden.withMetrics dp ds (golden.metricsIndex dp).
Proof.
  intros Hgen [Hc|Hc].
  - by rewrite Hc, Hgen.
  - destruct (golden.metricsGenerated dp) eqn:Hc'.
    + rewrite <- Hc, <- Hc'. by rewrite withMetrics_same.
    + by rewrite Hgen.
Qed.

(** X14: the golden provider hands out the metrics of the dataset whether or
    not generating the dataset reported an error: what was generated before
    the error is kept. A call while metrics are left returns the one at the
    index, not done, counts one batch and adds its data points to the data
    item counter. *)
Theorem golden_metrics_despite_error dp w ds err k md mc dpc lb li vb vi :
  goldenMetrics (golden.metricPairsFile dp) = (ds, err) →
  golden.metricsGenerated dp = None ∨ golden.metricsGenerated dp = ds →
  elems ds !! k = Some md →
  golden.metricsIndex dp = Z.of_nat k →
  Z.of_nat (length (elems ds)) < 2 ^ 63 →
  pdata.MetricAndDataPointCount md = Some (mc, dpc) →
  golden.batchesGenerated dp = Some lb →
  golden.dataItemsGenerated dp = Some li → lb ≠ li →
  testbed.counters w !! lb = Some vb →
  testbed.counters w !! li = Some vi →
  ∃ w',
    golden.GenerateMetrics goldenMetrics dp w
    = Some (md, false, golden.withMetrics dp ds (Z.of_nat (S k)), w') ∧
    testbed.counters w' !! lb = Some (wrap_uint64 (vb + 1)) ∧
    testbed.counters w' !! li = Some (wrap_uint64 (vi + Z.of_nat dpc)).
Proof.
  intros Hgen Hcache Hk Hidx Hlen Hcount Hb Hi Hne Hvb Hvi.
  pose proof (lookup_lt_Some _ _ _ Hk) as Hlt.
  unfold golden.GenerateMetrics.
  rewrite (golden_metrics_cache dp ds err Hgen Hcache).
  cbn [golden.withMetrics golden.batchesGenerated golden.metricsGenerated
       golden.metricsIndex golden.dataItemsGenerated].
  rewrite Hb. unfold testbed.Inc. cbn [mbind option_bind]. rewrite Hvb.
  cbn [mbind option_bind]. unfold pdata.Len.
  rewrite (proj2 (Z.eqb_neq _ _)) by lia.
  unfold golden.index. rewrite (proj2 (Z.ltb_ge _ _)) by lia.
  rewrite Hidx, Nat2Z.id, Hk. cbn [mbind option_bind].
  rewrite Hcount. cbn [mbind option_bind].
  unfold golden.Add. rewrite Hi. cbn [mbind option_bind testbed.counters].
  rewrite lookup_insert_ne, Hvi by done. cbn [mbind option_bind].
  eexists. split.
  - do 3 f_equal. f_equal. unfold golden.withMetrics. f_equal.
    rewrite wrap_int_small by lia. lia.
  - cbn [testbed.counters]. rewrite lookup_insert_ne, lookup_insert_eq by done.
    rewrite lookup_insert_eq. split; [done|].
    unfold wrap_uint64. by rewrite Zplus_mod_idemp_r.
Qed.

(** X15: once the index has reached the size of the dataset (at once, when
    the dataset is empty or could not be generated), a call of
    [GenerateMetrics] returns done together with the zero [Metrics] value,
    whose request is nil, where [GenerateTraces] returns a tree made by
    [NewTraces]; the call still counts as a batch and the index stays. *)
Theorem golden_metrics_exhausted dp w ds err lb vb :
  goldenMetrics (golden.metricPairsFile dp) = (ds, err) →
  golden.metricsGenerated dp = None ∨ golden.metricsGenerated dp = ds →
  golden.metricsIndex dp = Z.of_nat (length (elems ds)) →
  golden.batchesGenerated dp = Some lb →
  testbed.counters w !! lb = Some vb →
  ∃ md dp' w',
    golden.GenerateMetrics goldenMetrics dp w = Some (md, true, dp', w') ∧
    pdata.metrics_orig md = None ∧
    pdata.orig pdata.NewTraces ≠ None ∧
    golden.metricsIndex dp' = golden.metricsIndex dp ∧
    testbed.counters w' = <[lb := wrap_uint64 (vb + 1)]> (testbed.counters w).
Proof.
  intros Hgen Hcache Hidx Hb Hvb.
  unfold golden.GenerateMetrics.
  rewrite (golden_metrics_cache dp ds err Hgen Hcache).
  cbn [golden.withMetrics golden.batchesGenerated golden.metricsGenerated
       golden.metricsIndex golden.dataItemsGenerated].
  rewrite Hb. unfold testbed.Inc. cbn [mbind option_bind]. rewrite Hvb.
  cbn [mbind option_bind]. unfold pdata.Len.
  rewrite (proj2 (Z.eqb_eq _ _)) by done.
  eexists _, _, _. split; [done|]. done.
Qed.

(** ** Finding a generated span *)

Lemma populateSpansMap_allSpans l :
  golden.populateSpansMap spanKey l
  = foldl (λ m span, <[spanKey span := span]> m) ∅ (golden.allSpans l).
Proof.
  unfold golden.populateSpansMap, golden.allSpans.
  rewrite foldl_bind. generalize (∅ : gmap string Span).
  induction l as [|rs l IH]; intros m; [done|].
  cbn [foldl]. rewrite IH. by rewrite foldl_bind.
Qed.

Lemma populateSpansMap_nil : golden.populateSpansMap spanKey [] = ∅.
Proof. done. Qed.

Lemma lookup_foldl_insert key (l : list Span) : ∀ m : gmap string Span,
  foldl (λ m span, <[spanKey span := span]> m) m l !! key
  = match last (filter (λ span, spanKey span = key) l) with
    | Some span => Some span
    | None => m !! key
    end.
Proof.
  induction l as [|span l IH]; intros m; [done|].
  cbn [foldl]. rewrite IH, filter_cons.
  destruct (decide (spanKey span = key)) as [Hk|Hk].
  - rewrite last_cons. destruct (last _); [done|].
    by rewrite <- Hk, lookup_insert_eq.
  - destruct (last _); [done|]. by rewrite lookup_insert_ne.
Qed.

Lemma lookup_populateSpansMap key l :
  golden.populateSpansMap spanKey l !! key
  = last (filter (λ span, spanKey span = key) (golden.allSpans l)).
Proof.
  rewrite populateSpansMap_allSpans, lookup_foldl_insert.
  by destruct (last _).
Qed.

Lemma collect_resourceSpans (reqs : list ExportTraceServiceRequest) : ∀ acc,
  foldl (λ acc td,
    resourceSpansList ← acc;
    req ← pdata.orig td;
    Some (resourceSpansList ++ elems (ResourceSpans_ req)))
    (Some acc) ((λ req, pdata.mkTraces (Some req)) <$> reqs)
  = Some (acc ++ (reqs ≫= λ req, elems (ResourceSpans_ req))).
Proof.
  induction reqs as [|req reqs IH]; intros acc.
  - simpl. by rewrite app_nil_r.
  - cbn [fmap list_fmap foldl mbind option_bind pdata.orig list_bind].
    rewrite IH. by rewrite <- app_assoc.
Qed.

(** X16: [GetGeneratedSpan] on a provider whose trees are generated and
    whose map of spans is not yet built returns the last span, in the order
    of the dataset, that has the identifiers asked for, and nil exactly when
    no span has them; the map it built is kept, and later lookups answer
    from it in the same way. *)
Theorem golden_span_lookup dp reqs key :
  golden.spansMap dp = None →
  elems (golden.tracesGenerated dp) = (λ req, pdata.mkTraces (Some req)) <$> reqs →
  ∃ dp',
    golden.GetGeneratedSpan spanKey dp key
    = Some (last (filter (λ span, spanKey span = key)
                    (golden.allSpans (reqs ≫= λ req, elems (ResourceSpans_ req)))),
            dp') ∧
    golden.tracesGenerated dp' = golden.tracesGenerated dp ∧
    ∀ key',
      golden.GetGeneratedSpan spanKey dp' key'
      = Some (last (filter (λ span, spanKey span = key')
                      (golden.allSpans (reqs ≫= λ req, elems (ResourceSpans_ req)))),
              dp').
Proof.
  intros Hmap Hreqs. unfold golden.GetGeneratedSpan at 1.
  rewrite Hmap, Hreqs, collect_resourceSpans. cbn [mbind option_bind app].
  cbn [golden.withSpansMap golden.spansMap].
  cbn [mbind option_bind].
  eexists. split; [by rewrite lookup_populateSpansMap|]. split; [done|].
  intros key'. unfold golden.GetGeneratedSpan.
  cbn [golden.withSpansMap golden.spansMap mbind option_bind].
  by rewrite lookup_populateSpansMap.
Qed.

Lemma GenerateTraces_spansMap dp w td fin dp' w' :
  golden.GenerateTraces goldenTraces dp w = Some (td, fin, dp', w') →
  golden.spansMap dp' = golden.spansMap dp.
Proof.
  unfold golden.GenerateTraces.
  set (dp1 := match golden.tracesGenerated dp with None => _ | Some _ => dp end).
  assert (golden.spansMap dp1 = golden.spansMap dp) as <-.
  { subst dp1. destruct (golden.tracesGenerated dp); [done|].
    destruct (goldenTraces _ _) as [traces [e|]]; done. }
  generalize dp1. clear dp1. intros dp1.
  destruct (testbed.Inc _ w) as [[v w1]|]; [|done]. cbn [mbind option_bind].
  destruct (_ <=? _); [by intros [= _ _ <- _]|].
  destruct (golden.index _ _) as [td1|]; [|done]. cbn [mbind option_bind].
  destruct (pdata.SpanCount td1) as [c|]; [|done]. cbn [mbind option_bind].
  destruct (golden.Add _ _ w1) as [[v2 w2]|]; [|done]. cbn [mbind option_bind].
  by intros [= _ _ <- _].
Qed.

Lemma GenerateTracesN_spansMap n : ∀ dp w outs dp' w',
  golden.GenerateTracesN goldenTraces n dp w = Some (outs, dp', w') →
  golden.spansMap dp' = golden.spansMap dp.
Proof.
  induction n as [|n IH]; intros dp w outs dp' w'; cbn [golden.GenerateTracesN].
  - by intros [= _ <- _].
  - destruct (golden.GenerateTraces goldenTraces dp w) as [[[[td fin] dp1] w1]|]
      eqn:Hgen; [|done].
    cbn [mbind option_bind].
    destruct (golden.GenerateTracesN goldenTraces n dp1 w1) as [[[outs1 dp2] w2]|]
      eqn:HN; [|done].
    cbn [mbind option_bind]. intros [= _ <- _].
    rewrite (IH _ _ _ _ _ HN). by eapply GenerateTraces_spansMap.
Qed.

(** X17: a lookup on a provider that has not generated its trees yet finds
    nothing and builds an empty map, which is kept: whatever trees the
    provider hands out afterwards, every later lookup finds nothing. *)
Theorem golden_span_lookup_before_generation dp key0 r dp1 n w outs dp2 w2 :
  golden.tracesGenerated dp = None → golden.spansMap dp = None →
  golden.GetGeneratedSpan spanKey dp key0 = Some (r, dp1) →
  golden.GenerateTracesN goldenTraces n dp1 w = Some (outs, dp2, w2) →
  r = None ∧ ∀ key, golden.GetGeneratedSpan spanKey dp2 key = Some (None, dp2).
Proof.
  intros Hnil Hmap. unfold golden.GetGeneratedSpan at 1.
  rewrite Hmap, Hnil. change (elems None) with (@nil pdata.Traces).
  cbn [foldl mbind option_bind golden.withSpansMap golden.spansMap].
  rewrite populateSpansMap_nil, lookup_empty. intros [= <- <-] HN.
  split; [done|]. intros key. apply GenerateTracesN_spansMap in HN.
  cbn [golden.withSpansMap golden.spansMap] in HN.
  unfold golden.GetGeneratedSpan. rewrite HN. cbn [mbind option_bind].
  rewrite HN. cbn [mbind option_bind]. by rewrite lookup_empty.
Qed.
End Golden.

Lemma golden_traces_in_order_witness :
  ∃ dp' w',
    golden.GenerateTracesN (λ _ _, (Some golden.sampleDataset, None)) 3
      (golden.SetLoadGeneratorCounters (golden.NewGoldenDataProvider "t" "s" "m")
         (Some 0%nat) (Some 1%nat)) testbed.sampleWorld
    = Some (((λ req, (pdata.mkTraces (Some req), false))
               <$> take 3 [tree.sampleUnset; tree.sampleRequest []])
              ++ replicate (3 - length [tree.sampleUnset; tree.sampleRequest []])
                   (pdata.NewTraces, true),
            dp', w') ∧
    golden.tracesIndex dp'
    = Z.of_nat (3 `min` length [tree.sampleUnset; tree.sampleRequest []]).
Proof.
  apply (golden_traces_in_order (λ _ _, (Some golden.sampleDataset, None))
           "t" "s" "m" (Some golden.sampleDataset)
           [tree.sampleUnset; tree.sampleRequest []] 0%nat 1%nat 0 0
           testbed.sampleWorld 3);
    [reflexivity|reflexivity|simpl; lia|lia|reflexivity|lia|reflexivity|lia].
Defined.

Lemma golden_traces_counters_witness :
  ∃ outs dp' w',
    golden.GenerateTracesN (λ _ _, (Some golden.sampleDataset, None)) 3
      (golden.SetLoadGeneratorCounters (golden.NewGoldenDataProvider "t" "s" "m")
         (Some 0%nat) (Some 1%nat)) testbed.sampleWorld
    = Some (outs, dp', w') ∧
    testbed.counters w' !! 0%nat = Some (wrap_uint64 (0 + Z.of_nat 3)) ∧
    testbed.counters w' !! 1%nat
    = Some (wrap_uint64
              (0 + Z.of_nat (sum_list_with tree.spanTotal
                               (take 3 [tree.sampleUnset; tree.sampleRequest []])))).
Proof.
  apply (golden_traces_counters (λ _ _, (Some golden.sampleDataset, None))
           "t" "s" "m" (Some golden.sampleDataset)
           [tree.sampleUnset; tree.sampleRequest []] 0%nat 1%nat 0 0
           testbed.sampleWorld 3);
    [reflexivity|reflexivity|simpl; lia|lia|reflexivity|lia|reflexivity|lia].
Defined.

Lemma golden_traces_generation_failure_witness :
  ∃ w',
    golden.GenerateTracesN (λ _ _, (Some golden.sampleDataset, Some "no file")) 2
      golden.sampleProvider testbed.sampleWorld
    = Some (replicate 2 (pdata.NewTraces, true), golden.sampleProvider, w') ∧
    testbed.counters w' !! 0%nat = Some (wrap_uint64 (0 + Z.of_nat 2)) ∧
    ∀ l, l ≠ 0%nat →
      testbed.counters w' !! l = testbed.counters testbed.sampleWorld !! l.
Proof.
  apply (golden_traces_generation_failure
           (λ _ _, (Some golden.sampleDataset, Some "no file"))
           golden.sampleProvider (Some golden.sampleDataset) "no file" 0%nat 0 2
           testbed.sampleWorld);
    [reflexivity|reflexivity|simpl; lia|reflexivity|reflexivity|lia].
Defined.

Lemma golden_metrics_despite_error_witness :
  ∃ w',
    golden.GenerateMetrics (λ _, (Some [golden.sampleMetrics], Some "bad pair"))
      golden.sampleProvider testbed.sampleWorld
    = Some (golden.sampleMetrics, false,
            golden.withMetrics golden.sampleProvider
              (Some [golden.sampleMetrics]) (Z.of_nat 1), w') ∧
    testbed.counters w' !! 0%nat = Some (wrap_uint64 (0 + 1)) ∧
    testbed.counters w' !! 1%nat = Some (wrap_uint64 (0 + Z.of_nat 2)).
Proof.
  apply (golden_metrics_despite_error
           (λ _, (Some [golden.sampleMetrics], Some "bad pair"))
           golden.sampleProvider testbed.sampleWorld
           (Some [golden.sampleMetrics]) (Some "bad pair") 0 golden.sampleMetrics
           1%nat 2%nat 0%nat 1%nat 0 0);
    [reflexivity|by left|reflexivity|reflexivity|simpl; lia|reflexivity
    |reflexivity|reflexivity|lia|reflexivity|reflexivity].
Defined.

Lemma golden_metrics_exhausted_witness :
  ∃ md dp' w',
    golden.GenerateMetrics (λ _, (None, Some "no file"))
      golden.sampleProvider testbed.sampleWorld = Some (md, true, dp', w') ∧
    pdata.metrics_orig md = None ∧
    pdata.orig pdata.NewTraces ≠ None ∧
    golden.metricsIndex dp' = golden.metricsIndex golden.sampleProvider ∧
    testbed.counters w'
    = <[0%nat := wrap_uint64 (0 + 1)]> (testbed.counters testbed.sampleWorld).
Proof.
  apply (golden_metrics_exhausted (λ _, (None, Some "no file"))
           golden.sampleProvider testbed.sampleWorld None (Some "no file")
           0%nat 0);
    [reflexivity|by left|reflexivity|reflexivity|reflexivity].
Defined.

Lemma golden_span_lookup_witness :
  ∃ dp',
    golden.GetGeneratedSpan Name
      (golden.withTraces golden.sampleProvider (Some golden.sampleDataset) 2) "s"
    = Some (last (filter (λ span, Name span = "s")
                    (golden.allSpans
                       ([tree.sampleUnset; tree.sampleRequest []]
                          ≫= λ req, elems (ResourceSpans_ req)))),
            dp') ∧
    golden.tracesGenerated dp'
    = golden.tracesGenerated
        (golden.withTraces golden.sampleProvider (Some golden.sampleDataset) 2) ∧
    ∀ key',
      golden.GetGeneratedSpan Name dp' key'
      = Some (last (filter (λ span, Name span = key')
                      (golden.allSpans
                         ([tree.sampleUnset; tree.sampleRequest []]
                            ≫= λ req, elems (ResourceSpans_ req)))),
              dp').
Proof.
  apply (golden_span_lookup Name
           (golden.withTraces golden.sampleProvider (Some golden.sampleDataset) 2)
           [tree.sampleUnset; tree.sampleRequest []] "s");
    reflexivity.
Defined.

Lemma golden_span_lookup_before_generation_witness :
  ∃ outs dp2 w2,
    golden.GenerateTracesN (λ _ _, (Some golden.sampleDataset, None)) 2
      (golden.withSpansMap golden.sampleProvider (Some ∅)) testbed.sampleWorld
    = Some (outs, dp2, w2) ∧
    ∀ key, golden.GetGeneratedSpan Name dp2 key = Some (None, dp2).
Proof.
  destruct (golden.GenerateTracesN (λ _ _, (Some golden.sampleDataset, None)) 2
              (golden.withSpansMap golden.sampleProvider (Some ∅))
              testbed.sampleWorld) as [[[outs dp2] w2]|] eqn:HN;
    [|by vm_compute in HN].
  exists outs, dp2, w2. split; [done|].
  apply (proj2 (golden_span_lookup_before_generation
                  (λ _ _, (Some golden.sampleDataset, None)) Name
                  golden.sampleProvider "s" None
                  (golden.withSpansMap golden.sampleProvider (Some ∅))
                  2 testbed.sampleWorld outs dp2 w2
                  eq_refl eq_refl eq_refl HN)).
Defined.

(** ** The counters after a batch of metrics *)

Lemma applyOps_items dp lb li k : ∀ w vb vi,
  testbed.batchesGenerated dp = Some lb →
  testbed.dataItemsGenerated dp = Some li → lb ≠ li →
  testbed.counters w !! lb = Some vb →
  testbed.counters w !! li = Some (wrap_uint64 vi) →
  ∃ w',
    testbed.applyOps dp (replicate k testbed.IncDataItems) w = Some w' ∧
    testbed.counters w' !! lb = Some vb ∧
    testbed.counters w' !! li = Some (wrap_uint64 (vi + Z.of_nat k)).
Proof.
  induction k as [|k IH]; intros w vb vi Hb Hi Hne Hvb Hvi.
  - exists w. simpl. by rewrite Z.add_0_r.
  - cbn [replicate testbed.applyOps testbed.counterOf]. rewrite Hi.
    unfold testbed.Inc. cbn [mbind option_bind]. rewrite Hvi.
    cbn [mbind option_bind].
    destruct (IH (testbed.mkWorld
                    (<[li := wrap_uint64 (wrap_uint64 vi + 1)]> (testbed.counters w))
                    (testbed.ticks w)) vb (vi + 1))
      as (w' & -> & Hb' & Hi'); try done.
    { cbn [testbed.counters]. by rewrite lookup_insert_ne. }
    { cbn [testbed.counters]. by rewrite lookup_insert_eq, wrap_uint64_add_l. }
    exists w'. split; [done|]. split; [done|].
    rewrite Hi'. do 2 f_equal. lia.
Qed.

Lemma applyOps_metrics dp lb li k n : ∀ w vb vi,
  testbed.batchesGenerated dp = Some lb →
  testbed.dataItemsGenerated dp = Some li → lb ≠ li →
  testbed.counters w !! lb = Some (wrap_uint64 vb) →
  testbed.counters w !! li = Some (wrap_uint64 vi) →
  ∃ w',
    testbed.applyOps dp
      (concat (replicate n (testbed.IncBatches :: replicate k testbed.IncDataItems)))
      w = Some w' ∧
    testbed.counters w' !! lb = Some (wrap_uint64 (vb + Z.of_nat n)) ∧
    testbed.counters w' !! li = Some (wrap_uint64 (vi + Z.of_nat (k * n))).
Proof.
  induction n as [|n IH]; intros w vb vi Hb Hi Hne Hvb Hvi.
  - exists w. simpl. by rewrite Nat.mul_0_r, !Z.add_0_r.
  - cbn [replicate concat]. rewrite applyOps_app.
    cbn [testbed.applyOps testbed.counterOf]. rewrite Hb.
    unfold testbed.Inc. cbn [mbind option_bind]. rewrite Hvb.
    cbn [mbind option_bind].
    destruct (applyOps_items dp lb li k
                (testbed.mkWorld
                   (<[lb := wrap_uint64 (wrap_uint64 vb + 1)]> (testbed.counters w))
                   (testbed.ticks w)) (wrap_uint64 (vb + 1)) vi)
      as (w1 & -> & Hb1 & Hi1); try done.
    { cbn [testbed.counters]. by rewrite lookup_insert_eq, wrap_uint64_add_l. }
    { cbn [testbed.counters]. by rewrite lookup_insert_ne. }
    cbn [mbind option_bind].
    destruct (IH w1 (vb + 1) (vi + Z.of_nat k)) as (w' & -> & Hb' & Hi');
      try done.
    exists w'. split; [done|]. split.
    + rewrite Hb'. do 2 f_equal. lia.
    + rewrite Hi'. do 2 f_equal. lia.
Qed.

Section LoadGenerator.
Variable now : nat → Z.

(** X18: a call of [GenerateMetrics] of the load generator with
    [ItemsPerBatch = n] advances the batch counter by [n], one for each
    metric and not one for the batch, and the data item counter by [7 n],
    the number of data points of the batch. *)
Theorem GenerateMetrics_counters dp w n lb li vb vi :
  testbed.ItemsPerBatch (testbed.options dp) = n → 0 ≤ n →
  testbed.batchesGenerated dp = Some lb →
  testbed.dataItemsGenerated dp = Some li → lb ≠ li →
  testbed.counters w !! lb = Some vb → 0 ≤ vb < 2 ^ 64 →
  testbed.counters w !! li = Some vi → 0 ≤ vi < 2 ^ 64 →
  ∃ md w',
    testbed.GenerateMetrics now dp w = Some (md, false, w') ∧
    testbed.counters w' !! lb = Some (wrap_uint64 (vb + n)) ∧
    testbed.counters w' !! li = Some (wrap_uint64 (vi + 7 * n)).
Proof.
  intros Hn Hpos Hb Hi Hne Hvb Hrb Hvi Hri.
  assert (testbed.live dp w) as Hlive.
  { exists lb, li. by rewrite Hvb, Hvi. }
  destruct (GenerateMetrics_counter_ops now dp w n Hn Hpos Hlive)
    as (md & w' & w0 & Hgen & Hops & Heq).
  exists md, w'. split; [done|]. rewrite <- Heq.
  unfold testbed.GenerateMetrics_ops in Hops. rewrite Hn in Hops.
  destruct (applyOps_metrics dp lb li (Z.to_nat testbed.dataPointsPerMetric)
              (Z.to_nat n) w vb vi) as (w1 & Hops1 & Hb1 & Hi1); try done.
  { rewrite Hvb. unfold wrap_uint64. by rewrite Z.mod_small. }
  { rewrite Hvi. unfold wrap_uint64. by rewrite Z.mod_small. }
  rewrite Hops in Hops1. injection Hops1 as <-.
  rewrite Hb1, Hi1. split; do 2 f_equal; [lia|].
  change (Z.to_nat testbed.dataPointsPerMetric) with 7%nat. lia.
Qed.

Lemma GenerateMetrics_unfold_None dp w n ms0 :
  testbed.ItemsPerBatch (testbed.options dp) = n →
  pdata.Resize testbed.zeroMetric n None = Some ms0 →
  loop (Z.to_nat n) 0
    (λ i '(metrics, w),
       pdata.updateAt metrics i (testbed.generateMetric now dp i) w)
    (ms0, w) = None →
  testbed.GenerateMetrics now dp w = None.
Proof.
  intros Hn Hms0 Hloop.
  unfold testbed.GenerateMetrics. cbv zeta. rewrite Hn.
  change (pdata.ResourceMetrics pdata.NewMetrics)
    with (Some (@None (list otlpmetrics.ResourceMetrics))).
  cbn [mbind option_bind].
  change (pdata.Resize testbed.zeroRM 1 None)
    with (Some (Some [testbed.zeroRM])).
  cbn [mbind option_bind].
  rewrite updateAt_singleton.
  change (pdata.Resize testbed.zeroILM 1
            (otlpmetrics.InstrumentationLibraryMetrics_ testbed.zeroRM))
    with (Some (Some [testbed.zeroILM])).
  cbn [mbind option_bind].
  destruct (testbed.Attributes (testbed.options dp)) as [attributes|];
    rewrite ?updateAt_singleton;
    cbn [mbind option_bind otlpmetrics.InstrumentationLibraryMetrics_
         otlpmetrics.Resource_];
    rewrite ?updateAt_singleton;
    cbn [mbind option_bind otlpmetrics.InstrumentationLibraryMetrics_
         otlpmetrics.Resource_];
    rewrite ?updateAt_singleton;
    change (otlpmetrics.Metrics testbed.zeroILM)
      with (@None (list otlpmetrics.Metric));
    rewrite Hms0; cbn [mbind option_bind];
    rewrite Hloop; reflexivity.
Qed.

(** X19: on a provider whose counters were never set, [GenerateMetrics]
    panics on the nil counter as soon as the batch has a metric
    ([ItemsPerBatch ≥ 1]); with [ItemsPerBatch = 0] no counter is touched
    and the call returns a batch without metrics. *)
Theorem GenerateMetrics_without_counters options w :
  0 ≤ testbed.ItemsPerBatch options →
  (1 ≤ testbed.ItemsPerBatch options →
   testbed.GenerateMetrics now (testbed.NewPerfTestDataProvider options) w = None) ∧
  (testbed.ItemsPerBatch options = 0 →
   ∃ md, testbed.GenerateMetrics now (testbed.NewPerfTestDataProvider options) w
         = Some (md, false, w) ∧
         pdata.MetricAndDataPointCount md = Some (0%nat, 0%nat)).
Proof.
  intros Hpos.
  destruct (Resize_length testbed.zeroMetric (testbed.ItemsPerBatch options)
              None Hpos) as (ms0 & Hms0 & Hlen0).
  split.
  - intros Hn. apply (GenerateMetrics_unfold_None (testbed.NewPerfTestDataProvider options)
             w (testbed.ItemsPerBatch options) ms0 eq_refl Hms0).
    destruct (Z.to_nat (testbed.ItemsPerBatch options)) as [|k] eqn:Hk; [lia|].
    rewrite loop_S. unfold pdata.updateAt, pdata.At.
    destruct (elems ms0 !! 0%nat) as [metric|]; [|done].
    cbn [mbind option_bind]. unfold testbed.generateMetric. cbv zeta.
    unfold testbed.Inc. done.
  - intros Hn.
    destruct (GenerateMetrics_unfold now (testbed.NewPerfTestDataProvider options)
                w (testbed.ItemsPerBatch options) ms0 ms0 w eq_refl Hms0) as [res Hgen].
    { cbn [testbed.NewPerfTestDataProvider testbed.options]. by rewrite Hn. }
    eexists. split; [exact Hgen|].
    rewrite Hn in Hlen0. destruct ms0 as [[|m ms]|]; try done.
Qed.
End LoadGenerator.

Lemma GenerateMetrics_counters_witness :
  ∃ md w',
    testbed.GenerateMetrics (λ k, Z.of_nat k) testbed.sampleProvider
      testbed.sampleWorld = Some (md, false, w') ∧
    testbed.counters w' !! 0%nat = Some (wrap_uint64 (0 + 1)) ∧
    testbed.counters w' !! 1%nat = Some (wrap_uint64 (0 + 7 * 1)).
Proof.
  apply (GenerateMetrics_counters (λ k, Z.of_nat k) testbed.sampleProvider
           testbed.sampleWorld 1 0%nat 1%nat 0 0);
    [reflexivity|lia|reflexivity|reflexivity|lia|reflexivity|lia|reflexivity|lia].
Defined.

Lemma GenerateMetrics_without_counters_witness :
  testbed.GenerateMetrics (λ k, Z.of_nat k)
    (testbed.NewPerfTestDataProvider (testbed.mkLoadOptions 2 None))
    testbed.sampleWorld = None.
Proof.
  apply (proj1 (GenerateMetrics_without_counters (λ k, Z.of_nat k)
                  (testbed.mkLoadOptions 2 None) testbed.sampleWorld
                  ltac:(simpl; lia))).
  simpl. lia.
Defined.

(** ** Span identifiers under interleaving *)

(** X20: for any interleaving of concurrent calls of the load generator
    that makes fewer than 2^56 increments in all, the span identifiers made
    from the numbers a counter returned all exist and are pairwise distinct:
    no two spans, of the same call or of different calls, share an
    identifier. *)
Theorem span_ids_distinct sched s s' l v0 :
  testbed.run sched s = Some s' →
  testbed.history s = [] →
  testbed.counters (testbed.shared s) !! l = Some v0 →
  0 ≤ v0 → v0 + Z.of_nat (length sched) < 2 ^ 56 →
  Forall (λ v, is_Some (ids.GenerateSequentialSpanID v))
    (testbed.observed l (testbed.history s')) ∧
  NoDup (ids.GenerateSequentialSpanID
           <$> testbed.observed l (testbed.history s')).
Proof.
  intros Hrun Hhist Hcnt Hv0 Hbound.
  destruct (run_counts l v0 sched s s' 0) as (k & Hk & Hobs & _); try done.
  { by rewrite Hhist. }
  { rewrite Hcnt. unfold wrap_uint64. rewrite Z.add_0_r, Z.mod_small; [done|lia]. }
  assert ((λ i, wrap_uint64 (v0 + Z.of_nat i)) <$> seq 1 k
          = (λ i, v0 + Z.of_nat i) <$> seq 1 k) as Heq.
  { apply list_fmap_ext. intros i x Hx.
    apply lookup_seq in Hx as [-> Hi]. unfold wrap_uint64.
    rewrite Z.mod_small; [done|lia]. }
  rewrite Heq in Hobs. rewrite Hobs.
  assert (∀ v, v ∈ (λ i, v0 + Z.of_nat i) <$> seq 1 k → 0 ≤ v < 2 ^ 56) as Hrange.
  { intros v (i & -> & Hi)%list_elem_of_fmap. apply elem_of_seq in Hi. lia. }
  split.
  - apply Forall_forall. intros v Hv%Hrange.
    unfold ids.GenerateSequentialSpanID.
    destruct (PutUvarint_Some (replicate 8 x00) v) as (out & -> & _);
      [done|simpl; lia|]. done.
  - apply NoDup_fmap_2_strong.
    + intros x y Hx%Hrange Hy%Hrange Hxy.
      unfold ids.GenerateSequentialSpanID in Hxy.
      destruct (PutUvarint_Some (replicate 8 x00) x) as (out & Hout & _);
        [done|simpl; lia|].
      rewrite Hout in Hxy.
      by apply (PutUvarint_inj (replicate 8 x00) x y out); try lia.
    + apply NoDup_fmap_2; [|apply NoDup_seq]. intros i j Hij. lia.
Qed.

Lemma span_ids_distinct_witness :
  ∃ s',
    testbed.run testbed.sampleSchedule testbed.sampleSystem = Some s' ∧
    Forall (λ v, is_Some (ids.GenerateSequentialSpanID v))
      (testbed.observed 1 (testbed.history s')) ∧
    NoDup (ids.GenerateSequentialSpanID
             <$> testbed.observed 1 (testbed.history s')).
Proof.
  destruct (testbed.run testbed.sampleSchedule testbed.sampleSystem)
    as [s'|] eqn:Hrun; [|by vm_compute in Hrun].
  exists s'. split; [done|].
  apply (span_ids_distinct testbed.sampleSchedule testbed.sampleSystem
           s' 1%nat 0 Hrun); [reflexivity|reflexivity|lia|simpl; lia].
Defined.
